(** * VIB34D unified pulse game: the audio analysis core

    A shallow embedding of the audio-to-parameter core of the game
    (beat and tempo tracking, spectral centroid, latency compensation,
    procedural event generation and the VIB34D parameter adapter) together
    with the properties the design document states about it.

    JavaScript numbers are modelled by the real numbers [R]: doubles are
    idealised, and the non-finite situations that matter here are made
    explicit, namely a silent spectrum bin ([-Infinity] dB, see
    [Spectrum.dB]), a division that the source guards, and the division by
    zero of the pitch detection, whose results are numbers that need not be
    finite (see [Number.t]).  A call that ends in a [TypeError] returns the
    state it leaves together with how it ended.  Arrays are lists,
    objects with a fixed set of keys are records or total maps over an
    enumeration of the keys, and every read of [Date.now()] or
    [Math.random()] is an explicit input of the function that performs it. *)

From Stdlib Require Import ZArith Reals Lra List Bool Arith Lia.
From Stdlib Require Import Sorted Permutation.
Import ListNotations.
Open Scope R_scope.

(** ** JavaScript arithmetic on numbers *)

Module JS.

(** [a > b] and [a < b] as booleans. *)
Definition gtb (a b : R) : bool := if Rlt_dec b a then true else false.
Definition ltb (a b : R) : bool := if Rlt_dec a b then true else false.

(** [a !== b] on numbers. *)
Definition strict_neq (a b : R) : bool := if Req_dec_T a b then false else true.

(** [x || d] on numbers: [0] is falsy, every other real is truthy. *)
Definition or_default (x d : R) : R := if Req_dec_T x 0 then d else x.

(** [Math.floor], and truncation toward zero. *)
Definition floor (x : R) : R := IZR (Int_part x).
Definition trunc (x : R) : R := if Rle_dec 0 x then floor x else - floor (- x).

(** [a % b]: the remainder takes the sign of the dividend. *)
Definition rem (a b : R) : R := a - b * trunc (a / b).

(** [Math.log2]. *)
Definition log2 (x : R) : R := ln x / ln 2.

(** [Array.prototype.push] followed by [if (length > cap) shift()]. *)
Definition push_capped {A : Type} (cap : nat) (xs : list A) (x : A) : list A :=
  let xs' := xs ++ [x] in
  if (cap <? length xs')%nat then tl xs' else xs'.

(** [xs.slice(-n)]. *)
Definition slice_last {A : Type} (n : nat) (xs : list A) : list A :=
  skipn (length xs - n) xs.

(** [xs.slice(-a, -b)] for [0 < b <= a]. *)
Definition slice_neg {A : Type} (a b : nat) (xs : list A) : list A :=
  let start := (length xs - a)%nat in
  let stop := (length xs - b)%nat in
  firstn (stop - start) (skipn start xs).

(** [xs.reduce((sum, x) => sum + x, 0)]. *)
Definition sum (xs : list R) : R := fold_left Rplus xs 0.

End JS.

(** ** Frequency-domain frames *)

Module Spectrum.

(** One bin of [getFloatFrequencyData]: a level in dB, or [-Infinity] for
    a bin that carries no signal. *)
Inductive dB : Type :=
| NegInfinity
| Decibel (v : R).

(** [Math.pow(10, value / 20)]. *)
Definition magnitude (s : dB) : R :=
  match s with
  | NegInfinity => 0
  | Decibel v => Rpower 10 (v / 20)
  end.

(** The accumulation loops of the centroid functions:
    [numerator += weight(i) * magnitude; denominator += magnitude]. *)
Fixpoint weighted_sums (weight : nat -> R) (i : nat) (data : list dB)
         (acc : R * R) : R * R :=
  match data with
  | [] => acc
  | s :: rest =>
      weighted_sums weight (S i) rest
        (fst acc + weight i * magnitude s, snd acc + magnitude s)
  end.

(** Sum of the linear-scale magnitudes of a frame. *)
Definition total_magnitude (data : list dB) : R :=
  fold_left (fun total s => total + magnitude s) data 0.

End Spectrum.

(** ** UnifiedAudioGameDirector: beat and tempo tracker, frame analysis *)

Module Director.
Import Spectrum.

Record EnergySample : Type := { time : R; energy : R }.

Record t : Type := {
  energyHistory : list EnergySample;
  beatHistory : list R;
  currentBPM : R;
  lastBeatTime : R;
  beatConfidence : R
}.

(** The constructor's initial values. *)
Definition fresh : t :=
  {| energyHistory := []; beatHistory := []; currentBPM := 120;
     lastBeatTime := 0; beatConfidence := 0 |}.

Record Beat : Type := {
  detected : bool;
  strength : R;
  confidence : R;
  timeSinceLastBeat : R
}.

Record BeatInfo : Type := {
  bpm : R;
  infoLastBeatTime : R;
  infoTimeSinceLastBeat : R;
  infoBeatHistory : list R
}.

(** [calculateTotalEnergy]: mean linear magnitude over the buffer. *)
Definition calculateTotalEnergy (frequencyData : list dB) : R :=
  total_magnitude frequencyData / INR (length frequencyData).

(** [detectBeat]; [now] is the value [Date.now()] returns inside it. *)
Definition detectBeat (now : R) (frequencyData : list dB) (d : t) : t * Beat :=
  let currentEnergy := calculateTotalEnergy frequencyData in
  let history :=
    JS.push_capped 50 (energyHistory d) {| time := now; energy := currentEnergy |} in
  if (10 <? length history)%nat then
    let recentAvg :=
      fold_left (fun sum e => sum + energy e) (JS.slice_last 10 history) 0 / 10 in
    let threshold := recentAvg * 1.5 in
    if JS.gtb currentEnergy threshold && JS.gtb (now - lastBeatTime d) 300 then
      ({| energyHistory := history;
          beatHistory := JS.push_capped 20 (beatHistory d) now;
          currentBPM := currentBPM d;
          lastBeatTime := now;
          beatConfidence := beatConfidence d |},
       {| detected := true;
          strength := (currentEnergy - threshold) / threshold;
          confidence := beatConfidence d;
          timeSinceLastBeat := now - now |})
    else
      ({| energyHistory := history;
          beatHistory := beatHistory d;
          currentBPM := currentBPM d;
          lastBeatTime := lastBeatTime d;
          beatConfidence := beatConfidence d |},
       {| detected := false;
          strength := 0;
          confidence := beatConfidence d;
          timeSinceLastBeat := now - lastBeatTime d |})
  else
    ({| energyHistory := history;
        beatHistory := beatHistory d;
        currentBPM := currentBPM d;
        lastBeatTime := lastBeatTime d;
        beatConfidence := beatConfidence d |},
     {| detected := false;
        strength := 0;
        confidence := beatConfidence d;
        timeSinceLastBeat := now - lastBeatTime d |}).

(** [intervals.push(beatHistory[i] - beatHistory[i-1])] for [i >= 1]. *)
Fixpoint intervals (history : list R) : list R :=
  match history with
  | a :: (b :: _) as rest => (b - a) :: intervals rest
  | _ => []
  end.

Definition average (xs : list R) : R := JS.sum xs / INR (length xs).

(** [calculateTempo]: updates the stored tempo and returns the clamped one. *)
Definition calculateTempo (d : t) : t * R :=
  if (length (beatHistory d) <? 4)%nat then (d, currentBPM d)
  else
    let avgInterval := average (intervals (beatHistory d)) in
    let newBPM := 60000 / avgInterval in
    let smoothed := currentBPM d * 0.8 + newBPM * 0.2 in
    ({| energyHistory := energyHistory d;
        beatHistory := beatHistory d;
        currentBPM := smoothed;
        lastBeatTime := lastBeatTime d;
        beatConfidence := beatConfidence d |},
     Rmax 60 (Rmin 200 smoothed)).

(** [analyzeRhythmComplexity]. *)
Definition analyzeRhythmComplexity (d : t) : R :=
  if (length (beatHistory d) <? 4)%nat then 0.5
  else
    let ivs := intervals (beatHistory d) in
    let avgInterval := average ivs in
    let variance :=
      fold_left (fun sum interval => sum + (interval - avgInterval) ^ 2) ivs 0
      / INR (length ivs) in
    Rmin 1.0 (variance / 10000).

(** [getCurrentBPM] and [getBeatInfo]; [now] is the [Date.now()] read by
    [getBeatInfo]. *)
Definition getCurrentBPM (d : t) : R := currentBPM d.

Definition getBeatInfo (now : R) (d : t) : BeatInfo :=
  {| bpm := currentBPM d;
     infoLastBeatTime := lastBeatTime d;
     infoTimeSinceLastBeat := now - lastBeatTime d;
     infoBeatHistory := beatHistory d |}.

(** The rhythm part of [performCompleteAudioAnalysis]: the object literal
    evaluates [detectBeat()] and then [calculateTempo()]. *)
Definition analyseRhythm (now : R) (frequencyData : list dB) (d : t) : t * (Beat * R) :=
  let (d1, beat) := detectBeat now frequencyData d in
  let (d2, tempo) := calculateTempo d1 in
  (d2, (beat, tempo)).

(** Feeding a sequence of frames, each with the clock value read while it
    is analysed; the result lists the frames' beat records. *)
Fixpoint run (d : t) (frames : list (R * list dB)) : t * list (R * Beat) :=
  match frames with
  | [] => (d, [])
  | (now, frequencyData) :: rest =>
      let (d1, out) := analyseRhythm now frequencyData d in
      let (d2, outs) := run d1 rest in
      (d2, (now, fst out) :: outs)
  end.

(** Times of the accepted beats of a trace, oldest first. *)
Definition acceptedBeats (trace : list (R * Beat)) : list R :=
  map fst (filter (fun o => detected (snd o)) trace).

(** [calculateSpectralCentroid]: frequency-weighted mean of the magnitudes,
    [440] when the magnitudes sum to nothing. *)
Definition calculateSpectralCentroid (sampleRate : R) (frequencyData : list dB) : R :=
  let n := length frequencyData in
  let sums :=
    weighted_sums (fun i => INR i * (sampleRate / 2) / INR n) 0 frequencyData (0, 0) in
  let numerator := fst sums in
  let denominator := snd sums in
  if JS.gtb denominator 0 then numerator / denominator else 440.

End Director.

(** ** UnifiedAudioGameDirector, continued: the analysis handed to the
    integration layer ([getCurrentAnalysis]) *)

Module Analysis.
Import Spectrum.

Record Band : Type := { bandMin : R; bandMax : R }.

Definition subBass := {| bandMin := 0; bandMax := 60 |}.
Definition bass := {| bandMin := 60; bandMax := 250 |}.
Definition lowMid := {| bandMin := 250; bandMax := 500 |}.
Definition mid := {| bandMin := 500; bandMax := 2000 |}.
Definition highMid := {| bandMin := 2000; bandMax := 4000 |}.
Definition presence := {| bandMin := 4000; bandMax := 6000 |}.
Definition brilliance := {| bandMin := 6000; bandMax := 20000 |}.

(** The body of the loop of [analyzeFrequencyBands] for one band: the bins
    [startBin <= i < endBin], as far as the buffer reaches. *)
Definition bandEnergy (sampleRate : R) (frequencyData : list dB) (b : Band) : R :=
  let nyquist := sampleRate / 2 in
  let binSize := nyquist / INR (length frequencyData) in
  let startBin := Int_part (bandMin b / binSize) in
  let endBin := Int_part (bandMax b / binSize) in
  let bins :=
    firstn (Z.to_nat (endBin - startBin)) (skipn (Z.to_nat startBin) frequencyData) in
  total_magnitude bins / IZR (endBin - startBin).

(** [analyzeFrequencyBands], the energies in the order of the table. *)
Definition analyzeFrequencyBands (sampleRate : R) (frequencyData : list dB) : list R :=
  map (bandEnergy sampleRate frequencyData)
      [subBass; bass; lowMid; mid; highMid; presence; brilliance].

(** [calculateEnergyVariance]. *)
Definition calculateEnergyVariance (d : Director.t) : R :=
  if (length (Director.energyHistory d) <? 10)%nat then 0.1
  else
    let energies := map Director.energy (JS.slice_last 10 (Director.energyHistory d)) in
    let mean := JS.sum energies / INR (length energies) in
    fold_left (fun sum e => sum + (e - mean) ^ 2) energies 0 / INR (length energies).

(** [calculateAudioComplexity]. *)
Definition calculateAudioComplexity (sampleRate : R) (frequencyData : list dB)
           (d : Director.t) : R :=
  let bands := analyzeFrequencyBands sampleRate frequencyData in
  let rhythm := Director.analyzeRhythmComplexity d in
  let activeBands := length (filter (fun e => JS.gtb e 0.1) bands) in
  let spectralComplexity := INR activeBands / 7 in
  let energyVariance := calculateEnergyVariance d in
  let dynamicComplexity := Rmin 1.0 (energyVariance / 0.1) in
  let complexity := (spectralComplexity + rhythm + dynamicComplexity) / 3 in
  Rmax 0.1 (Rmin 2.0 complexity).

(** What [getCurrentAnalysis] returns, as far as the integration layer
    reads it (the pitch and the spectral bandwidth are left out). *)
Record AudioData : Type := {
  bassEnergy : R;
  midEnergy : R;
  trebleEnergy : R;
  totalEnergy : R;
  complexityScore : R;
  spectralCentroid : R;
  beat : Director.Beat;
  rhythmComplexity : R
}.

(** [getCurrentAnalysis]; it runs [detectBeat], which reads the clock. *)
Definition getCurrentAnalysis (sampleRate now : R) (frequencyData : list dB)
           (d : Director.t) : Director.t * AudioData :=
  let (d', b) := Director.detectBeat now frequencyData d in
  (d',
   {| bassEnergy := bandEnergy sampleRate frequencyData bass;
      midEnergy := bandEnergy sampleRate frequencyData mid;
      trebleEnergy := bandEnergy sampleRate frequencyData presence
                      + bandEnergy sampleRate frequencyData brilliance;
      totalEnergy := Director.calculateTotalEnergy frequencyData;
      complexityScore := calculateAudioComplexity sampleRate frequencyData d';
      spectralCentroid := Director.calculateSpectralCentroid sampleRate frequencyData;
      beat := b;
      rhythmComplexity := Director.analyzeRhythmComplexity d' |}).

End Analysis.

(** ** AudioReactiveParticleSystem: the particle layer's own centroid *)

Module Particles.
Import Spectrum.


(** [calculateSpectralCentroid(frequencyData)]: bin-index-weighted mean of
    the magnitudes, [0] when the magnitudes sum to nothing. *)
Definition calculateSpectralCentroid (frequencyData : list dB) : R :=
  let sums := weighted_sums INR 0 frequencyData (0, 0) in
  let numerator := fst sums in
  let denominator := snd sums in
  if JS.gtb denominator 0 then numerator / denominator else 0.

Record AudioParams : Type := {
  bassEnergy : R;
  midEnergy : R;
  highEnergy : R;
  spectralCentroid : R;
  tempo : R
}.

Definition initialParams : AudioParams :=
  {| bassEnergy := 0; midEnergy := 0; highEnergy := 0; spectralCentroid := 0;
     tempo := 120 |}.


End Particles.

(** ** AudioLatencyCompensation *)

Module Latency.

Definition windowSize : nat := 50.
Definition learningRate : R := 0.1.

Record t : Type := {
  totalLatency : R;
  adaptiveOffset : R;
  enabled : bool;
  recentMeasurements : list R;
  slope : R;
  (** the timers started with [setTimeout]: callback and delay *)
  timers : list (nat * R)
}.

Definition set_offset (offset : R) (l : t) : t :=
  {| totalLatency := totalLatency l; adaptiveOffset := offset;
     enabled := enabled l; recentMeasurements := recentMeasurements l;
     slope := slope l; timers := timers l |}.

(** The constructor's initial values. *)
Definition fresh : t :=
  {| totalLatency := 0; adaptiveOffset := 0; enabled := true;
     recentMeasurements := []; slope := 0; timers := [] |}.

(** [processLatencyMeasurements]. *)
Definition processLatencyMeasurements (inputLatency : R) (measurements : list R)
           (l : t) : t :=
  {| totalLatency :=
       if (0 <? length measurements)%nat
       then JS.sum measurements / INR (length measurements)
       else inputLatency + 20;
     adaptiveOffset := adaptiveOffset l; enabled := enabled l;
     recentMeasurements := recentMeasurements l; slope := slope l;
     timers := timers l |}.

(** [performLatencyCalibration]: the initial compensation offset. *)
Definition performLatencyCalibration (l : t) : t :=
  set_offset (- totalLatency l) l.

(** [updateAdaptiveCompensation].  Both averages divide by
    [min(windowSize, length)], which is at least [10] past the first
    test, so [oldAvg] is a number and the [isNaN] test lets it through. *)
Definition updateAdaptiveCompensation (l : t) : t :=
  let ms := recentMeasurements l in
  if (length ms <? 10)%nat then l
  else
    let divisor := INR (Nat.min windowSize (length ms)) in
    let recentAvg := JS.sum (JS.slice_last windowSize ms) / divisor in
    let oldAvg := JS.sum (JS.slice_neg (windowSize * 2) windowSize ms) / divisor in
    let trend := recentAvg - oldAvg in
    let offset :=
      if JS.gtb (Rabs trend) 5
      then adaptiveOffset l + (- trend * learningRate)
      else adaptiveOffset l in
    {| totalLatency := totalLatency l; adaptiveOffset := offset;
       enabled := enabled l; recentMeasurements := ms;
       slope := trend; timers := timers l |}.

(** [getCompensatedTimestamp]. *)
Definition getCompensatedTimestamp (originalTimestamp : R) (l : t) : R :=
  originalTimestamp + adaptiveOffset l.

(** [recordTimingMeasurement]. *)
Definition recordTimingMeasurement (expectedTime actualTime : R) (l : t) : t :=
  let error := actualTime - expectedTime in
  {| totalLatency := totalLatency l; adaptiveOffset := adaptiveOffset l;
     enabled := enabled l;
     recentMeasurements :=
       JS.push_capped (windowSize * 2) (recentMeasurements l) error;
     slope := slope l; timers := timers l |}.

(** [scheduleCompensatedEvent]: the delay handed to [setTimeout]. *)
Definition compensatedDelay (delay : R) (l : t) : R :=
  Rmax 0 (delay + adaptiveOffset l).

Definition scheduleCompensatedEvent (callback : nat) (delay : R) (l : t) : t :=
  {| totalLatency := totalLatency l; adaptiveOffset := adaptiveOffset l;
     enabled := enabled l; recentMeasurements := recentMeasurements l;
     slope := slope l;
     timers := timers l ++ [(callback, compensatedDelay delay l)] |}.

(** [enableEmergencyMode]. *)
Definition enableEmergencyMode (l : t) : t :=
  {| totalLatency := totalLatency l; adaptiveOffset := -100;
     enabled := false; recentMeasurements := recentMeasurements l;
     slope := slope l; timers := timers l |}.

(** What happens to a compensator: calibration, the one-second adaptation
    timer, the consumers' measurements, scheduling and the emergency
    switch. *)
Inductive Op : Type :=
| Calibrate
| Adapt
| Measure (expectedTime actualTime : R)
| Schedule (callback : nat) (delay : R)
| Emergency.

Definition step (l : t) (op : Op) : t :=
  match op with
  | Calibrate => performLatencyCalibration l
  | Adapt => updateAdaptiveCompensation l
  | Measure e a => recordTimingMeasurement e a l
  | Schedule c d => scheduleCompensatedEvent c d l
  | Emergency => enableEmergencyMode l
  end.

Definition steps (l : t) (ops : list Op) : t := fold_left step ops l.

End Latency.

(** ** AudioDrivenLevelGenerator: the procedural event generator *)

Module LevelGenerator.

Inductive BandName : Type := bass | lowMid | mid | highMid | treble.

Inductive Geometry : Type := hypersphere | tesseract | cell24 | cell600 | cell120.
Inductive Interaction : Type := pulse | tap | hold | swipe | avoid.

Record Range : Type := {
  min : R; max : R; geometry : Geometry; interaction : Interaction
}.

(** [frequencyRanges]. *)
Definition frequencyRanges (b : BandName) : Range :=
  match b with
  | bass => {| min := 0; max := 250; geometry := hypersphere; interaction := pulse |}
  | lowMid => {| min := 250; max := 500; geometry := tesseract; interaction := tap |}
  | mid => {| min := 500; max := 2000; geometry := cell24; interaction := hold |}
  | highMid => {| min := 2000; max := 4000; geometry := cell600; interaction := swipe |}
  | treble => {| min := 4000; max := 8000; geometry := cell120; interaction := avoid |}
  end.

(** [quadrantMapping]. *)
Definition quadrantMapping (b : BandName) : nat :=
  match b with
  | bass => 3 | lowMid => 1 | mid => 2 | highMid => 4 | treble => 0
  end%nat.

(** [baseThresholds] and [getThresholdForBand]. *)
Definition baseThresholds (b : BandName) : R :=
  match b with
  | bass => 0.1 | lowMid => 0.15 | mid => 0.2 | highMid => 0.25 | treble => 0.3
  end.

Definition getThresholdForBand (adaptivesDifficulty : R) (b : BandName) : R :=
  baseThresholds b * adaptivesDifficulty.

(** [subdivisions] and [calculateSpawnDelay]. *)
Definition subdivisions (b : BandName) : R :=
  match b with
  | bass => 1 | lowMid => 0.5 | mid => 0.25 | highMid => 0.75 | treble => 2
  end.

Definition calculateSpawnDelay (b : BandName) (tempo : R) : R :=
  let beatInterval := 60000 / tempo in
  beatInterval * JS.or_default (subdivisions b) 1.

(** [calculateRecentPerformance] over the last resolved hits. *)
Definition calculateRecentPerformance (recentHits : list bool) : R :=
  match recentHits with
  | [] => 0.5
  | _ => INR (length (filter (fun success => success) recentHits))
         / INR (length recentHits)
  end.

(** The first half of [scaleDifficultyBasedOnPerformance]: the adaptive
    difficulty multiplier after one call. *)
Definition adaptDifficulty (recentPerformance adaptivesDifficulty : R) : R :=
  if JS.gtb recentPerformance 0.8 then Rmin 3.0 (adaptivesDifficulty * 1.05)
  else if JS.ltb recentPerformance 0.5 then Rmax 0.5 (adaptivesDifficulty * 0.95)
  else adaptivesDifficulty.

Record BandData : Type := { energy : R; peak : R; dominance : R }.

Record AudioSource : Type := {
  band : BandName; frequency : R; sourceDominance : R
}.

(** A [geometry_spawn] event (its [visualParams] are left out). *)
Record SpawnEvent : Type := {
  eventGeometry : Geometry;
  eventInteraction : Interaction;
  quadrant : nat;
  eventEnergy : R;
  eventPeak : R;
  spawnTime : R;
  difficulty : R;
  audioSource : AudioSource;
  telegraphDuration : R
}.

(** [config.telegraphDuration] of the visual telegraph system: 3 seconds
    of warning. *)
Definition minTelegraphDuration : R := 3000.

Section Generator.

(** [calculateEventDifficulty(bandData, adaptivesDifficulty)] is called
    by [createEventFromBand] and defined nowhere; it is left open. *)
Variable calculateEventDifficulty : BandData -> R -> R.

(** The difficulty-dependent lead time before the floor is applied; the
    design document does not fix it. *)
Variable telegraphLeadTime : R -> R.

(** Modelled from the spec: [calculateTelegraphDuration(difficulty)] is
    missing (it is called by [createEventFromBand] and defined nowhere
    in the repository).  The design document requires the telegraph
    duration to be at least the minimum of 3000 ms whatever the
    difficulty, so the lead time is floored at that minimum. *)
Definition calculateTelegraphDuration (eventDifficulty : R) : R :=
  Rmax minTelegraphDuration (telegraphLeadTime eventDifficulty).

(** [createEventFromBand]; [now] is its [Date.now()]. *)
Definition createEventFromBand (now tempo adaptivesDifficulty : R)
           (b : BandName) (bandData : BandData) : SpawnEvent :=
  let range := frequencyRanges b in
  let spawnDelay := calculateSpawnDelay b tempo in
  let eventDifficulty := calculateEventDifficulty bandData adaptivesDifficulty in
  {| eventGeometry := geometry range;
     eventInteraction := interaction range;
     quadrant := quadrantMapping b;
     eventEnergy := energy bandData;
     eventPeak := peak bandData;
     spawnTime := now + spawnDelay;
     difficulty := eventDifficulty;
     audioSource := {| band := b;
                       frequency := (min range + max range) / 2;
                       sourceDominance := dominance bandData |};
     telegraphDuration := calculateTelegraphDuration eventDifficulty |}.

(** The per-band loop of [generateEventsFromAudio]. *)
Definition bandEvents (now tempo adaptivesDifficulty : R)
           (frequencies : list (BandName * BandData)) : list SpawnEvent :=
  map (fun f => createEventFromBand now tempo adaptivesDifficulty (fst f) (snd f))
      (filter (fun f => JS.gtb (energy (snd f))
                               (getThresholdForBand adaptivesDifficulty (fst f)))
              frequencies).

(** The second half of [scaleDifficultyBasedOnPerformance]:
    [if (event.difficulty) event.difficulty *= adaptivesDifficulty]. *)
Definition scaleEvent (adaptivesDifficulty : R) (e : SpawnEvent) : SpawnEvent :=
  {| eventGeometry := eventGeometry e;
     eventInteraction := eventInteraction e;
     quadrant := quadrant e;
     eventEnergy := eventEnergy e;
     eventPeak := eventPeak e;
     spawnTime := spawnTime e;
     difficulty :=
       if JS.strict_neq (difficulty e) 0
       then difficulty e * adaptivesDifficulty else difficulty e;
     audioSource := audioSource e;
     telegraphDuration := telegraphDuration e |}.

(** An onset of [analysis.rhythm.onsets]. *)
Record Onset : Type := { onsetTime : R; onsetStrength : R }.

(** [analysis.dynamics.trend]. *)
Inductive Trend : Type := stableTrend | buildingTrend | droppingTrend.

(** The parts of [analysis] that [generateEventsFromAudio] reads:
    [frequencies], [rhythm.tempo], [rhythm.onsets], [dynamics.trend] and
    [dynamics.currentLevel]. *)
Record FrameAnalysis : Type := {
  analysisFrequencies : list (BandName * BandData);
  rhythmTempo : R;
  rhythmOnsets : list Onset;
  dynamicsTrend : Trend;
  dynamicsCurrentLevel : R
}.

(** What [generateEventsFromAudio] pushes into its [events] array: the
    [geometry_spawn] events of the band loop and the three kinds of
    special event.  A [beat_event] carries its strength, quadrant and
    spawn time; the other two have the quadrant ['all'] and carry their
    spawn time (the constant [effect] strings are left out). *)
Inductive Event : Type :=
| geometry_spawn (e : SpawnEvent)
| beat_event (eventStrength : R) (beatQuadrant : nat) (beatSpawnTime : R)
| intensity_buildup (buildupSpawnTime : R)
| silence_event (silenceSpawnTime : R).


(** [event.telegraphDuration]; [None] is [undefined]: only
    [createEventFromBand] sets the property. *)
Definition eventTelegraphDuration (ev : Event) : option R :=
  match ev with
  | geometry_spawn e => Some (telegraphDuration e)
  | _ => None
  end.

(** [selectQuadrantForBeat(analysis)] is called by
    [generateSpecialEvents] and defined nowhere; it is left open. *)
Variable selectQuadrantForBeat : FrameAnalysis -> nat.

(** [generateSpecialEvents]; [nowBuildup] and [nowSilence] are the
    [Date.now()] of the second and of the third branch. *)
Definition generateSpecialEvents (nowBuildup nowSilence : R)
           (analysis : FrameAnalysis) : list Event :=
  map (fun onset => beat_event (onsetStrength onset)
                               (selectQuadrantForBeat analysis)
                               (onsetTime onset))
      (filter (fun onset => JS.gtb (onsetStrength onset) 0.8)
              (rhythmOnsets analysis))
  ++ (match dynamicsTrend analysis with
      | buildingTrend =>
          if JS.gtb (dynamicsCurrentLevel analysis) 0.7
          then [intensity_buildup (nowBuildup + 1000)] else []
      | _ => []
      end)
  ++ (if JS.ltb (dynamicsCurrentLevel analysis) 0.1
      then [silence_event (nowSilence + 500)] else []).

(** The second half of [scaleDifficultyBasedOnPerformance] on any event:
    a special event has no [difficulty], so [if (event.difficulty)] skips
    it. *)
Definition scaleDifficulty (adaptivesDifficulty : R) (ev : Event) : Event :=
  match ev with
  | geometry_spawn e => geometry_spawn (scaleEvent adaptivesDifficulty e)
  | _ => ev
  end.

(** The events one call of [generateEventsFromAudio] hands to
    [queueEvents], band events first, and the multiplier it leaves
    behind; [now] is the [Date.now()] of the band loop. *)
Definition generateEventsFromAudio (now nowBuildup nowSilence : R)
           (recentHits : list bool) (adaptivesDifficulty : R)
           (analysis : FrameAnalysis) : R * list Event :=
  let events :=
    map geometry_spawn
        (bandEvents now (rhythmTempo analysis) adaptivesDifficulty
                    (analysisFrequencies analysis))
    ++ generateSpecialEvents nowBuildup nowSilence analysis in
  let adapted :=
    adaptDifficulty (calculateRecentPerformance recentHits) adaptivesDifficulty in
  (adapted, map (scaleDifficulty adapted) events).

End Generator.

End LevelGenerator.

(** ** CorrectedVIB34DIntegration: coherence state and parameter adapter *)

Module Integration.
Import Analysis.

Record EnergyLevels : Type := { bass : R; mid : R; treble : R; total : R }.

Record CoherenceState : Type := {
  beatPhase : R;
  harmonicPhases : R * R * R;
  energyLevels : EnergyLevels;
  spectralCentroid : R;
  tempo : R
}.

(** The constructor's [coherenceState]. *)
Definition initialCoherence : CoherenceState :=
  {| beatPhase := 0;
     harmonicPhases := (0, 0, 0);
     energyLevels := {| bass := 0; mid := 0; treble := 0; total := 0 |};
     spectralCentroid := 440;
     tempo := 120 |}.

(** [updateCoherenceState(audioData)] with the [getBeatInfo()] it reads;
    every field is overwritten. *)
Definition updateCoherenceState (audioData : AudioData) (beatInfo : Director.BeatInfo)
  : CoherenceState :=
  let phase :=
    Director.infoTimeSinceLastBeat beatInfo / (60000 / Director.bpm beatInfo)
    * PI * 2 in
  {| beatPhase := phase;
     harmonicPhases := (phase * 2, phase * 1.5, phase * 1.25);
     energyLevels :=
       {| bass := JS.or_default (bassEnergy audioData) 0;
          mid := JS.or_default (midEnergy audioData) 0;
          treble := JS.or_default (trebleEnergy audioData) 0;
          total := JS.or_default (totalEnergy audioData) 0 |};
     spectralCentroid := JS.or_default (Analysis.spectralCentroid audioData) 440;
     tempo := JS.or_default (Director.bpm beatInfo) 120 |}.

(** The keys of [parameterNames], in the order [calculateCoherentParameters]
    lists them. *)
Inductive Param : Type :=
| rot4dXW | rot4dYW | rot4dZW | gridDensity | morphFactor | chaos | speed
| hue | intensity | saturation | geometry.

Definition Param_eq_dec (p q : Param) : {p = q} + {p <> q}.
Proof. decide equality. Defined.

(** [currentParams]: the value last forwarded for every parameter. *)
Definition Params : Type := Param -> R.

Definition initialParams : Params :=
  fun p =>
    match p with
    | rot4dXW | rot4dYW | rot4dZW => 0
    | gridDensity => 50
    | morphFactor | chaos => 0.5
    | speed => 1.0
    | hue | intensity | saturation => 0.5
    | geometry => 0
    end.

Definition set (p : Param) (v : R) (cur : Params) : Params :=
  fun q => if Param_eq_dec q p then v else cur q.

(** [calculateCoherentParameters(audioData)], as [Object.entries] lists
    the result. *)
Definition calculateCoherentParameters (c : CoherenceState) (audioData : AudioData)
  : list (Param * R) :=
  let e := energyLevels c in
  [ (rot4dXW, sin (beatPhase c) * bass e * 2);
    (rot4dYW, cos (beatPhase c * 1.5) * mid e * 2);
    (rot4dZW, sin (beatPhase c * 0.7) * treble e * 2);
    (gridDensity, Rmax 5 (Rmin 100 (30 + total e * 50)));
    (morphFactor, 0.3 + sin (fst (fst (harmonicPhases c))) * 0.4);
    (chaos, Rmin 1.0 (JS.or_default (complexityScore audioData) 0.5));
    (speed, Rmax 0.1 (Rmin 3.0 (tempo c / 120)));
    (hue, JS.rem (JS.log2 (spectralCentroid c / 440) * 0.1 + 0.5) 1);
    (intensity, 0.4 + total e * 0.6);
    (saturation, 0.6 + total e * 0.4);
    (geometry, JS.floor (Rmin 8 (JS.or_default (complexityScore audioData) 0.5 * 8))) ].

(** The documented range of every parameter ([parameterNames] and the
    external contract of the visualizer). *)
Definition inRange (p : Param) (v : R) : Prop :=
  match p with
  | rot4dXW | rot4dYW | rot4dZW => -6.28 <= v <= 6.28
  | gridDensity => 5 <= v <= 100
  | morphFactor | chaos | hue | intensity | saturation => 0 <= v <= 1
  | speed => 0 <= v <= 3
  | geometry => 0 <= v <= 8 /\ exists k : Z, v = IZR k
  end.

(** One call of [window.updateParameter(param, value)]. *)
Definition SinkCall : Type := (Param * R)%type.

(** One iteration of the [forEach] of [updateVIB34DParameters]: forward
    and remember the value when it is not strictly equal to the one
    remembered. *)
Definition forwardOne (st : Params * list SinkCall) (entry : Param * R)
  : Params * list SinkCall :=
  let (cur, calls) := st in
  let (param, value) := entry in
  if JS.strict_neq (cur param) value
  then (set param value cur, calls ++ [(param, value)])
  else (cur, calls).

(** [updateVIB34DParameters(newParams)]: the new [currentParams] and the
    sink calls made, in order. *)
Definition updateVIB34DParameters (cur : Params) (newParams : list (Param * R))
  : Params * list SinkCall :=
  fold_left forwardOne newParams (cur, []).

(** [glitchIntensity] of [calculateVisualFeedbackEffects]; [random] is the
    value [Math.random()] returns when the branch asks for it. *)
Definition glitchIntensity (c : CoherenceState) (random : R) : R :=
  Rmin 1.0 (if JS.gtb (total (energyLevels c)) 0.8
            then total (energyLevels c) * random * 0.5 else 0).

(** The keys of [visualFeedbackParams]. *)
Inductive FeedbackParam : Type :=
| lineThickness | strokeIntensity | wireframeMode | moireFrequency
| glitchIntensityParam | offsetShift | glassOpacity | blurRadius
| refractionIndex | densityMultiplier | pulseAmplitude | breathingRate
| parallaxDepth | layerSeparation | depthBias.

(** [calculateVisualFeedbackEffects(audioData)]. *)
Definition calculateVisualFeedbackEffects (c : CoherenceState) (audioData : AudioData)
           (random : R) : list (FeedbackParam * R) :=
  let e := energyLevels c in
  let complexity := JS.or_default (complexityScore audioData) 0 in
  [ (lineThickness, 0.5 + bass e * 2.5 + total e * 2.0);
    (strokeIntensity, 0.3 + mid e * 0.7);
    (wireframeMode, if JS.gtb complexity 0.7 then 1 else 0);
    (moireFrequency,
      Rmax 0 (Rmin 100 (spectralCentroid c / 100 + sin (beatPhase c * 4) * 20)));
    (glitchIntensityParam, glitchIntensity c random);
    (offsetShift, sin (snd (fst (harmonicPhases c))) * 0.3);
    (glassOpacity, Rmax 0.2 (Rmin 1.0 (1.0 - total e * 0.6)));
    (blurRadius, treble e * 15);
    (refractionIndex, 1.0 + sin (beatPhase c) * 0.2);
    (densityMultiplier, 1.0 + sin (beatPhase c) * 0.5 + total e * 1.5);
    (pulseAmplitude, total e * 1.5);
    (breathingRate, Rmax 0.5 (Rmin 5.0 (tempo c / 30)));
    (parallaxDepth, bass e * 8);
    (layerSeparation, mid e * 3 + complexity * 2);
    (depthBias, sin (snd (harmonicPhases c)) * 0.8) ].

End Integration.

(** ** The integration loop: director, coherence state, parameter sink *)

Module Pipeline.
Import Spectrum.

(** What one [updateCycle] reads from outside the frame: the clock inside
    [detectBeat], the clock inside [getBeatInfo], and the random number of
    the glitch effect. *)
Record Environment : Type := {
  clockDetectBeat : R;
  clockBeatInfo : R;
  random : R
}.

Definition clocks (env : Environment) : R * R :=
  (clockDetectBeat env, clockBeatInfo env).

Record t : Type := {
  director : Director.t;
  coherenceState : Integration.CoherenceState;
  currentParams : Integration.Params;
  sinkCalls : list Integration.SinkCall;
  visualFeedback : list (Integration.FeedbackParam * R)
}.

(** A fresh director and a fresh integration layer. *)
Definition fresh : t :=
  {| director := Director.fresh;
     coherenceState := Integration.initialCoherence;
     currentParams := Integration.initialParams;
     sinkCalls := [];
     visualFeedback := [] |}.

(** One [updateCycle] on one frame: [getCurrentAnalysis],
    [updateCoherenceState], [calculateCoherentParameters],
    [calculateVisualFeedbackEffects], [updateVIB34DParameters].  The
    holographic layers and particles drawn afterwards read the coherence
    state and never write it. *)
Definition updateCycle (sampleRate : R) (p : t) (input : Environment * list dB) : t :=
  let (env, frequencyData) := input in
  let (d, audioData) :=
    Analysis.getCurrentAnalysis sampleRate (clockDetectBeat env) frequencyData
                                (director p) in
  let beatInfo := Director.getBeatInfo (clockBeatInfo env) d in
  let c := Integration.updateCoherenceState audioData beatInfo in
  let newParams := Integration.calculateCoherentParameters c audioData in
  let feedback := Integration.calculateVisualFeedbackEffects c audioData (random env) in
  let (cur, calls) := Integration.updateVIB34DParameters (currentParams p) newParams in
  {| director := d;
     coherenceState := c;
     currentParams := cur;
     sinkCalls := sinkCalls p ++ calls;
     visualFeedback := feedback |}.

(** The coherence states a run leaves after each frame. *)
Fixpoint coherenceTrace (sampleRate : R) (p : t) (inputs : list (Environment * list dB))
  : list Integration.CoherenceState :=
  match inputs with
  | [] => []
  | input :: rest =>
      let p' := updateCycle sampleRate p input in
      coherenceState p' :: coherenceTrace sampleRate p' rest
  end.

(** Replaying recorded frames against an environment stream
    ([combine] pairs them up). *)
Definition replay (sampleRate : R) (envs : list Environment) (frames : list (list dB))
  : list Integration.CoherenceState :=
  coherenceTrace sampleRate fresh (combine envs frames).

End Pipeline.

(** ** Further comparisons on numbers *)

Module Num.

(** [a <= b] and [a >= b] as booleans. *)
Definition leb (a b : R) : bool := if Rle_dec a b then true else false.
Definition geb (a b : R) : bool := if Rle_dec b a then true else false.

End Num.

(** ** UnifiedAudioGameDirector: pitch detection by autocorrelation *)

Module Pitch.

(** The inner loop of [autocorrelate]:
    [correlation += buffer[i] * buffer[i + offset]] for
    [0 <= i < buffer.length - offset]. *)
Definition correlation (buffer : list R) (offset : nat) : R :=
  fold_left (fun acc i => acc + nth i buffer 0 * nth (i + offset) buffer 0)
            (seq 0 (length buffer - offset)) 0.

(** One turn of the outer loop on [(bestOffset, bestCorrelation)]. *)
Definition consider (buffer : list R) (best : nat * R) (offset : nat) : nat * R :=
  if JS.gtb (correlation buffer offset) (snd best)
  then (offset, correlation buffer offset)
  else best.

(** The offsets the outer loop visits: [0 <= offset < buffer.length / 2]. *)
Definition offsets (buffer : list R) : list nat :=
  seq 0 (Nat.div2 (S (length buffer))).

(** [autocorrelate(buffer)]. *)
Definition autocorrelate (buffer : list R) : nat :=
  fst (fold_left (consider buffer) (offsets buffer) (0%nat, 0)).

End Pitch.

(** ** UnifiedAudioGameDirector: score, combo and roguelike progression *)

Module GameState.

(** [hitType]: ['perfect'], ['good'], or anything else. *)
Inductive HitType : Type := perfect | good | otherHit.

Record Performance : Type := { hitTime : R; hitType : HitType; comboAfter : nat }.

(** The fields of [gameState] and [runState] the scoring functions touch. *)
Record t : Type := {
  score : R;
  combo : nat;
  maxCombo : nat;
  health : R;
  currentRun : nat;
  runStartTime : R;
  eventsSpawned : nat;
  eventsCompleted : nat;
  perfectHits : nat;
  goodHits : nat;
  misses : nat;
  recentPerformance : list Performance;
  totalTime : R;
  audioComplexity : R;
  performanceMultiplier : R;
  unlockLevel : R
}.

(** The constructor and [initializeGameState]; [now] is its [Date.now()]. *)
Definition initial (now : R) : t :=
  {| score := 0; combo := 0; maxCombo := 0; health := 100; currentRun := 0;
     runStartTime := now; eventsSpawned := 0; eventsCompleted := 0;
     perfectHits := 0; goodHits := 0; misses := 0; recentPerformance := [];
     totalTime := 0; audioComplexity := 1.0; performanceMultiplier := 1.0;
     unlockLevel := 1 |}.

(** [updateScore(points, hitType)]. *)
Definition updateScore (now points : R) (h : HitType) (g : t) : t :=
  let combo' := match h with perfect | good => S (combo g) | otherHit => 0%nat end in
  {| score := score g + points;
     combo := combo';
     maxCombo := Nat.max (maxCombo g) combo';
     health := health g;
     currentRun := currentRun g;
     runStartTime := runStartTime g;
     eventsSpawned := eventsSpawned g;
     eventsCompleted := S (eventsCompleted g);
     perfectHits := match h with perfect => S (perfectHits g) | _ => perfectHits g end;
     goodHits := match h with good => S (goodHits g) | _ => goodHits g end;
     misses := match h with otherHit => S (misses g) | _ => misses g end;
     recentPerformance :=
       JS.push_capped 50 (recentPerformance g)
                      {| hitTime := now; hitType := h; comboAfter := combo' |};
     totalTime := totalTime g;
     audioComplexity := audioComplexity g;
     performanceMultiplier := performanceMultiplier g;
     unlockLevel := unlockLevel g |}.

(** The hit rate [updateRoguelikeProgression] computes. *)
Definition hitRate (g : t) : R :=
  if (0 <? eventsCompleted g)%nat
  then INR (perfectHits g + goodHits g) / INR (eventsCompleted g)
  else 0.

(** [updateRoguelikeProgression(audioAnalysis)]. *)
Definition updateRoguelikeProgression (now complexityScore : R) (g : t) : t :=
  let total := now - runStartTime g in
  {| score := score g; combo := combo g; maxCombo := maxCombo g;
     health := health g; currentRun := currentRun g;
     runStartTime := runStartTime g; eventsSpawned := eventsSpawned g;
     eventsCompleted := eventsCompleted g; perfectHits := perfectHits g;
     goodHits := goodHits g; misses := misses g;
     recentPerformance := recentPerformance g;
     totalTime := total;
     audioComplexity := complexityScore;
     performanceMultiplier := 0.5 + hitRate g * 1.5;
     unlockLevel :=
       if JS.gtb (hitRate g) 0.8 && (20 <? maxCombo g)%nat
       then Rmax (unlockLevel g) (JS.floor (total / 60000) + 1)
       else unlockLevel g |}.

(** [startNewRun]: the counters of the run are cleared, [maxCombo] is
    not. *)
Definition startNewRun (now : R) (g : t) : t :=
  {| score := 0; combo := 0; maxCombo := maxCombo g; health := 100;
     currentRun := S (currentRun g); runStartTime := now;
     eventsSpawned := 0; eventsCompleted := 0; perfectHits := 0;
     goodHits := 0; misses := 0; recentPerformance := [];
     totalTime := totalTime g; audioComplexity := audioComplexity g;
     performanceMultiplier := performanceMultiplier g;
     unlockLevel := unlockLevel g |}.

(** What happens to the game state, each with the clock value it reads. *)
Inductive Op : Type :=
| Hit (now points : R) (h : HitType)
| Progress (now complexityScore : R)
| NewRun (now : R).

Definition step (g : t) (op : Op) : t :=
  match op with
  | Hit now points h => updateScore now points h g
  | Progress now c => updateRoguelikeProgression now c g
  | NewRun now => startNewRun now g
  end.

Definition run (g : t) (ops : list Op) : t := fold_left step ops g.

End GameState.

(** ** UnifiedAudioGameDirector: the hue of the dominant band *)

Module Hue.

Inductive BandName : Type :=
| subBass | bass | lowMid | mid | highMid | presence | brilliance.

Definition hueMap (b : BandName) : R :=
  match b with
  | subBass => 0 | bass => 30 | lowMid => 60 | mid => 120
  | highMid => 180 | presence => 240 | brilliance => 300
  end.

(** The loop of [mapFrequencyToHue] on [(maxEnergy, dominantBand)]. *)
Definition dominant (frequencyBands : list (BandName * R)) : R * BandName :=
  fold_left (fun best entry =>
               if JS.gtb (snd entry) (fst best) then (snd entry, fst entry) else best)
            frequencyBands (0, mid).

(** [mapFrequencyToHue(frequencyBands)]. *)
Definition mapFrequencyToHue (frequencyBands : list (BandName * R)) : R :=
  JS.or_default (hueMap (snd (dominant frequencyBands))) 120.

End Hue.

(** ** AudioLatencyCompensation: synchronisation and quality monitoring *)

Module LatencyMonitor.
Import Latency.

(** [synchronizeAudioToVisual(audioEvent, visualCallback)]; [now] is its
    [performance.now()]. *)
Definition synchronizeAudioToVisual (timestamp now : R) (visualCallback : nat)
           (l : t) : t :=
  let compensatedTime := getCompensatedTimestamp timestamp l in
  let visualDelay := Rmax 0 (compensatedTime - now) in
  scheduleCompensatedEvent visualCallback visualDelay l.

(** [calculateTimingStability]. *)
Definition calculateTimingStability (l : t) : R :=
  if (length (recentMeasurements l) <? 10)%nat then 0
  else
    let measurements := JS.slice_last 20 (recentMeasurements l) in
    let mean := JS.sum measurements / INR (length measurements) in
    let variance :=
      fold_left (fun sum m => sum + (m - mean) ^ 2) measurements 0
      / INR (length measurements) in
    let standardDeviation := sqrt variance in
    Rmax 0 (1 - standardDeviation / 50).

End LatencyMonitor.

(** ** AudioDrivenLevelGenerator: the spawn queue and the band dominance *)

Module EventQueue.

(** [calculateBandDominance(bandName, energy)]: the reduction over the
    five frequency ranges adds the band's own energy once per range. *)
Definition calculateBandDominance (b : LevelGenerator.BandName) (energy : R) : R :=
  let totalEnergy :=
    fold_left (fun sum (range : LevelGenerator.BandName) => sum + energy)
              [LevelGenerator.bass; LevelGenerator.lowMid; LevelGenerator.mid;
               LevelGenerator.highMid; LevelGenerator.treble] 0 in
  energy / JS.or_default totalEnergy 1.

(** The multiplier after a series of calls of
    [scaleDifficultyBasedOnPerformance], one recent-hit list per call. *)
Definition adaptOver (hitLists : list (list bool)) (adaptivesDifficulty : R) : R :=
  fold_left (fun d hits =>
               LevelGenerator.adaptDifficulty
                 (LevelGenerator.calculateRecentPerformance hits) d)
            hitLists adaptivesDifficulty.

Section Queue.

(** The queue holds events of several shapes; all carry a [spawnTime]. *)
Variable Event : Type.
Variable spawnTime : Event -> R.

(** [segmentQueue.sort((a, b) => a.spawnTime - b.spawnTime)]: the sort is
    stable; taking the events from the last to the first, each goes in
    front of the first placed event that does not spawn earlier. *)
Fixpoint place (e : Event) (sorted : list Event) : list Event :=
  match sorted with
  | [] => [e]
  | x :: rest =>
      if Num.leb (spawnTime e) (spawnTime x) then e :: sorted
      else x :: place e rest
  end.

Definition sortBySpawnTime (queue : list Event) : list Event :=
  fold_right place [] queue.

(** [queueEvents(events)]. *)
Definition queueEvents (events segmentQueue : list Event) : list Event :=
  sortBySpawnTime (segmentQueue ++ events).

(** [getNextEvent]; [now] is its [Date.now()]. *)
Definition getNextEvent (now : R) (segmentQueue : list Event)
  : option Event * list Event :=
  match segmentQueue with
  | e :: rest =>
      if Num.leb (spawnTime e) now then (Some e, rest) else (None, segmentQueue)
  | [] => (None, [])
  end.

(** What happens to the queue: a batch of events is queued, or the game
    asks for the next event at some time. *)
Inductive Op : Type :=
| Queue (events : list Event)
| Next (now : R).

Definition step (st : list Event * list (R * Event)) (op : Op)
  : list Event * list (R * Event) :=
  match op with
  | Queue events => (queueEvents events (fst st), snd st)
  | Next now =>
      match getNextEvent now (fst st) with
      | (Some e, rest) => (rest, snd st ++ [(now, e)])
      | (None, rest) => (rest, snd st)
      end
  end.

(** A run from the empty queue: the queue left and the events handed
    out, each with the time it was handed out at. *)
Definition run (ops : list Op) : list Event * list (R * Event) :=
  fold_left step ops ([], []).

End Queue.

End EventQueue.

(** ** CorrectedVIB34DIntegration: rhythmic patterns, level scaling, reset *)

Module Adapter.
Import Integration.

Definition simple : list R := [1; 0; 0.6; 0].
Definition moderate : list R := [1; 0.3; 0.7; 0.2; 0.5; 0; 0.8; 0.1].
Definition complex : list R :=
  [1; 0.4; 0.7; 0.2; 0.9; 0.1; 0.5; 0.3; 0.6; 0.8; 0.2; 0.4; 0.9; 0.3; 0.6; 0.1].
Definition syncopated : list R :=
  [0.8; 0; 0.2; 0.9; 0; 0.6; 0.3; 0; 0.7; 0.4; 0; 0.5; 0.8; 0; 0.3; 0.6].

(** [generateRhythmicPattern(complexity)]. *)
Definition generateRhythmicPattern (complexity : R) : list R :=
  if JS.ltb complexity 0.25 then simple
  else if JS.ltb complexity 0.5 then moderate
  else if JS.ltb complexity 0.75 then complex
  else syncopated.

(** [pattern[beatIndex % pattern.length]] for a pattern that is not
    empty. *)
Definition patternAt (pattern : list R) (beatIndex : nat) : R :=
  nth (beatIndex mod length pattern) pattern 0.

(** [applyRhythmicPatternToVIB34D(pattern, beatIndex)]: the sink calls it
    makes and the intensity it returns.  [currentParams] is not written. *)
Definition applyRhythmicPatternToVIB34D (pattern : list R) (beatIndex : nat)
  : list SinkCall * R :=
  let i := patternAt pattern beatIndex in
  ([ (chaos, i * 0.5); (morphFactor, 0.3 + i * 0.4); (intensity, 0.5 + i * 0.3) ], i).

(** [scaleParametersForLevel(level, performance)]: the sink calls it
    makes.  [currentParams] is not written. *)
Definition scaleParametersForLevel (level performance : R) : list SinkCall :=
  let complexity := Rmin 2.0 (1 + level * 0.1) in
  let performanceBonus := if JS.gtb performance 0.8 then 0.3 else 0 in
  [ (geometry, Rmin 8 (JS.floor (level / 3)));
    (gridDensity, Rmin 100 (20 + complexity * 40));
    (chaos, Rmin 0.8 ((level - 1) * 0.02));
    (speed, Rmin 3.0 (0.8 + complexity * 0.4));
    (intensity, Rmin 1.0 (0.4 + complexity * 0.3 + performanceBonus)) ].

(** The [defaults] of [resetToDefaults]. *)
Definition defaults : list (Param * R) :=
  [ (rot4dXW, 0); (rot4dYW, 0); (rot4dZW, 0); (gridDensity, 50);
    (morphFactor, 0.5); (chaos, 0.5); (speed, 1.0); (hue, 0.5);
    (intensity, 0.5); (saturation, 0.5); (geometry, 0) ].

(** One iteration of the [forEach] of [resetToDefaults]: the default is
    forwarded and remembered, changed or not. *)
Definition forwardAlways (st : Params * list SinkCall) (entry : Param * R)
  : Params * list SinkCall :=
  (set (fst entry) (snd entry) (fst st), snd st ++ [entry]).

(** [resetToDefaults]. *)
Definition resetToDefaults (cur : Params) : Params * list SinkCall :=
  fold_left forwardAlways defaults (cur, []).

(** The adapter with the calls the sink has received from it. *)
Definition State : Type := (Params * list SinkCall)%type.

Definition start : State := (initialParams, []).

Inductive Op : Type :=
| Update (newParams : list (Param * R))
| Reset
| Rhythm (complexity : R) (beatIndex : nat)
| Level (level performance : R).

Definition step (st : State) (op : Op) : State :=
  let (cur, calls) := st in
  match op with
  | Update newParams =>
      let (cur', made) := updateVIB34DParameters cur newParams in
      (cur', calls ++ made)
  | Reset =>
      let (cur', made) := resetToDefaults cur in
      (cur', calls ++ made)
  | Rhythm complexity beatIndex =>
      (cur, calls ++ fst (applyRhythmicPatternToVIB34D
                            (generateRhythmicPattern complexity) beatIndex))
  | Level level performance =>
      (cur, calls ++ scaleParametersForLevel level performance)
  end.

Definition run (st : State) (ops : list Op) : State := fold_left step ops st.

(** The operations that go through the change detection. *)
Definition tracked (op : Op) : bool :=
  match op with
  | Update _ | Reset => true
  | Rhythm _ _ | Level _ _ => false
  end.

End Adapter.

(** ** AudioReactiveParticleSystem: the particle pool *)

Module ParticlePool.

(** A pool: the [active] flag of every pre-allocated particle, in the
    order of the [pool] array. *)
Record t : Type := {
  maxSize : nat;
  pool : list bool;
  activeCount : Z
}.

(** [new ParticlePool(maxSize, type)]. *)
Definition create (size : nat) : t :=
  {| maxSize := size; pool := repeat false size; activeCount := 0 |}.

(** The first particle of the array that is not active. *)
Fixpoint firstInactive (flags : list bool) : option nat :=
  match flags with
  | [] => None
  | false :: _ => Some 0%nat
  | true :: rest => option_map S (firstInactive rest)
  end.

Fixpoint setFlag (i : nat) (v : bool) (flags : list bool) {struct flags} : list bool :=
  match flags, i with
  | [], _ => []
  | _ :: rest, O => v :: rest
  | f :: rest, S j => f :: setFlag j v rest
  end.

(** [acquire()]: the index of the particle handed out, if any. *)
Definition acquire (p : t) : option nat * t :=
  if (activeCount p <? Z.of_nat (maxSize p))%Z then
    match firstInactive (pool p) with
    | Some i =>
        (Some i,
         {| maxSize := maxSize p; pool := setFlag i true (pool p);
            activeCount := (activeCount p + 1)%Z |})
    | None => (None, p)
    end
  else (None, p).

(** [release(particle)] for the particle at index [i] of the array. *)
Definition release (i : nat) (p : t) : t :=
  match nth_error (pool p) i with
  | Some true =>
      {| maxSize := maxSize p; pool := setFlag i false (pool p);
         activeCount := (activeCount p - 1)%Z |}
  | _ => p
  end.

(** The pool's part of [setPerformanceLevel] below 0.5:
    [maxSize = Math.floor(maxSize * 0.5)]. *)
Definition halve (p : t) : t :=
  {| maxSize := Nat.div2 (maxSize p); pool := pool p; activeCount := activeCount p |}.

Inductive Op : Type :=
| Acquire
| Release (i : nat)
| Halve.

Definition step (p : t) (op : Op) : t :=
  match op with
  | Acquire => snd (acquire p)
  | Release i => release i p
  | Halve => halve p
  end.

Definition run (p : t) (ops : list Op) : t := fold_left step ops p.

(** The number of particles whose flag is set. *)
Definition activeParticles (p : t) : nat := count_occ bool_dec (pool p) true.

End ParticlePool.

(** ** AudioReactiveParticleSystem: the telegraph state of a quadrant *)

Module QuadrantTelegraph.

Record State : Type := { active : bool; intensity : R; timeRemaining : R }.

(** [activateTelegraph(quadrant, duration, intensity)]. *)
Definition activateTelegraph (duration startIntensity : R) : State :=
  {| active := true; intensity := startIntensity; timeRemaining := duration |}.

(** The body of the loop of [updateTelegraphStates] for one quadrant; the
    second component is the intensity [spawnDangerParticles] is called
    with when the telegraph completes. *)
Definition updateTelegraphState (frameInterval : R) (s : State) : State * option R :=
  if active s then
    let remaining := timeRemaining s - frameInterval in
    if Num.leb remaining 0 then
      ({| active := false; intensity := intensity s; timeRemaining := remaining |},
       Some (intensity s))
    else
      let progress := 1 - remaining / 3000 in
      ({| active := true; intensity := Rmin 1.0 (progress * 2);
          timeRemaining := remaining |},
       None)
  else (s, None).

(** [frames] updates in a row: the state left and the danger bursts
    spawned on the way. *)
Fixpoint updates (frameInterval : R) (frames : nat) (s : State) : State * list R :=
  match frames with
  | O => (s, [])
  | S n =>
      let (s1, bursts) := updates frameInterval n s in
      let (s2, burst) := updateTelegraphState frameInterval s1 in
      (s2, bursts ++ match burst with Some i => [i] | None => [] end)
  end.

End QuadrantTelegraph.

(** ** VisualTelegraphSystem *)

Module VisualTelegraph.

Inductive Urgency : Type := normal | high | critical.

(** [telegraph.type]: the keys of the colour palette an API function or
    an interaction type can name, or any other string. *)
Inductive Kind : Type := danger | interact | avoid | timing | otherKind.

(** A colour: an entry of [config.colorPalette], ['#ffffff'], or the
    [undefined] a missing palette entry reads. *)
Inductive Color : Type := palette (k : Kind) | white | undefinedColor.

Record Telegraph : Type := {
  kind : Kind;
  baseSize : R;
  size : R;
  duration : R;
  timeRemaining : R;
  endTime : R;
  progress : R;
  intensity : R;
  urgency : Urgency;
  color : Color
}.

Definition urgencyThreshold : R := 1000.

(** [calculateIntensity(progress, urgency)]; [clock] is the [Date.now()]
    of the flash term. *)
Definition calculateIntensity (clock progress : R) (u : Urgency) : R :=
  let baseIntensity := 0.3 + progress * 0.7 in
  match u with
  | critical => Rmin 1.0 (baseIntensity * 1.5 + sin (clock * 0.02) * 0.3)
  | high => Rmin 1.0 (baseIntensity * 1.2)
  | normal => baseIntensity
  end.

(** [interpolateColor(color1, color2, factor)]. *)
Definition interpolateColor (color1 color2 : Color) (factor : R) : Color :=
  if JS.gtb factor 0.5 then color2 else color1.

(** [config.colorPalette[type] || '#ffffff']. *)
Definition baseColorOf (k : Kind) : Color :=
  match k with
  | otherKind => white
  | _ => palette k
  end.

(** [calculateColor(telegraph)]; [clock] is its [Date.now()]. *)
Definition calculateColor (clock : R) (k : Kind) (u : Urgency) : Color :=
  let baseColor := baseColorOf k in
  match u with
  | critical =>
      let flashFactor := (sin (clock * 0.03) + 1) * 0.5 in
      interpolateColor baseColor white (flashFactor * 0.5)
  | _ => baseColor
  end.

(** [calculateSize(progress, baseSize)]. *)
Definition calculateSize (progress baseSize : R) : R :=
  baseSize * (0.5 + progress * 0.5).

(** The urgency [updateTelegraph] assigns. *)
Definition urgencyOf (remaining : R) : Urgency :=
  if JS.ltb remaining urgencyThreshold then critical
  else if JS.ltb remaining (urgencyThreshold * 2) then high
  else normal.

(** [updateTelegraph(telegraph, now)], on a telegraph whose
    [timeRemaining] is [remaining]; [clockIntensity] and [clockColor] are
    the clock values read inside [calculateIntensity] and
    [calculateColor]. *)
Definition updateTelegraph (clockIntensity clockColor remaining : R) (t : Telegraph)
  : Telegraph :=
  let p := 1 - remaining / duration t in
  let u := urgencyOf remaining in
  {| kind := kind t; baseSize := baseSize t;
     size := calculateSize p (baseSize t);
     duration := duration t;
     timeRemaining := remaining;
     endTime := endTime t;
     progress := p;
     intensity := calculateIntensity clockIntensity p u;
     urgency := u;
     color := calculateColor clockColor (kind t) u |}.

(** A telegraph as [completeTelegraph] receives it: only its
    [timeRemaining] has been written. *)
Definition expire (remaining : R) (t : Telegraph) : Telegraph :=
  {| kind := kind t; baseSize := baseSize t;
     size := size t; duration := duration t; timeRemaining := remaining;
     endTime := endTime t; progress := progress t; intensity := intensity t;
     urgency := urgency t; color := color t |}.

(** [update()]: [now] is its [Date.now()], [clocks i] are the two clock
    values read while the telegraph at index [i] is updated.  The loop
    runs from the last telegraph to the first; the second component
    lists the telegraphs completed, in the order [completeTelegraph] is
    called. *)
Fixpoint updateFrom (i : nat) (now : R) (clocks : nat -> R * R) (ts : list Telegraph)
  : list Telegraph * list Telegraph :=
  match ts with
  | [] => ([], [])
  | t :: rest =>
      let (kept, completed) := updateFrom (S i) now clocks rest in
      let remaining := endTime t - now in
      if Num.leb remaining 0 then (kept, completed ++ [expire remaining t])
      else (updateTelegraph (fst (clocks i)) (snd (clocks i)) remaining t :: kept,
            completed)
  end.

Definition update (now : R) (clocks : nat -> R * R) (ts : list Telegraph)
  : list Telegraph * list Telegraph :=
  updateFrom 0 now clocks ts.

(** [getGeometrySize(geometryType)]; a type that is not a key of the
    table ([None]) reads [undefined], which is falsy like [0]. *)
Definition getGeometrySize (g : option LevelGenerator.Geometry) : R :=
  JS.or_default
    (match g with
     | Some LevelGenerator.tesseract => 40
     | Some LevelGenerator.hypersphere => 35
     | Some LevelGenerator.cell24 => 45
     | Some LevelGenerator.cell600 => 50
     | Some LevelGenerator.cell120 => 60
     | None => 0
     end) 40.

(** [telegraphGeometrySpawn(x, y, geometryType, interactionType,
    timeUntilSpawn)]: the telegraph pushed; [now] is its [Date.now()]. *)
Definition telegraphGeometrySpawn (now : R) (g : option LevelGenerator.Geometry)
           (k : Kind) (timeUntilSpawn : R) : Telegraph :=
  {| kind := k; baseSize := getGeometrySize g; size := 0;
     duration := timeUntilSpawn; timeRemaining := timeUntilSpawn;
     endTime := now + timeUntilSpawn; progress := 0; intensity := 0;
     urgency := normal;
     color := match k with otherKind => undefinedColor | _ => palette k end |}.

End VisualTelegraph.

(** ** HapticAudioVisualIntegration *)

Module Haptic.

Inductive PatternName : Type :=
| beat | success | perfect | failure | warning | dangerPattern | combo | quadrantChange.

(** [hapticPatterns]. *)
Definition hapticPatterns (n : PatternName) : list R :=
  match n with
  | beat => [50]
  | success => [30; 50; 80]
  | perfect => [20; 30; 20; 30; 100]
  | failure => [200]
  | warning => [100; 50; 100]
  | dangerPattern => [50; 50; 50; 50; 200]
  | combo => [25; 25; 25; 25; 150]
  | quadrantChange => [80; 40; 80]
  end.

(** [triggerHaptic(patternName, intensity)]: the argument of
    [navigator.vibrate], if it is called. *)
Definition triggerHaptic (hapticSupported : bool) (n : PatternName) (i : R)
  : option (list R) :=
  if hapticSupported
  then Some (map (fun duration => JS.floor (duration * i)) (hapticPatterns n))
  else None.

(** [generateComboHapticPattern(comboLevel)] for a whole combo level. *)
Definition generateComboHapticPattern (comboLevel : nat) : list R :=
  concat (repeat [30; 20] (Nat.min comboLevel 10)) ++ [150].

(** The handler a vibration was started from. *)
Inductive Handler : Type := beatHandler | frequencyHandler.

(** One call of [navigator.vibrate]: the clock value of the handler that
    made it, the handler, and the pattern. *)
Record Vibration : Type := {
  startedAt : R;
  startedBy : Handler;
  pattern : list R
}.

(** The canvas [getQuadrantCenter] reads through [this.canvas]. *)
Record Canvas : Type := { canvasWidth : R; canvasHeight : R }.

(** How a call of a handler ends: it returns, or a [TypeError] leaves it
    half way. *)
Inductive Completion : Type := returned | threwTypeError.

(** The state the audio handlers read and write, and the vibrations
    started so far.  [canvas] is [this.canvas]; [None] is [undefined]. *)
Record t : Type := {
  hapticSupported : bool;
  canvas : option Canvas;
  lastHapticTime : R;
  vibrations : list Vibration
}.

(** The constructor: it sets no [canvas] property, and no method of the
    class does. *)
Definition fresh (supported : bool) : t :=
  {| hapticSupported := supported; canvas := None; lastHapticTime := 0;
     vibrations := [] |}.

Definition vibrate (now : R) (by_ : Handler) (p : option (list R)) (h : t)
  : list Vibration :=
  match p with
  | Some p => vibrations h ++ [{| startedAt := now; startedBy := by_; pattern := p |}]
  | None => vibrations h
  end.

(** [getQuadrantCenter(quadrant)]: building [centers] reads
    [this.canvas.width], which throws a [TypeError] ([None]) when there
    is no canvas; otherwise [centers[quadrant] || centers[0]]. *)
Definition getQuadrantCenter (c : option Canvas) (quadrant : nat) : option (R * R) :=
  match c with
  | None => None
  | Some c =>
      Some (match quadrant with
            | 1%nat => (canvasWidth c * 0.75, canvasHeight c * 0.25)
            | 2%nat => (canvasWidth c * 0.25, canvasHeight c * 0.75)
            | 3%nat => (canvasWidth c * 0.75, canvasHeight c * 0.75)
            | _ => (canvasWidth c * 0.25, canvasHeight c * 0.25)
            end)
  end.

(** [triggerVisualBeatResponse(beatInfo)]: the centres it hands to
    [particleSystem.spawnAmbientParticles] for the quadrants 0 to 3, or
    [None] when [getQuadrantCenter] throws. *)
Fixpoint quadrantCenters (c : option Canvas) (quadrants : list nat)
  : option (list (R * R)) :=
  match quadrants with
  | [] => Some []
  | quadrant :: rest =>
      match getQuadrantCenter c quadrant with
      | None => None
      | Some center =>
          match quadrantCenters c rest with
          | None => None
          | Some centers => Some (center :: centers)
          end
      end
  end.

Definition triggerVisualBeatResponse (c : option Canvas) : option (list (R * R)) :=
  quadrantCenters c [0; 1; 2; 3]%nat.

(** [onBeatDetected(beatInfo)] with [triggerBeatFeedback]; [now] is its
    [Date.now()].  Past the guard, [triggerHaptic] vibrates first, then
    [triggerVisualBeatResponse] runs; [lastHapticTime = now] comes after
    [triggerBeatFeedback] has returned, so a [TypeError] skips it.  (The
    particle system and the visualizer engine are injected; their calls
    are taken to return.) *)
Definition onBeatDetected (now strength : R) (h : t) : t * Completion :=
  if JS.gtb (now - lastHapticTime h) 100 then
    let started :=
      vibrate now beatHandler
              (triggerHaptic (hapticSupported h) beat (Rmin 1.0 strength)) h in
    match triggerVisualBeatResponse (canvas h) with
    | None =>
        ({| hapticSupported := hapticSupported h; canvas := canvas h;
            lastHapticTime := lastHapticTime h; vibrations := started |},
         threwTypeError)
    | Some _ =>
        ({| hapticSupported := hapticSupported h; canvas := canvas h;
            lastHapticTime := now; vibrations := started |},
         returned)
    end
  else (h, returned).

Inductive FrequencyBand : Type := bassBand | lowMidBand | midBand | highMidBand | highBand.

(** [frequencyMappings[band].hapticIntensity] and
    [frequencyMappings[band].quadrant]. *)
Definition hapticIntensity (b : FrequencyBand) : R :=
  match b with
  | bassBand => 1.0 | lowMidBand => 0.8 | midBand => 0.6
  | highMidBand => 0.4 | highBand => 0.3
  end.

Definition mappedQuadrant (b : FrequencyBand) : nat :=
  match b with
  | bassBand => 2 | lowMidBand => 0 | midBand => 1
  | highMidBand => 3 | highBand => 1
  end%nat.

(** [updateFrequencyBasedFeedback] for the dominant band [b], which
    always has a mapping; [now] is its [Date.now()].  [emphasizeQuadrant]
    calls [getQuadrantCenter] before the haptic block is reached.
    [lastHapticTime] is read and not written. *)
Definition updateFrequencyBasedFeedback (now : R) (b : FrequencyBand) (h : t)
  : t * Completion :=
  match getQuadrantCenter (canvas h) (mappedQuadrant b) with
  | None => (h, threwTypeError)
  | Some _ =>
      if JS.gtb (now - lastHapticTime h) 500 then
        ({| hapticSupported := hapticSupported h; canvas := canvas h;
            lastHapticTime := lastHapticTime h;
            vibrations :=
              vibrate now frequencyHandler
                      (if hapticSupported h
                       then Some [JS.floor (50 * hapticIntensity b)] else None) h |},
         returned)
      else (h, returned)
  end.

Inductive Op : Type :=
| Beat (now strength : R)
| Frequency (now : R) (b : FrequencyBand).

(** One call of a handler. *)
Definition handle (h : t) (op : Op) : t * Completion :=
  match op with
  | Beat now strength => onBeatDetected now strength h
  | Frequency now b => updateFrequencyBasedFeedback now b h
  end.

(** A sequence of calls: the state left, and how each call ended.  A
    call that throws ends there; later calls see the state it left. *)
Definition step (st : t * list Completion) (op : Op) : t * list Completion :=
  (fst (handle (fst st) op), snd st ++ [snd (handle (fst st) op)]).

Definition run (h : t) (ops : list Op) : t * list Completion :=
  fold_left step ops (h, []).

(** The times of the vibrations the beat handler started. *)
Definition beatVibrations (h : t) : list R :=
  map startedAt
      (filter (fun v => match startedBy v with beatHandler => true | _ => false end)
              (vibrations h)).

Section SyncBuffer.

(** A scheduled event; only its [triggerTime] matters to the buffer. *)
Variable Scheduled : Type.
Variable triggerTime : Scheduled -> R.

(** [processScheduledFeedback]: the loop runs from the last entry to the
    first; the result is the buffer left and the events executed, in the
    order they are executed.  [now] is its [Date.now()]. *)
Fixpoint processScheduledFeedback (now : R) (syncBuffer : list Scheduled)
  : list Scheduled * list Scheduled :=
  match syncBuffer with
  | [] => ([], [])
  | event :: rest =>
      let (kept, executed) := processScheduledFeedback now rest in
      if Num.geb now (triggerTime event) then (kept, executed ++ [event])
      else (event :: kept, executed)
  end.

End SyncBuffer.

End Haptic.

(** ** CandyCrushStyleProgression: levels, streaks and geometry unlocks *)

Module Progression.

(** The fields of [progression] the game events write. *)
Record t : Type := {
  level : R;
  score : R;
  moves : nat;
  recentPerformance : list R;
  streakCount : nat;
  perfectStreak : nat
}.

(** The constructor's [progression]. *)
Definition initial : t :=
  {| level := 1; score := 0; moves := 0; recentPerformance := [];
     streakCount := 0; perfectStreak := 0 |}.

(** [onPlayerHit(accuracy, energy, combo)]: the new state and the points
    returned. *)
Definition onPlayerHit (accuracy energy combo : R) (p : t) : t * R :=
  let basePoints := JS.floor (100 * accuracy) in
  let levelBonus := basePoints * (level p * 0.1) in
  let comboBonus := basePoints * (combo * 0.2) in
  let energyBonus := basePoints * (energy * 0.5) in
  let totalPoints := JS.floor (basePoints + levelBonus + comboBonus + energyBonus) in
  ({| level := level p;
      score := score p + totalPoints;
      moves := S (moves p);
      recentPerformance := JS.push_capped 20 (recentPerformance p) accuracy;
      streakCount :=
        if JS.gtb accuracy 0.9 then S (streakCount p)
        else if JS.gtb accuracy 0.7 then S (streakCount p)
        else 0%nat;
      perfectStreak :=
        if JS.gtb accuracy 0.9 then S (perfectStreak p) else 0%nat |},
   totalPoints).

(** [advanceLevel]. *)
Definition advanceLevel (p : t) : t :=
  {| level := level p + 1; score := score p; moves := 0;
     recentPerformance := recentPerformance p;
     streakCount := 0; perfectStreak := 0 |}.

(** [setLevel(newLevel)]. *)
Definition setLevel (newLevel : R) (p : t) : t :=
  {| level := Rmax 1 newLevel; score := score p; moves := moves p;
     recentPerformance := recentPerformance p;
     streakCount := streakCount p; perfectStreak := perfectStreak p |}.

(** [reset]. *)
Definition reset (p : t) : t := initial.

Definition allGeometries : list LevelGenerator.Geometry :=
  [LevelGenerator.tesseract; LevelGenerator.hypersphere; LevelGenerator.cell24;
   LevelGenerator.cell600; LevelGenerator.cell120].

(** [updateGeometryUnlocks(level)] for the level of the state, which is
    at least [1]: [geometryTypes] and [maxActiveGeometries]. *)
Definition updateGeometryUnlocks (p : t) : list LevelGenerator.Geometry * R :=
  let unlockedCount :=
    Rmin (INR (length allGeometries)) (JS.floor (1 + level p / 5)) in
  (firstn (Z.to_nat (Int_part unlockedCount)) allGeometries,
   Rmin 8 (2 + JS.floor (level p / 3))).

Inductive Op : Type :=
| Hit (accuracy energy combo : R)
| Advance
| SetLevel (newLevel : R)
| Reset.

Definition step (p : t) (op : Op) : t :=
  match op with
  | Hit accuracy energy combo => fst (onPlayerHit accuracy energy combo p)
  | Advance => advanceLevel p
  | SetLevel newLevel => setLevel newLevel p
  | Reset => reset p
  end.

Definition run (ops : list Op) : t := fold_left step ops initial.

End Progression.

(** ** MathematicallyCoherentVisualSystem: temporal sync and 4D rotations *)

Module Coherent.

(** The temporal sync of [updateUnifiedMathFromAudio]: [beatPhase] and
    [measurePhase], from the beat info it reads. *)
Definition beatPhase (beatInfo : Director.BeatInfo) : R :=
  JS.rem (Director.infoTimeSinceLastBeat beatInfo / (60000 / Director.bpm beatInfo)) 1.

Definition measurePhase (beatInfo : Director.BeatInfo) : R :=
  JS.rem (beatPhase beatInfo / 4) 1.

(** The planes [createRotationMatrix4D] knows, or any other string. *)
Inductive Plane : Type := XW | YW | ZW | otherPlane.

(** [createRotationMatrix4D(plane, angle)]: the rows of the matrix. *)
Definition createRotationMatrix4D (plane : Plane) (angle : R) : list (list R) :=
  let c := cos angle in
  let s := sin angle in
  match plane with
  | XW => [ [c; 0; 0; - s]; [0; 1; 0; 0]; [0; 0; 1; 0]; [s; 0; 0; c] ]
  | YW => [ [1; 0; 0; 0]; [0; c; 0; - s]; [0; 0; 1; 0]; [0; s; 0; c] ]
  | ZW => [ [1; 0; 0; 0]; [0; 1; 0; 0]; [0; 0; c; - s]; [0; 0; s; c] ]
  | otherPlane => [ [1; 0; 0; 0]; [0; 1; 0; 0]; [0; 0; 1; 0]; [0; 0; 0; 1] ]
  end.

End Coherent.

(** ** JavaScript numbers that need not be finite

    Everywhere else a number is a real.  Where the code divides by a
    value that is zero the result is [Infinity] or [NaN]; on that path a
    number is a real or one of the three values that are not finite.
    Zero is taken as [+0]. *)

Module Number.

Inductive t : Type :=
| finite (x : R)
| posInfinity
| negInfinity
| NaN.


(** [a * b]. *)
Definition mul (a b : t) : t :=
  let scaled (positive : bool) (y : R) : t :=
    if Req_dec_T y 0 then NaN
    else if Bool.eqb positive (if Rlt_dec 0 y then true else false)
         then posInfinity else negInfinity in
  match a, b with
  | NaN, _ | _, NaN => NaN
  | finite x, finite y => finite (x * y)
  | posInfinity, finite y | finite y, posInfinity => scaled true y
  | negInfinity, finite y | finite y, negInfinity => scaled false y
  | posInfinity, posInfinity | negInfinity, negInfinity => posInfinity
  | posInfinity, negInfinity | negInfinity, posInfinity => negInfinity
  end.

(** [a + b]. *)
Definition add (a b : t) : t :=
  match a, b with
  | NaN, _ | _, NaN => NaN
  | finite x, finite y => finite (x + y)
  | posInfinity, negInfinity | negInfinity, posInfinity => NaN
  | posInfinity, _ | _, posInfinity => posInfinity
  | negInfinity, _ | _, negInfinity => negInfinity
  end.

(** [Math.log2(a)]. *)
Definition log2 (a : t) : t :=
  match a with
  | finite x =>
      if Rlt_dec x 0 then NaN
      else if Req_dec_T x 0 then negInfinity else finite (JS.log2 x)
  | posInfinity => posInfinity
  | negInfinity | NaN => NaN
  end.

(** [a % b]. *)
Definition rem (a b : t) : t :=
  match a, b with
  | finite x, finite y => if Req_dec_T y 0 then NaN else finite (JS.rem x y)
  | finite x, posInfinity | finite x, negInfinity => finite x
  | _, _ => NaN
  end.

(** [a || d]: [0] and [NaN] are falsy, the infinities are truthy. *)
Definition or_default (a d : t) : t :=
  match a with
  | finite x => if Req_dec_T x 0 then d else a
  | NaN => d
  | _ => a
  end.


End Number.

(** ** The fundamental frequency: from [detectPitch] to the hue of the
    visual systems *)

Module Fundamental.


(** [unifiedMath.frequency] of the coherent visual system, as far as the
    analysis of the director reaches it. *)
Record Frequency : Type := {
  fundamental : Number.t;
  spectralCentroid : R
}.





End Fundamental.

(** ** Predicates used to state the properties *)

Module Props.

(** Every two neighbours of a list of times are more than [gap] apart. *)
Fixpoint gapsExceed (gap : R) (times : list R) : Prop :=
  match times with
  | a :: ((b :: _) as rest) => b - a > gap /\ gapsExceed gap rest
  | _ => True
  end.

(** What every run keeps true of a tracker: its beat history is spaced by
    more than the refractory period and ends at [lastBeatTime], and the
    stored tempo is positive and below 200. *)
Definition trackerInvariant (d : Director.t) : Prop :=
  gapsExceed 300 (Director.beatHistory d)
  /\ (Director.beatHistory d = []
      \/ last (Director.beatHistory d) 0 = Director.lastBeatTime d)
  /\ 0 < Director.currentBPM d < 200.

(** [Math.max(lo, Math.min(hi, x))]. *)
Definition clamp (lo hi x : R) : R := Rmax lo (Rmin hi x).


(** An entry of an update differs from the value remembered for its
    parameter. *)
Definition changed (cur : Integration.Params) (entry : Integration.Param * R) : bool :=
  JS.strict_neq (cur (fst entry)) (snd entry).

(** The value a sink call list carries for a parameter, if any. *)
Definition forwarded (calls : list Integration.SinkCall) (p : Integration.Param)
           (v : R) : Prop :=
  In (p, v) calls.

End Props.

(** ** Concrete frames and runs used as examples *)

Module Scenarios.
Import Spectrum.

(** A 2048-bin buffer of silence, and one at 0 dB in every bin. *)
Definition silentFrame : list dB := repeat NegInfinity 2048.
Definition loudFrame : list dB := repeat (Decibel 0) 2048.

(** Ten silent frames, four loud frames ten seconds apart (each is accepted
    as a beat), then three more silent frames one animation frame apart. *)
Definition slowBeats : list (R * list dB) :=
  [ (100, silentFrame); (200, silentFrame); (300, silentFrame); (400, silentFrame);
    (500, silentFrame); (600, silentFrame); (700, silentFrame); (800, silentFrame);
    (900, silentFrame); (1000, silentFrame);
    (11000, loudFrame); (21000, loudFrame); (31000, loudFrame); (41000, loudFrame);
    (41016, silentFrame); (41032, silentFrame); (41048, silentFrame) ].



(** What the integration layer reads 187 ms after the first accepted beat
    of a run, on a silent frame: no band energy, the default centroid, the
    initial tempo of 120. *)
Definition quietAnalysis : Analysis.AudioData :=
  {| Analysis.bassEnergy := 0; Analysis.midEnergy := 0; Analysis.trebleEnergy := 0;
     Analysis.totalEnergy := 0; Analysis.complexityScore := 0.5;
     Analysis.spectralCentroid := 440;
     Analysis.beat := {| Director.detected := false; Director.strength := 0;
                         Director.confidence := 0;
                         Director.timeSinceLastBeat := 187 |};
     Analysis.rhythmComplexity := 0.5 |}.

Definition shortlyAfterBeat : Director.BeatInfo :=
  {| Director.bpm := 120; Director.infoLastBeatTime := 11000;
     Director.infoTimeSinceLastBeat := 187; Director.infoBeatHistory := [11000] |}.

(** A loud frame read on the beat: total energy 2, bass energy 2, mid
    energy 4. *)
Definition loudAnalysis : Analysis.AudioData :=
  {| Analysis.bassEnergy := 2; Analysis.midEnergy := 4; Analysis.trebleEnergy := 0;
     Analysis.totalEnergy := 2; Analysis.complexityScore := 0.5;
     Analysis.spectralCentroid := 440;
     Analysis.beat := {| Director.detected := true; Director.strength := 1;
                         Director.confidence := 0;
                         Director.timeSinceLastBeat := 0 |};
     Analysis.rhythmComplexity := 0.5 |}.

Definition onTheBeat : Director.BeatInfo :=
  {| Director.bpm := 120; Director.infoLastBeatTime := 11000;
     Director.infoTimeSinceLastBeat := 0; Director.infoBeatHistory := [11000] |}.

(** Calibration, then ten measurements of a constant timing error of
    +100 ms. *)
Definition constantError : list Latency.Op :=
  Latency.Calibrate :: repeat (Latency.Measure 0 100) 10.

End Scenarios.

(** ** Further invariants and observations *)

Module Invariants.

(** The parameters [calculateCoherentParameters] clamps. *)
Definition clamped (p : Integration.Param) : bool :=
  match p with
  | Integration.gridDensity | Integration.speed
  | Integration.chaos | Integration.geometry => true
  | _ => false
  end.

(** A run of the integration loop from a fresh pipeline. *)
Definition cycles (sampleRate : R) (inputs : list (Pipeline.Environment * list Spectrum.dB))
  : Pipeline.t :=
  fold_left (Pipeline.updateCycle sampleRate) inputs Pipeline.fresh.

(** What every run keeps true of the score counters. *)
Definition scoreInvariant (g : GameState.t) : Prop :=
  GameState.eventsCompleted g
  = (GameState.perfectHits g + GameState.goodHits g + GameState.misses g)%nat
  /\ (GameState.combo g <= GameState.perfectHits g + GameState.goodHits g)%nat
  /\ (GameState.combo g <= GameState.maxCombo g)%nat
  /\ (length (GameState.recentPerformance g) <= 50)%nat
  /\ 0.5 <= GameState.performanceMultiplier g <= 2
  /\ 1 <= GameState.unlockLevel g.

(** The order of the spawn queue. *)
Definition bySpawnTime {Event : Type} (spawnTime : Event -> R) (a b : Event) : Prop :=
  spawnTime a <= spawnTime b.

(** The value the sink holds for every parameter after a list of calls
    of [window.updateParameter], starting from [held]. *)
Definition sinkValue (held : Integration.Params) (calls : list Integration.SinkCall)
  : Integration.Params :=
  fold_left (fun sink call => Integration.set (fst call) (snd call) sink) calls held.

(** What every run keeps true of a pool created with [size] particles. *)
Definition poolInvariant (size : nat) (p : ParticlePool.t) : Prop :=
  ParticlePool.activeCount p = Z.of_nat (ParticlePool.activeParticles p)
  /\ length (ParticlePool.pool p) = size
  /\ (ParticlePool.maxSize p <= size)%nat.

(** The product of a matrix, given by its rows, and a vector. *)
Definition dot (u v : list R) : R :=
  fold_left Rplus (map (fun uv => fst uv * snd uv) (combine u v)) 0.

Definition transform (rows : list (list R)) (v : list R) : list R :=
  map (fun row => dot row v) rows.

(** The squared length of a vector. *)
Definition squaredNorm (v : list R) : R := dot v v.

(** What every run keeps true of the progression counters. *)
Definition progressionInvariant (p : Progression.t) : Prop :=
  1 <= Progression.level p
  /\ (Progression.perfectStreak p <= Progression.streakCount p)%nat
  /\ (Progression.streakCount p <= Progression.moves p)%nat
  /\ (length (Progression.recentPerformance p) <= 20)%nat.

End Invariants.

(** * Properties *)

(** ** Comparisons and clamps *)

Lemma gtb_true (a b : R) : b < a -> JS.gtb a b = true.
Proof. intros H. unfold JS.gtb. destruct (Rlt_dec b a); [reflexivity | contradiction]. Qed.

Lemma gtb_false (a b : R) : a <= b -> JS.gtb a b = false.
Proof. intros H. unfold JS.gtb. destruct (Rlt_dec b a); [lra | reflexivity]. Qed.

Lemma gtb_spec (a b : R) : JS.gtb a b = true <-> b < a.
Proof.
  unfold JS.gtb. destruct (Rlt_dec b a); split; intros; try assumption;
    try reflexivity; try discriminate; contradiction.
Qed.

Lemma ltb_true (a b : R) : a < b -> JS.ltb a b = true.
Proof. intros H. unfold JS.ltb. destruct (Rlt_dec a b); [reflexivity | contradiction]. Qed.

Lemma ltb_false (a b : R) : b <= a -> JS.ltb a b = false.
Proof. intros H. unfold JS.ltb. destruct (Rlt_dec a b); [lra | reflexivity]. Qed.

Lemma ltb_spec (a b : R) : JS.ltb a b = true <-> a < b.
Proof.
  unfold JS.ltb. destruct (Rlt_dec a b); split; intros; try assumption;
    try reflexivity; try discriminate; contradiction.
Qed.

Lemma strict_neq_spec (a b : R) : JS.strict_neq a b = true <-> a <> b.
Proof.
  unfold JS.strict_neq. destruct (Req_dec_T a b); split; intros; try assumption;
    try reflexivity; try discriminate; contradiction.
Qed.

Lemma strict_neq_refl (a : R) : JS.strict_neq a a = false.
Proof. unfold JS.strict_neq. destruct (Req_dec_T a a); [reflexivity | contradiction]. Qed.

Lemma or_default_nonzero (x d : R) : x <> 0 -> JS.or_default x d = x.
Proof. intros H. unfold JS.or_default. destruct (Req_dec_T x 0); [contradiction | reflexivity]. Qed.

Lemma or_default_zero (d : R) : JS.or_default 0 d = d.
Proof. unfold JS.or_default. destruct (Req_dec_T 0 0); [reflexivity | contradiction]. Qed.

Lemma or_default_same (x : R) : JS.or_default x 0 = x.
Proof. unfold JS.or_default. destruct (Req_dec_T x 0); congruence. Qed.

Lemma clamp_bounds (lo hi x : R) : lo <= hi -> lo <= Props.clamp lo hi x <= hi.
Proof.
  intros H. unfold Props.clamp. split.
  - apply Rmax_l.
  - apply Rmax_lub; [assumption | apply Rmin_l].
Qed.

(** ** Beat and tempo tracker *)

Section BeatTracker.

Import Director.

(** What one [detectBeat] does to the tracker: either it accepts the frame
    as a beat, more than 300 ms after the previous one, or it leaves the beat
    state alone. *)
Lemma detectBeat_cases (now : R) (data : list Spectrum.dB) (d : t) :
  let r := detectBeat now data d in
  currentBPM (fst r) = currentBPM d /\
  ((detected (snd r) = true /\ lastBeatTime (fst r) = now /\
    now - lastBeatTime d > 300 /\
    beatHistory (fst r) = JS.push_capped 20 (beatHistory d) now)
   \/
   (detected (snd r) = false /\ lastBeatTime (fst r) = lastBeatTime d /\
    beatHistory (fst r) = beatHistory d)).
Proof.
  unfold detectBeat.
  destruct (10 <? length _)%nat; [| simpl; auto].
  destruct (JS.gtb (calculateTotalEnergy data) _) eqn:He; simpl; [| auto].
  destruct (JS.gtb (now - lastBeatTime d) 300) eqn:Ht; simpl; [| auto].
  apply gtb_spec in Ht. split; [reflexivity | left]. repeat split; lra.
Qed.

(** A frame that arrives within 300 ms of the last accepted beat is never
    flagged. *)
Lemma detectBeat_refractory (now : R) (data : list Spectrum.dB) (d : t) :
  now - lastBeatTime d <= 300 -> detected (snd (detectBeat now data d)) = false.
Proof.
  intros H. destruct (detectBeat_cases now data d) as [_ [[_ [_ [Hgap _]]] | [Hd _]]].
  - lra.
  - exact Hd.
Qed.

Lemma calculateTempo_beat_state (d : t) :
  lastBeatTime (fst (calculateTempo d)) = lastBeatTime d /\
  beatHistory (fst (calculateTempo d)) = beatHistory d.
Proof. unfold calculateTempo. destruct (_ <? 4)%nat; simpl; auto. Qed.

Lemma analyseRhythm_cases (now : R) (data : list Spectrum.dB) (d : t) :
  let r := analyseRhythm now data d in
  (detected (fst (snd r)) = true /\ lastBeatTime (fst r) = now /\
   now - lastBeatTime d > 300)
  \/ (detected (fst (snd r)) = false /\ lastBeatTime (fst r) = lastBeatTime d).
Proof.
  unfold analyseRhythm.
  pose proof (detectBeat_cases now data d) as H.
  destruct (detectBeat now data d) as [d1 b]. simpl in H.
  pose proof (calculateTempo_beat_state d1) as [Hl _].
  destruct (calculateTempo d1) as [d2 tempo]. simpl in *.
  destruct H as [_ [[Hd [Ht [Hg _]]] | [Hd [Ht _]]]]; [left | right];
    repeat split; try assumption; congruence.
Qed.

(** C2: for every energy sequence and every clock, each accepted beat comes
    more than 300 ms after the beat accepted immediately before it (the
    tracker's [lastBeatTime] when the run starts, then the beats of the run
    in order): no beat is accepted at a time [t'] with [t' - t <= 300]. *)
Theorem C2_refractory_period (d : t) (frames : list (R * list Spectrum.dB)) :
  Props.gapsExceed 300 (lastBeatTime d :: acceptedBeats (snd (run d frames))).
Proof.
  revert d. induction frames as [| [now data] rest IH]; intros d.
  - simpl. exact I.
  - simpl.
    pose proof (analyseRhythm_cases now data d) as H.
    destruct (analyseRhythm now data d) as [d1 out]. simpl in H.
    specialize (IH d1).
    destruct (run d1 rest) as [d2 outs]. simpl in IH.
    unfold acceptedBeats in *. simpl.
    destruct H as [[Hd [Ht Hg]] | [Hd Ht]]; rewrite Hd; simpl.
    + rewrite Ht in IH. split; [exact Hg | exact IH].
    + rewrite Ht in IH. exact IH.
Qed.

End BeatTracker.

(** ** Tempo smoothing *)

Section Tempo.

Import Spectrum Director Scenarios.

Lemma total_magnitude_acc (data : list dB) (acc : R) :
  fold_left (fun total s => total + magnitude s) data acc
  = acc + total_magnitude data.
Proof.
  unfold total_magnitude. revert acc.
  induction data as [| s rest IH]; intros acc; simpl.
  - lra.
  - rewrite IH, (IH (0 + magnitude s)). lra.
Qed.

Lemma total_magnitude_cons (s : dB) (data : list dB) :
  total_magnitude (s :: data) = magnitude s + total_magnitude data.
Proof.
  unfold total_magnitude at 1. simpl. rewrite total_magnitude_acc. lra.
Qed.

Lemma total_magnitude_repeat (s : dB) (n : nat) :
  total_magnitude (repeat s n) = INR n * magnitude s.
Proof.
  induction n as [| n IH].
  - unfold total_magnitude. simpl. lra.
  - simpl repeat. rewrite total_magnitude_cons, IH, S_INR. lra.
Qed.

Lemma energy_silentFrame : calculateTotalEnergy silentFrame = 0.
Proof.
  unfold calculateTotalEnergy, silentFrame. rewrite total_magnitude_repeat.
  simpl magnitude. unfold Rdiv. lra.
Qed.

Lemma energy_loudFrame : calculateTotalEnergy loudFrame = 1.
Proof.
  unfold calculateTotalEnergy, loudFrame.
  rewrite total_magnitude_repeat, repeat_length.
  simpl magnitude. replace (0 / 20) with 0 by lra. rewrite Rpower_O by lra.
  field. apply not_0_INR. discriminate.
Qed.

Lemma run_state_cons (d : t) (now : R) (data : list dB) (rest : list (R * list dB)) :
  fst (run d ((now, data) :: rest))
  = fst (run (fst (calculateTempo (fst (detectBeat now data d)))) rest).
Proof.
  cbn [run]. unfold analyseRhythm.
  destruct (detectBeat now data d) as [d1 b]; cbn [fst].
  destruct (calculateTempo d1) as [d2 tempo]; cbn [fst].
  destruct (run d2 rest); reflexivity.
Qed.

Lemma calculateTempo_short (d : t) :
  (length (beatHistory d) < 4)%nat -> calculateTempo d = (d, currentBPM d).
Proof.
  intros H. unfold calculateTempo.
  destruct (Nat.ltb_spec (length (beatHistory d)) 4); [reflexivity | lia].
Qed.

Lemma calculateTempo_long (d : t) :
  (4 <= length (beatHistory d))%nat ->
  calculateTempo d
  = (let smoothed :=
       currentBPM d * 0.8 + 60000 / average (intervals (beatHistory d)) * 0.2 in
     ({| energyHistory := energyHistory d; beatHistory := beatHistory d;
         currentBPM := smoothed; lastBeatTime := lastBeatTime d;
         beatConfidence := beatConfidence d |},
      Rmax 60 (Rmin 200 smoothed))).
Proof.
  intros H. unfold calculateTempo.
  destruct (Nat.ltb_spec (length (beatHistory d)) 4); [lia | reflexivity].
Qed.

(** The mean of the consecutive intervals is the span of the history over
    the number of intervals. *)
Lemma sum_acc (xs : list R) (acc : R) : fold_left Rplus xs acc = acc + JS.sum xs.
Proof.
  unfold JS.sum. revert acc. induction xs as [| x rest IH]; intros acc; simpl.
  - lra.
  - rewrite IH, (IH (0 + x)). lra.
Qed.

Lemma last_cons_default (b a : R) (rest : list R) : last (b :: rest) a = last rest b.
Proof.
  revert a b. induction rest as [| c rest IH]; intros a b.
  - reflexivity.
  - change (last (b :: c :: rest) a) with (last (c :: rest) a).
    rewrite (IH a c). symmetry. apply IH.
Qed.

Lemma intervals_telescope (a : R) (history : list R) :
  JS.sum (intervals (a :: history)) = last history a - a.
Proof.
  revert a. induction history as [| b rest IH]; intros a.
  - unfold JS.sum. simpl. lra.
  - change (intervals (a :: b :: rest)) with ((b - a) :: intervals (b :: rest)).
    unfold JS.sum at 1. cbn [fold_left]. rewrite sum_acc, IH, last_cons_default. lra.
Qed.

(** *** The stored tempo on every run *)

Lemma gapsExceed_tl (gap : R) (times : list R) :
  Props.gapsExceed gap times -> Props.gapsExceed gap (tl times).
Proof.
  destruct times as [| a [| b rest]]; simpl; try tauto.
Qed.

Lemma gapsExceed_snoc (gap x : R) (times : list R) :
  Props.gapsExceed gap times ->
  (times = [] \/ x - last times 0 > gap) ->
  Props.gapsExceed gap (times ++ [x]).
Proof.
  induction times as [| a rest IH]; intros Hg Hx.
  - exact I.
  - destruct Hx as [Hx | Hx]; [discriminate |].
    destruct rest as [| b rest'].
    + cbn in Hx |- *. split; [lra | exact I].
    + change (last (a :: b :: rest') 0) with (last (b :: rest') 0) in Hx.
      destruct Hg as [Hab Hrest].
      assert (Htail : Props.gapsExceed gap ((b :: rest') ++ [x])).
      { apply IH; [exact Hrest | right; exact Hx]. }
      change (b - a > gap /\ Props.gapsExceed gap ((b :: rest') ++ [x])).
      split; assumption.
Qed.

Lemma push_capped_beats (now lastBeat : R) (history : list R) :
  Props.gapsExceed 300 history ->
  (history = [] \/ last history 0 = lastBeat) ->
  now - lastBeat > 300 ->
  Props.gapsExceed 300 (JS.push_capped 20 history now)
  /\ last (JS.push_capped 20 history now) 0 = now.
Proof.
  intros Hg Hl Hnow. unfold JS.push_capped.
  assert (Hs : Props.gapsExceed 300 (history ++ [now])).
  { apply gapsExceed_snoc; [exact Hg |]. destruct Hl as [Hl | Hl]; [left; exact Hl |].
    right. rewrite Hl. exact Hnow. }
  destruct (20 <? length (history ++ [now]))%nat eqn:Hlen.
  - split; [apply gapsExceed_tl; exact Hs |].
    apply Nat.ltb_lt in Hlen. rewrite length_app in Hlen. simpl in Hlen.
    destruct history as [| a rest]; [simpl in Hlen; lia |].
    simpl tl. destruct rest as [| b rest']; [simpl in Hlen; lia |].
    apply last_last.
  - split; [exact Hs | apply last_last].
Qed.

Lemma intervals_above (gap : R) (times : list R) :
  Props.gapsExceed gap times ->
  gap * INR (length (intervals times)) <= JS.sum (intervals times)
  /\ (intervals times <> [] ->
      gap * INR (length (intervals times)) < JS.sum (intervals times)).
Proof.
  induction times as [| a rest IH]; intros Hg.
  - simpl. unfold JS.sum. simpl. split; [lra | intros H; contradiction].
  - destruct rest as [| b rest'].
    + simpl. unfold JS.sum. simpl. split; [lra | intros H; contradiction].
    + change (intervals (a :: b :: rest')) with ((b - a) :: intervals (b :: rest')).
      destruct Hg as [Hab Hrest]. destruct (IH Hrest) as [Hle _].
      cbn [length]. rewrite S_INR.
      assert (Hsum : JS.sum ((b - a) :: intervals (b :: rest'))
                     = (b - a) + JS.sum (intervals (b :: rest'))).
      { unfold JS.sum at 1. cbn [fold_left]. rewrite sum_acc. lra. }
      rewrite Hsum. split; [| intros _]; lra.
Qed.

Lemma intervals_length (times : list R) :
  length (intervals times) = (length times - 1)%nat.
Proof.
  induction times as [| a rest IH]; [reflexivity |].
  destruct rest as [| b rest']; [reflexivity |].
  change (intervals (a :: b :: rest')) with ((b - a) :: intervals (b :: rest')).
  cbn [length] in *. rewrite IH. lia.
Qed.

Lemma average_interval_above (times : list R) :
  Props.gapsExceed 300 times -> (2 <= length times)%nat ->
  300 < average (intervals times).
Proof.
  intros Hg Hlen. unfold average.
  pose proof (intervals_length times) as Hn.
  assert (Hne : intervals times <> []).
  { intros H. rewrite H in Hn. simpl in Hn. lia. }
  destruct (intervals_above 300 times Hg) as [_ Hlt]. specialize (Hlt Hne).
  assert (Hpos : 0 < INR (length (intervals times))).
  { apply lt_0_INR. destruct (intervals times); [contradiction | simpl; lia]. }
  apply Rmult_lt_reg_r with (r := INR (length (intervals times))); [exact Hpos |].
  unfold Rdiv. rewrite Rmult_assoc, Rinv_l by lra. lra.
Qed.

Lemma calculateTempo_invariant (d : t) :
  Props.trackerInvariant d -> Props.trackerInvariant (fst (calculateTempo d)).
Proof.
  intros [Hg [Hl Hb]].
  destruct (Nat.ltb_spec (length (beatHistory d)) 4) as [Hshort | Hlong].
  - rewrite calculateTempo_short by exact Hshort. repeat split; tauto.
  - rewrite calculateTempo_long by exact Hlong. cbn [fst].
    unfold Props.trackerInvariant. cbn [beatHistory lastBeatTime currentBPM].
    split; [exact Hg |]. split; [exact Hl |].
    pose proof (average_interval_above (beatHistory d) Hg ltac:(lia)) as Havg.
    set (avg := average (intervals (beatHistory d))) in *.
    assert (Hnew : 0 < 60000 / avg < 200).
    { split.
      - apply Rdiv_lt_0_compat; lra.
      - apply Rmult_lt_reg_r with (r := avg); [lra |].
        unfold Rdiv. rewrite Rmult_assoc, Rinv_l by lra. lra. }
    lra.
Qed.

Lemma detectBeat_invariant (now : R) (data : list dB) (d : t) :
  Props.trackerInvariant d -> Props.trackerInvariant (fst (detectBeat now data d)).
Proof.
  intros [Hg [Hl Hb]].
  destruct (detectBeat_cases now data d) as [Hbpm [[_ [Ht [Hgap Hh]]] | [_ [Ht Hh]]]];
    unfold Props.trackerInvariant; rewrite Hbpm, Hh, Ht.
  - destruct (push_capped_beats now (lastBeatTime d) (beatHistory d) Hg Hl Hgap)
      as [Hg' Hl'].
    split; [exact Hg' |]. split; [right; exact Hl' | exact Hb].
  - split; [exact Hg |]. split; [exact Hl | exact Hb].
Qed.

Lemma run_invariant (frames : list (R * list dB)) (d : t) :
  Props.trackerInvariant d -> Props.trackerInvariant (fst (run d frames)).
Proof.
  revert d. induction frames as [| [now data] rest IH]; intros d H.
  - exact H.
  - rewrite run_state_cons. apply IH. apply calculateTempo_invariant.
    apply detectBeat_invariant. exact H.
Qed.

(** On every run from a fresh tracker the stored tempo stays positive and
    below 200, and the mean beat interval it is computed from is above
    300 ms: the upper half of the clamp never has to act on the state. *)
Lemma stored_tempo_stays_below_200 (frames : list (R * list dB)) :
  0 < currentBPM (fst (run fresh frames)) < 200
  /\ Props.gapsExceed 300 (beatHistory (fst (run fresh frames))).
Proof.
  assert (H : Props.trackerInvariant fresh).
  { unfold Props.trackerInvariant, fresh. simpl. split; [exact I |].
    split; [left; reflexivity | lra]. }
  destruct (run_invariant frames fresh H) as [Hg [_ Hb]]. split; assumption.
Qed.

(** One animation frame of the [slowBeats] run. *)
Ltac beat_step :=
  rewrite run_state_cons;
  unfold detectBeat at 1;
  cbn [JS.push_capped JS.slice_last energyHistory beatHistory currentBPM lastBeatTime
       beatConfidence app length Nat.ltb Nat.leb tl skipn Nat.sub fold_left energy
       fst snd];
  rewrite ?energy_silentFrame, ?energy_loudFrame;
  repeat first [rewrite gtb_true by lra | rewrite gtb_false by lra];
  cbn [andb fst snd].

Ltac tempo_idle := rewrite calculateTempo_short by (simpl; lia); cbn [fst].

Ltac tempo_update :=
  rewrite calculateTempo_long by (simpl; lia);
  cbn [beatHistory fst snd currentBPM energyHistory lastBeatTime beatConfidence
       intervals];
  replace (average _) with 10000 by (unfold average, JS.sum; simpl; lra);
  replace (60000 / 10000) with 6 by lra.

(** The [slowBeats] run accepts its four loud frames as beats and ends with
    a stored tempo of 52.6944. *)
Lemma slowBeats_final :
  beatHistory (fst (run fresh slowBeats)) = [11000; 21000; 31000; 41000] /\
  currentBPM (fst (run fresh slowBeats)) = 52.6944.
Proof.
  assert (H : exists history tempo,
             fst (run fresh slowBeats)
             = {| energyHistory := history;
                  beatHistory := [11000; 21000; 31000; 41000];
                  currentBPM := tempo; lastBeatTime := 41000;
                  beatConfidence := 0 |}
             /\ tempo = 52.6944).
  { unfold slowBeats, fresh.
    do 10 (beat_step; tempo_idle).
    do 3 (beat_step; tempo_idle).
    do 4 (beat_step; tempo_update).
    cbn [run fst]. eexists. eexists. split; [reflexivity | lra]. }
  destruct H as [history [tempo [H Ht]]]. rewrite H. simpl. auto.
Qed.

(** C5 (as the code has it): a tempo recomputation with at least 4 beat
    samples stores 0.8 times the previous tempo plus 0.2 times 60000 over
    the mean consecutive interval; the clamp to [60, 200] is applied to the
    value [calculateTempo] returns, and the readers [getCurrentBPM] and
    [getBeatInfo] hand out the stored, unclamped tempo. *)
Theorem C5_tempo_smoothing (d : t) (now : R) :
  (4 <= length (beatHistory d))%nat ->
  let stored := currentBPM (fst (calculateTempo d)) in
  stored = 0.8 * currentBPM d + 0.2 * (60000 / average (intervals (beatHistory d)))
  /\ snd (calculateTempo d) = Props.clamp 60 200 stored
  /\ 60 <= snd (calculateTempo d) <= 200
  /\ getCurrentBPM (fst (calculateTempo d)) = stored
  /\ bpm (getBeatInfo now (fst (calculateTempo d))) = stored.
Proof.
  intros H. rewrite calculateTempo_long by exact H. cbn [fst snd currentBPM].
  split; [lra |]. split; [reflexivity |].
  split; [apply (clamp_bounds 60 200); lra |].
  split; reflexivity.
Qed.

Lemma C5_tempo_smoothing_witness :
  let d := {| energyHistory := []; beatHistory := [0; 500; 1000; 1500];
              currentBPM := 120; lastBeatTime := 1500; beatConfidence := 0 |} in
  (4 <= length (beatHistory d))%nat /\
  currentBPM (fst (calculateTempo d))
  = 0.8 * currentBPM d + 0.2 * (60000 / average (intervals (beatHistory d))).
Proof.
  intros d. split.
  - simpl. lia.
  - apply (C5_tempo_smoothing d 0). simpl. lia.
Defined.

(** C5, the stored state: after the [slowBeats] run, whose last frame
    recomputes the tempo from four beat samples, the stored tempo that
    [getCurrentBPM] returns is 52.6944, below 60. *)
Lemma C5_stored_tempo_below_60 :
  let d := fst (run fresh slowBeats) in
  (4 <= length (beatHistory d))%nat /\
  getCurrentBPM d = 52.6944 /\
  ~ (60 <= getCurrentBPM d <= 200).
Proof.
  destruct slowBeats_final as [Hh Hb]. cbn zeta. unfold getCurrentBPM.
  rewrite Hh, Hb. split; [simpl; lia |]. split; [reflexivity | lra].
Qed.

End Tempo.

(** ** Procedural event generator *)

Section EventGenerator.

Import LevelGenerator.

Lemma baseThresholds_pos (b : BandName) : 0 < baseThresholds b.
Proof. destruct b; simpl; lra. Qed.

(** The special events have no [difficulty]: the scaling leaves them as
    they are. *)
Lemma scaleDifficulty_special (selectQuadrantForBeat : FrameAnalysis -> nat)
      (adapted nowBuildup nowSilence : R) (analysis : FrameAnalysis) :
  map (scaleDifficulty adapted)
      (generateSpecialEvents selectQuadrantForBeat nowBuildup nowSilence analysis)
  = generateSpecialEvents selectQuadrantForBeat nowBuildup nowSilence analysis.
Proof.
  unfold generateSpecialEvents. rewrite !map_app, map_map. cbn [scaleDifficulty].
  f_equal. f_equal.
  - destruct (dynamicsTrend analysis); try reflexivity.
    destruct (JS.gtb (dynamicsCurrentLevel analysis) 0.7); reflexivity.
  - destruct (JS.ltb (dynamicsCurrentLevel analysis) 0.1); reflexivity.
Qed.

(** The events of one call: the scaled band events, then the special
    events. *)
Lemma generated_events
      (calculateEventDifficulty : BandData -> R -> R) (telegraphLeadTime : R -> R)
      (selectQuadrantForBeat : FrameAnalysis -> nat)
      (now nowBuildup nowSilence : R) (recentHits : list bool)
      (adaptivesDifficulty : R) (analysis : FrameAnalysis) :
  snd (generateEventsFromAudio calculateEventDifficulty telegraphLeadTime
                               selectQuadrantForBeat now nowBuildup nowSilence
                               recentHits adaptivesDifficulty analysis)
  = map geometry_spawn
        (map (scaleEvent
                (adaptDifficulty (calculateRecentPerformance recentHits)
                                 adaptivesDifficulty))
             (bandEvents calculateEventDifficulty telegraphLeadTime now
                         (rhythmTempo analysis) adaptivesDifficulty
                         (analysisFrequencies analysis)))
    ++ generateSpecialEvents selectQuadrantForBeat nowBuildup nowSilence analysis.
Proof.
  unfold generateEventsFromAudio. cbn [snd].
  rewrite map_app, scaleDifficulty_special, !map_map. reflexivity.
Qed.




(** At both ends of the multiplier's range a bass frame of energy 1/2 does
    spawn an event; with a lead-time rule of 2000 ms over the difficulty the
    easy end keeps its 8000 ms and the hard end, which would get 1333 ms, is
    floored at 3000 ms. *)
Lemma telegraph_floor_at_extremes :
  let difficultyOf := fun (bd : BandData) (scale : R) => energy bd * scale in
  let leadTime := fun difficulty : R => 2000 / difficulty in
  let frame :=
    {| analysisFrequencies := [(bass, {| energy := 0.5; peak := 0.5; dominance := 1 |})];
       rhythmTempo := 120; rhythmOnsets := [];
       dynamicsTrend := stableTrend; dynamicsCurrentLevel := 0.5 |} in
  map eventTelegraphDuration
      (snd (generateEventsFromAudio difficultyOf leadTime (fun _ => 0%nat)
                                    0 0 0 [] 0.5 frame)) = [Some 8000]
  /\ map eventTelegraphDuration
         (snd (generateEventsFromAudio difficultyOf leadTime (fun _ => 0%nat)
                                       0 0 0 [] 3.0 frame)) = [Some 3000].
Proof.
  cbn zeta. rewrite !generated_events.
  unfold generateSpecialEvents, bandEvents, getThresholdForBand.
  cbn [analysisFrequencies rhythmTempo rhythmOnsets dynamicsTrend
       dynamicsCurrentLevel filter fst snd energy baseThresholds map app].
  rewrite !gtb_true by lra. rewrite !ltb_false by lra.
  cbn [map app eventTelegraphDuration telegraphDuration scaleEvent createEventFromBand].
  unfold calculateTelegraphDuration, minTelegraphDuration. cbn [energy snd].
  split.
  - rewrite Rmax_right by lra. do 2 f_equal. lra.
  - rewrite Rmax_left by lra. reflexivity.
Qed.


End EventGenerator.

Section SpawnThreshold.

Import LevelGenerator.

(** C6 (as the code has it): the spawn threshold of every band is its base
    threshold times the multiplier, so it grows with the multiplier: for
    [d1 < d2] the threshold at [d2] is the higher one, and at the same band
    energies the harder multiplier never lets more bands through. *)
Theorem C6_threshold_increases
        (calculateEventDifficulty : BandData -> R -> R) (telegraphLeadTime : R -> R)
        (now tempo d1 d2 : R) (b : BandName)
        (frequencies : list (BandName * BandData)) :
  d1 < d2 ->
  getThresholdForBand d1 b < getThresholdForBand d2 b
  /\ (length (bandEvents calculateEventDifficulty telegraphLeadTime now tempo d2
                         frequencies)
      <= length (bandEvents calculateEventDifficulty telegraphLeadTime now tempo d1
                            frequencies))%nat.
Proof.
  intros Hd. split.
  - unfold getThresholdForBand. pose proof (baseThresholds_pos b). nra.
  - unfold bandEvents. rewrite !length_map.
    induction frequencies as [| [band bandData] rest IH]; simpl; [lia |].
    destruct (JS.gtb (energy bandData) (getThresholdForBand d2 band)) eqn:H2.
    + apply gtb_spec in H2.
      rewrite gtb_true; [simpl; lia |].
      unfold getThresholdForBand in *. pose proof (baseThresholds_pos band). nra.
    + destruct (JS.gtb (energy bandData) (getThresholdForBand d1 band)); simpl; lia.
Qed.

Lemma C6_threshold_increases_witness :
  (1 < 2) /\ getThresholdForBand 1 bass < getThresholdForBand 2 bass.
Proof.
  split; [lra |].
  apply (C6_threshold_increases (fun _ _ => 0) (fun _ => 0) 0 120 1 2 bass []). lra.
Defined.

(** C6, as stated: for the multipliers 1 and 2, both within [0.5, 3.0], the
    bass threshold at 2 is 0.2, not lower than the 0.1 at 1; a bass energy of
    0.15 spawns an event at multiplier 1 and none at multiplier 2. *)
Lemma C6_threshold_not_decreasing :
  (0.5 <= 1 /\ 1 < 2 /\ 2 <= 3.0) /\
  getThresholdForBand 1 bass = 0.1 /\
  getThresholdForBand 2 bass = 0.2 /\
  ~ (getThresholdForBand 2 bass < getThresholdForBand 1 bass) /\
  JS.gtb 0.15 (getThresholdForBand 1 bass) = true /\
  JS.gtb 0.15 (getThresholdForBand 2 bass) = false.
Proof.
  unfold getThresholdForBand. simpl.
  repeat split; try lra.
  - apply gtb_true. lra.
  - apply gtb_false. lra.
Qed.

End SpawnThreshold.

(** ** Latency compensator *)

Section LatencyCompensator.

Import Latency.

(** C10: the delay [scheduleCompensatedEvent] hands to the timer is
    [max(0, delay + adaptiveOffset)]: it is never negative, it is the
    compensated delay when that is positive and zero otherwise, for every
    requested delay and every offset. *)
Theorem C10_compensated_delay_not_negative (callback : nat) (delay : R) (l : t) :
  timers (scheduleCompensatedEvent callback delay l)
  = timers l ++ [(callback, compensatedDelay delay l)]
  /\ compensatedDelay delay l = Rmax 0 (delay + adaptiveOffset l)
  /\ 0 <= compensatedDelay delay l
  /\ compensatedDelay delay l
     = (if JS.gtb (delay + adaptiveOffset l) 0 then delay + adaptiveOffset l else 0).
Proof.
  unfold scheduleCompensatedEvent, compensatedDelay. simpl.
  repeat split; try reflexivity.
  - apply Rmax_l.
  - unfold JS.gtb. destruct (Rlt_dec 0 (delay + adaptiveOffset l)).
    + apply Rmax_right. lra.
    + apply Rmax_left. lra.
Qed.

(** Every timer a compensator starts, whatever else happens to it in
    between, carries a delay that is not negative. *)
Lemma timers_never_negative (ops : list Op) (l : t) :
  Forall (fun timer => 0 <= snd timer) (timers l) ->
  Forall (fun timer => 0 <= snd timer) (timers (steps l ops)).
Proof.
  revert l. induction ops as [| op rest IH]; intros l H; [exact H |].
  simpl. apply IH. destruct op; simpl; try exact H.
  - unfold updateAdaptiveCompensation. destruct (_ <? 10)%nat; exact H.
  - apply Forall_app. split; [exact H |].
    constructor; [| constructor]. simpl. apply Rmax_l.
Qed.

(** Over-compensation at work: with the emergency offset of -100 ms a
    request for 40 ms is run at once, one for 250 ms after 150 ms. *)
Lemma emergency_scheduling :
  timers (steps fresh [Emergency; Schedule 1 40; Schedule 2 250]) = [(1%nat, 0); (2%nat, 150)].
Proof.
  simpl. unfold compensatedDelay. simpl.
  rewrite Rmax_left by lra. rewrite Rmax_right by lra.
  repeat f_equal. lra.
Qed.

End LatencyCompensator.

Section AdaptiveOffset.

Import Latency Scenarios.

(** With ten measurements that sum to 1000 in the window, the recent mean is
    100, the previous window is empty and counts as 0, and one adaptation
    moves the offset by -10 ms. *)
Lemma adapt_constant_window (l : t) :
  length (recentMeasurements l) = 10%nat ->
  JS.sum (recentMeasurements l) = 1000 ->
  adaptiveOffset (updateAdaptiveCompensation l) = adaptiveOffset l - 10
  /\ recentMeasurements (updateAdaptiveCompensation l) = recentMeasurements l.
Proof.
  intros Hlen Hsum. unfold updateAdaptiveCompensation, JS.slice_last, JS.slice_neg.
  rewrite Hlen. cbn [Nat.ltb Nat.leb windowSize Nat.mul Nat.add Nat.sub Nat.min
                     skipn firstn adaptiveOffset recentMeasurements].
  rewrite Hsum. change (JS.sum []) with 0. cbn [INR].
  unfold learningRate.
  rewrite gtb_true.
  - split; [lra | reflexivity].
  - replace (1000 / (1 + 1 + 1 + 1 + 1 + 1 + 1 + 1 + 1 + 1)
             - 0 / (1 + 1 + 1 + 1 + 1 + 1 + 1 + 1 + 1 + 1)) with 100 by lra.
    rewrite Rabs_pos_eq; lra.
Qed.

Lemma adapt_repeatedly (n : nat) (l : t) :
  length (recentMeasurements l) = 10%nat ->
  JS.sum (recentMeasurements l) = 1000 ->
  adaptiveOffset (steps l (repeat Adapt n)) = adaptiveOffset l - 10 * INR n.
Proof.
  revert l. induction n as [| n IH]; intros l Hlen Hsum.
  - simpl. lra.
  - change (steps l (repeat Adapt (S n)))
      with (steps (updateAdaptiveCompensation l) (repeat Adapt n)).
    destruct (adapt_constant_window l Hlen Hsum) as [Ho Hm].
    rewrite IH by (rewrite Hm; assumption). rewrite Ho, S_INR. lra.
Qed.

Lemma constantError_window :
  adaptiveOffset (steps fresh constantError) = 0
  /\ length (recentMeasurements (steps fresh constantError)) = 10%nat
  /\ JS.sum (recentMeasurements (steps fresh constantError)) = 1000.
Proof.
  unfold constantError, fresh. simpl. unfold JS.sum. simpl.
  repeat split; lra.
Qed.

Lemma drift_after (n : nat) :
  adaptiveOffset (steps fresh (constantError ++ repeat Adapt n)) = - (10 * INR n).
Proof.
  unfold steps. rewrite fold_left_app. fold (steps fresh constantError).
  fold (steps (steps fresh constantError) (repeat Adapt n)).
  destruct constantError_window as [Ho [Hlen Hsum]].
  rewrite adapt_repeatedly by assumption. rewrite Ho. lra.
Qed.

Lemma skipn_length_app {A : Type} (a b : list A) : skipn (length a) (a ++ b) = b.
Proof. induction a as [| x a IH]; [reflexivity | exact IH]. Qed.

Lemma firstn_length_app {A : Type} (a b : list A) : firstn (length a) (a ++ b) = a.
Proof. induction a as [| x a IH]; [reflexivity | cbn; rewrite IH; reflexivity]. Qed.

(** The two windows [updateAdaptiveCompensation] averages: [slice(-50)]
    is the last 50 measurements (all of them when there are fewer), and
    [slice(-100, -50)] the up to 50 measurements before those. *)
Lemma adaptation_windows (older previous recent : list R) :
  length recent = Nat.min 50 (length (older ++ previous ++ recent)) ->
  length previous = Nat.min 50 (length (older ++ previous ++ recent) - 50) ->
  JS.slice_last windowSize (older ++ previous ++ recent) = recent
  /\ JS.slice_neg (windowSize * 2) windowSize (older ++ previous ++ recent) = previous.
Proof.
  intros Hr Hp. unfold JS.slice_last, JS.slice_neg, windowSize.
  change (50 * 2)%nat with 100%nat.
  rewrite !length_app in Hr, Hp. rewrite !length_app.
  split.
  - replace (length older + (length previous + length recent) - 50)%nat
      with (length (older ++ previous)) by (rewrite length_app; lia).
    rewrite app_assoc. apply skipn_length_app.
  - replace (length older + (length previous + length recent) - 100)%nat
      with (length older) by lia.
    replace (length older + (length previous + length recent) - 50 - length older)%nat
      with (length previous) by lia.
    rewrite skipn_length_app. apply firstn_length_app.
Qed.

(** C8 (as the code has it): no write of the adaptive offset is clamped.
    With fewer than ten measurements an adaptation does nothing.  With ten
    or more, the trend is the sum of the last 50 measurements (all of them
    when there are fewer) minus the sum of the up to 50 measurements before
    those, both divided by the size of the recent window; it is stored as
    the slope, and the offset moves by minus the trend times the learning
    rate 0.1 when the trend exceeds 5 ms in size and stays otherwise.
    Measurements and scheduling do not touch the offset; calibration sets it
    to minus the measured latency and emergency mode to -100 ms; and a run
    of adaptations over an unchanged window takes it below every bound. *)
Theorem C8_offset_is_not_clamped (l : t) (expectedTime actualTime delay : R)
        (callback : nat) :
  ((length (recentMeasurements l) < 10)%nat -> updateAdaptiveCompensation l = l)
  /\ (forall older previous recent : list R,
         recentMeasurements l = older ++ previous ++ recent ->
         (10 <= length (recentMeasurements l))%nat ->
         length recent = Nat.min 50 (length (recentMeasurements l)) ->
         length previous = Nat.min 50 (length (recentMeasurements l) - 50) ->
         let trend :=
           JS.sum recent / INR (length recent)
           - JS.sum previous / INR (length recent) in
         slope (updateAdaptiveCompensation l) = trend
         /\ (Rabs trend > 5 ->
             adaptiveOffset (updateAdaptiveCompensation l)
             = adaptiveOffset l - trend * 0.1)
         /\ (Rabs trend <= 5 ->
             adaptiveOffset (updateAdaptiveCompensation l) = adaptiveOffset l))
  /\ adaptiveOffset (recordTimingMeasurement expectedTime actualTime l) = adaptiveOffset l
  /\ adaptiveOffset (scheduleCompensatedEvent callback delay l) = adaptiveOffset l
  /\ adaptiveOffset (performLatencyCalibration l) = - totalLatency l
  /\ adaptiveOffset (enableEmergencyMode l) = -100
  /\ (forall bound : R, exists n : nat,
        adaptiveOffset (steps fresh (constantError ++ repeat Adapt n)) < - bound).
Proof.
  split; [| split; [| repeat split; try reflexivity]].
  - intros Hshort. unfold updateAdaptiveCompensation.
    apply Nat.ltb_lt in Hshort. rewrite Hshort. reflexivity.
  - intros older previous recent Hms Hlong Hr Hp. cbn zeta.
    unfold updateAdaptiveCompensation.
    assert (Hnot : (length (recentMeasurements l) <? 10)%nat = false)
      by (apply Nat.ltb_ge; exact Hlong).
    rewrite Hnot. cbn [slope adaptiveOffset].
    rewrite Hms in Hr, Hp. rewrite Hms.
    destruct (adaptation_windows older previous recent Hr Hp) as [Hrecent Hprevious].
    rewrite Hrecent, Hprevious.
    replace (Nat.min windowSize (length (older ++ previous ++ recent)))
      with (length recent) by (rewrite Hr; reflexivity).
    split; [reflexivity |]. unfold learningRate. split.
    + intros Hbig. rewrite gtb_true by lra. lra.
    + intros Hsmall. rewrite gtb_false by lra. reflexivity.
  - intros bound.
    exists (Z.to_nat (up (Rmax bound 0))).
    rewrite drift_after.
    pose proof (archimed (Rmax bound 0)) as [Hup _].
    pose proof (Rmax_l bound 0) as Hb. pose proof (Rmax_r bound 0) as H0.
    rewrite INR_IZR_INZ, Z2Nat.id.
    + lra.
    + apply le_IZR. lra.
Qed.

(** After ten measurements of +100 ms the recent window holds all ten, the
    previous window is empty, the trend is 100 ms and one adaptation moves
    the offset by -10 ms. *)
Lemma C8_offset_is_not_clamped_witness :
  let l := steps fresh constantError in
  slope (updateAdaptiveCompensation l) = 100
  /\ adaptiveOffset (updateAdaptiveCompensation l) = adaptiveOffset l - 100 * 0.1.
Proof.
  cbn zeta.
  destruct constantError_window as (_ & Hlen & Hsum).
  destruct (C8_offset_is_not_clamped (steps fresh constantError) 0 0 0 0%nat)
    as (_ & Hadapt & _).
  specialize (Hadapt [] [] (recentMeasurements (steps fresh constantError)) eq_refl).
  rewrite Hlen in Hadapt.
  specialize (Hadapt ltac:(lia) eq_refl eq_refl).
  cbn zeta in Hadapt. rewrite Hsum in Hadapt.
  change (JS.sum []) with 0 in Hadapt.
  replace (1000 / INR 10 - 0 / INR 10) with 100 in Hadapt
    by (rewrite INR_IZR_INZ; cbn [Z.of_nat Pos.of_succ_nat Pos.succ]; lra).
  destruct Hadapt as (Hslope & Hmove & _).
  split; [exact Hslope |].
  apply Hmove. rewrite Rabs_pos_eq; lra.
Defined.

(** C8, as stated: from a fresh compensator, calibration, ten measurements
    of +100 ms and thirty-one adaptation ticks leave the stored offset at
    -310 ms, outside +-300 ms. *)
Lemma C8_offset_runs_away :
  adaptiveOffset (steps fresh (constantError ++ repeat Adapt 31)) = -310
  /\ ~ (-300 <= adaptiveOffset (steps fresh (constantError ++ repeat Adapt 31)) <= 300).
Proof.
  rewrite drift_after. simpl INR. split; lra.
Qed.

End AdaptiveOffset.

(** ** Spectral centroid on silence *)

Section Centroid.

Import Spectrum Scenarios.




Lemma weighted_sums_denominator (weight : nat -> R) (data : list dB) (i : nat)
      (acc : R * R) :
  snd (weighted_sums weight i data acc) = snd acc + total_magnitude data.
Proof.
  revert i acc. induction data as [| s rest IH]; intros i acc.
  - unfold total_magnitude. simpl. lra.
  - simpl weighted_sums. rewrite IH, total_magnitude_cons. simpl. lra.
Qed.




(** When a frame carries signal both functions return the weighted mean. *)
Lemma centroid_of_signal (sampleRate : R) (data : list dB) :
  0 < total_magnitude data ->
  Director.calculateSpectralCentroid sampleRate data
  = fst (weighted_sums (fun i => INR i * (sampleRate / 2) / INR (length data)) 0 data (0, 0))
    / total_magnitude data
  /\ Particles.calculateSpectralCentroid data
     = fst (weighted_sums INR 0 data (0, 0)) / total_magnitude data.
Proof.
  intros H.
  unfold Director.calculateSpectralCentroid, Particles.calculateSpectralCentroid.
  rewrite !weighted_sums_denominator. cbn [snd].
  rewrite !gtb_true by lra. replace (0 + total_magnitude data) with (total_magnitude data) by lra.
  split; reflexivity.
Qed.




End Centroid.

(** ** Parameter sink adapter: change detection *)

Section SinkAdapter.

Import Integration Props.

Lemma forwardOne_changed (cur : Params) (calls : list SinkCall) (p : Param) (v : R) :
  cur p <> v ->
  forwardOne (cur, calls) (p, v) = (set p v cur, calls ++ [(p, v)]).
Proof.
  intros H. unfold forwardOne. apply strict_neq_spec in H. rewrite H. reflexivity.
Qed.

Lemma forwardOne_same (cur : Params) (calls : list SinkCall) (p : Param) (v : R) :
  cur p = v -> forwardOne (cur, calls) (p, v) = (cur, calls).
Proof.
  intros H. unfold forwardOne. rewrite H, strict_neq_refl. reflexivity.
Qed.

Lemma set_other (p q : Param) (v : R) (cur : Params) : q <> p -> set p v cur q = cur q.
Proof. intros H. unfold set. destruct (Param_eq_dec q p); [contradiction | reflexivity]. Qed.

Lemma set_same (p : Param) (v : R) (cur : Params) : set p v cur p = v.
Proof. unfold set. destruct (Param_eq_dec p p); [reflexivity | contradiction]. Qed.

(** The calls of a whole update are the entries that differ from what was
    remembered when the update began, in order, as long as no parameter is
    listed twice. *)
Lemma forward_calls (newParams : list (Param * R)) (cur : Params)
      (calls : list SinkCall) :
  NoDup (map fst newParams) ->
  snd (fold_left forwardOne newParams (cur, calls))
  = calls ++ filter (changed cur) newParams
  /\ (forall q, ~ In q (map fst newParams) ->
                fst (fold_left forwardOne newParams (cur, calls)) q = cur q)
  /\ (forall q v, In (q, v) newParams ->
                  fst (fold_left forwardOne newParams (cur, calls)) q = v).
Proof.
  revert cur calls. induction newParams as [| [p v] rest IH]; intros cur calls Hnd.
  - simpl. rewrite app_nil_r. repeat split; auto. intros q v [].
  - inversion Hnd as [| p' ps Hnotin Hrest]; subst.
    cbn [fold_left filter changed fst snd].
    assert (Hfilter : forall cur', (forall q, q <> p -> cur' q = cur q) ->
                                   filter (changed cur') rest = filter (changed cur) rest).
    { intros cur' Hc. apply filter_ext_in. intros [q w] Hq. unfold changed. simpl.
      rewrite Hc; [reflexivity |]. intros ->. apply Hnotin.
      apply in_map_iff. exists (p, w). split; [reflexivity | exact Hq]. }
    destruct (Req_dec_T (cur p) v) as [Heq | Hne].
    + rewrite forwardOne_same by exact Heq.
      destruct (IH cur calls Hrest) as [Hc [Hk Hv]].
      change (changed cur (p, v)) with (JS.strict_neq (cur p) v).
      rewrite Heq at 1. rewrite strict_neq_refl.
      split; [exact Hc |]. split.
      * intros q Hq. apply Hk. intros Hin. apply Hq. right. exact Hin.
      * intros q w [Hqw | Hqw].
        -- inversion Hqw; subst. rewrite Hk; [reflexivity | exact Hnotin].
        -- apply Hv. exact Hqw.
    + rewrite forwardOne_changed by exact Hne.
      destruct (IH (set p v cur) (calls ++ [(p, v)]) Hrest) as [Hc [Hk Hv]].
      assert (Hch : JS.strict_neq (cur p) v = true) by (apply strict_neq_spec; exact Hne).
      change (changed cur (p, v)) with (JS.strict_neq (cur p) v).
      rewrite Hch. split.
      * rewrite Hc, Hfilter by (intros q Hq; apply set_other; exact Hq).
        rewrite <- app_assoc. reflexivity.
      * split.
        -- intros q Hq. rewrite Hk by (intros Hin; apply Hq; right; exact Hin).
           apply set_other. intros ->. apply Hq. left. reflexivity.
        -- intros q w [Hqw | Hqw].
           ++ inversion Hqw; subst. rewrite Hk by exact Hnotin. apply set_same.
           ++ apply Hv. exact Hqw.
Qed.

(** C9 (as the code has it): the adapter compares with [!==] and knows no
    epsilon.  An update forwards exactly the entries whose value is not
    equal to the remembered one, in order, and remembers them; an entry
    whose value is equal to the remembered one causes no call and leaves the
    remembered value as it was; parameters not listed keep theirs. *)
Theorem C9_forward_on_strict_change (cur : Params) (newParams : list (Param * R)) :
  NoDup (map fst newParams) ->
  snd (updateVIB34DParameters cur newParams)
  = filter (fun entry => JS.strict_neq (cur (fst entry)) (snd entry)) newParams
  /\ (forall p v, In (p, v) newParams ->
        (cur p = v ->
         ~ In (p, v) (snd (updateVIB34DParameters cur newParams))
         /\ fst (updateVIB34DParameters cur newParams) p = cur p)
        /\ (cur p <> v ->
            In (p, v) (snd (updateVIB34DParameters cur newParams))
            /\ fst (updateVIB34DParameters cur newParams) p = v))
  /\ (forall q, ~ In q (map fst newParams) ->
        fst (updateVIB34DParameters cur newParams) q = cur q).
Proof.
  intros Hnd. unfold updateVIB34DParameters.
  destruct (forward_calls newParams cur [] Hnd) as [Hc [Hk Hv]].
  simpl in Hc. fold (changed cur) . split; [exact Hc |]. split; [| exact Hk].
  intros p v Hin. rewrite Hc. split.
  - intros Heq. split.
    + intros Hf. apply filter_In in Hf. destruct Hf as [_ Hf].
      unfold changed in Hf. simpl in Hf. rewrite Heq, strict_neq_refl in Hf. discriminate.
    + rewrite (Hv p v Hin). symmetry. exact Heq.
  - intros Hne. split.
    + apply filter_In. split; [exact Hin |]. unfold changed. simpl.
      apply strict_neq_spec. exact Hne.
    + apply (Hv p v Hin).
Qed.

Lemma coherent_parameters_keys (c : CoherenceState) (audioData : Analysis.AudioData) :
  map fst (calculateCoherentParameters c audioData)
  = [rot4dXW; rot4dYW; rot4dZW; gridDensity; morphFactor; chaos; speed; hue;
     intensity; saturation; geometry]
  /\ NoDup (map fst (calculateCoherentParameters c audioData)).
Proof.
  split; [reflexivity |]. simpl.
  repeat (constructor; [simpl; intuition discriminate |]). constructor.
Qed.

Lemma C9_forward_on_strict_change_witness :
  NoDup (map fst [(morphFactor, 0.5); (speed, 2)])
  /\ snd (updateVIB34DParameters initialParams [(morphFactor, 0.5); (speed, 2)])
     = filter (fun entry => JS.strict_neq (initialParams (fst entry)) (snd entry))
              [(morphFactor, 0.5); (speed, 2)].
Proof.
  assert (H : NoDup (map fst [(morphFactor, 0.5); (speed, 2)])).
  { simpl. repeat (constructor; [simpl; intuition discriminate |]). constructor. }
  split; [exact H |].
  apply (C9_forward_on_strict_change initialParams [(morphFactor, 0.5); (speed, 2)] H).
Defined.

(** C9, as stated: there is no epsilon.  A morph factor that moves from the
    remembered 0.5 to 0.5000001 is forwarded, and so is, for every positive
    epsilon, some value within epsilon of the remembered one. *)
Lemma C9_no_epsilon :
  snd (updateVIB34DParameters initialParams [(morphFactor, 0.5000001)])
  = [(morphFactor, 0.5000001)]
  /\ ~ (exists eps : R,
          0 < eps /\
          forall (cur : Params) (p : Param) (v : R),
            Rabs (v - cur p) <= eps -> snd (updateVIB34DParameters cur [(p, v)]) = []).
Proof.
  split.
  - unfold updateVIB34DParameters. cbn [fold_left]. rewrite forwardOne_changed.
    + reflexivity.
    + simpl. lra.
  - intros [eps [Hpos H]].
    specialize (H initialParams morphFactor (0.5 + eps)).
    unfold updateVIB34DParameters in H. cbn [fold_left] in H.
    rewrite forwardOne_changed in H by (simpl; lra).
    simpl in H. rewrite Rabs_pos_eq in H by lra.
    assert (Hle : 0.5 + eps - 0.5 <= eps) by lra.
    specialize (H Hle). discriminate.
Qed.

End SinkAdapter.

(** ** Parameter ranges *)

Section ParameterRanges.

Import Integration Props Scenarios.

Lemma sqrt3_above (x : R) : x = sqrt 3 -> 3 / 2 < x.
Proof.
  intros ->. pose proof (sqrt_sqrt 3 ltac:(lra)) as H. pose proof (sqrt_pos 3) as Hp.
  destruct (Rlt_le_dec (3 / 2) (sqrt 3)) as [Hlt | Hle]; [exact Hlt | nra].
Qed.

(** 187 ms into a 500 ms beat the first harmonic phase is 1.496 pi, between
    4 pi / 3 and 3 pi / 2, where the sine is below -3/4. *)
Lemma sin_first_harmonic : sin (187 / (60000 / 120) * PI * 2 * 2) < - (3 / 4).
Proof.
  pose proof PI_RGT_0 as Hpi.
  replace (187 / (60000 / 120) * PI * 2 * 2) with (187 / 125 * PI) by lra.
  assert (H43 : sin (PI / 3 + PI) = - (sqrt 3 / 2)) by (rewrite neg_sin, sin_PI3; reflexivity).
  assert (Hmono : sin (187 / 125 * PI) <= sin (PI / 3 + PI)).
  { apply sin_decr_1; lra. }
  pose proof (sqrt3_above (sqrt 3) eq_refl). lra.
Qed.

Lemma floor_bounds (x : R) : JS.floor x <= x < JS.floor x + 1.
Proof. unfold JS.floor. pose proof (base_Int_part x). lra. Qed.

Lemma floor_nonneg (x : R) : 0 <= x -> 0 <= JS.floor x.
Proof.
  intros H. pose proof (floor_bounds x) as [_ Hu]. unfold JS.floor in *.
  apply IZR_le. apply Z.lt_succ_r. apply lt_IZR. rewrite succ_IZR. lra.
Qed.

(** The parameters the adapter clamps are within their ranges for every
    coherence state: grid density and speed always, chaos and geometry as
    soon as the complexity score is not negative. *)
Lemma clamped_parameters_in_range (c : CoherenceState) (audioData : Analysis.AudioData)
      (p : Param) (v : R) :
  In (p, v) (calculateCoherentParameters c audioData) ->
  (p = gridDensity \/ p = speed
   \/ (0 <= Analysis.complexityScore audioData /\ (p = chaos \/ p = geometry))) ->
  inRange p v.
Proof.
  intros Hin Hp. unfold calculateCoherentParameters in Hin. simpl in Hin.
  assert (Hcs : 0 <= Analysis.complexityScore audioData ->
                0 <= JS.or_default (Analysis.complexityScore audioData) 0.5).
  { intros H. unfold JS.or_default. destruct (Req_dec_T _ 0); lra. }
  repeat (destruct Hin as [Hin | Hin];
          [inversion Hin; subst; clear Hin
          | ]); try contradiction;
    destruct Hp as [Hp | [Hp | [Hc [Hp | Hp]]]]; try discriminate; simpl.
  - unfold Rmax, Rmin. repeat destruct (Rle_dec _ _); lra.
  - specialize (Hcs Hc). unfold Rmin. destruct (Rle_dec _ _); lra.
  - unfold Rmax, Rmin. repeat destruct (Rle_dec _ _); lra.
  - set (x := Rmin 8 (JS.or_default (Analysis.complexityScore audioData) 0.5 * 8)).
    assert (Hx : 0 <= x <= 8).
    { unfold x. specialize (Hcs Hc). unfold Rmin. destruct (Rle_dec _ _); lra. }
    pose proof (floor_bounds x) as [Hl _]. pose proof (floor_nonneg x (proj1 Hx)).
    split; [lra |]. exists (Int_part x). reflexivity.
Qed.

Lemma clamped_parameters_in_range_witness :
  inRange gridDensity (Rmax 5 (Rmin 100 (30 + 0 * 50)))
  /\ inRange geometry (JS.floor (Rmin 8 (JS.or_default 0.5 0.5 * 8))).
Proof.
  split.
  - apply (clamped_parameters_in_range initialCoherence quietAnalysis).
    + simpl. tauto.
    + left. reflexivity.
  - apply (clamped_parameters_in_range initialCoherence quietAnalysis).
    + simpl. tauto.
    + right. right. split; [simpl; lra | right; reflexivity].
Defined.

(** C3: on a silent frame read 187 ms after a beat at the initial tempo the
    adapter forwards a morph factor of [0.3 + 0.4 sin(1.496 pi)], which is
    negative and so outside the documented range [0, 1]. *)
Theorem C3_morph_factor_below_range :
  let c := updateCoherenceState quietAnalysis shortlyAfterBeat in
  let calls :=
    snd (updateVIB34DParameters initialParams (calculateCoherentParameters c quietAnalysis)) in
  exists v : R,
    Props.forwarded calls morphFactor v /\ v < 0 /\ ~ inRange morphFactor v.
Proof.
  cbn zeta.
  remember (updateCoherenceState quietAnalysis shortlyAfterBeat) as c eqn:Hcoh.
  exists (0.3 + sin (fst (fst (harmonicPhases c))) * 0.4).
  assert (Hneg : 0.3 + sin (fst (fst (harmonicPhases c))) * 0.4 < 0).
  { rewrite Hcoh.
    cbn [updateCoherenceState harmonicPhases fst Director.infoTimeSinceLastBeat
         Director.bpm shortlyAfterBeat].
    pose proof sin_first_harmonic as H. lra. }
  split; [| split; [exact Hneg | simpl; lra]].
  unfold Props.forwarded.
  destruct (coherent_parameters_keys c quietAnalysis) as [_ Hnd].
  destruct (forward_calls _ initialParams [] Hnd) as [Hc _].
  unfold updateVIB34DParameters. rewrite Hc. cbn [app].
  apply filter_In. split.
  - unfold calculateCoherentParameters. simpl. tauto.
  - unfold changed. cbn [fst snd initialParams]. apply strict_neq_spec. lra.
Qed.

(** With a total energy of 2 and a mid energy of 4, read on the beat, the
    forwarded intensity is 1.6, the saturation 1.4 and the YW rotation 8:
    all outside their ranges. *)
Lemma energy_driven_parameters_leave_range :
  let c := updateCoherenceState loudAnalysis onTheBeat in
  In (intensity, 1.6) (calculateCoherentParameters c loudAnalysis)
  /\ In (saturation, 1.4) (calculateCoherentParameters c loudAnalysis)
  /\ In (rot4dYW, 8) (calculateCoherentParameters c loudAnalysis)
  /\ ~ inRange intensity 1.6 /\ ~ inRange saturation 1.4 /\ ~ inRange rot4dYW 8.
Proof.
  cbn zeta. unfold calculateCoherentParameters.
  cbn [updateCoherenceState beatPhase energyLevels total mid bass treble harmonicPhases
       loudAnalysis onTheBeat Analysis.totalEnergy Analysis.midEnergy
       Analysis.bassEnergy Analysis.trebleEnergy Director.infoTimeSinceLastBeat
       Director.bpm].
  rewrite !or_default_same.
  replace (0 / (60000 / 120) * PI * 2 * 1.5) with 0 by lra. rewrite cos_0.
  repeat split; try (simpl; lra).
  - do 8 right. left. f_equal. lra.
  - do 9 right. left. f_equal. lra.
  - right. left. f_equal. lra.
Qed.

(** A spectral centroid of 6.875 Hz, six octaves below 440 Hz (signal almost
    only in the lowest bins), gives a hue of -0.1: the remainder keeps the
    sign of the dividend. *)
Lemma hue_negative_for_low_centroid (c : CoherenceState) (audioData : Analysis.AudioData) :
  spectralCentroid c = 6.875 ->
  In (hue, -0.1) (calculateCoherentParameters c audioData) /\ ~ inRange hue (-0.1).
Proof.
  intros Hc. split; [| simpl; lra].
  unfold calculateCoherentParameters. do 7 right. left. f_equal.
  rewrite Hc. unfold JS.log2.
  replace (6.875 / 440) with (/ 2 ^ 6) by (simpl; lra).
  rewrite ln_Rinv by (simpl; lra). rewrite ln_pow by lra.
  pose proof ln_lt_2 as Hln.
  replace (- (INR 6 * ln 2) / ln 2) with (-6)
    by (change (INR 6) with (1 + 1 + 1 + 1 + 1 + 1); field; lra).
  replace (-6 * 0.1 + 0.5) with (-0.1) by lra.
  unfold JS.rem, JS.trunc, JS.floor.
  destruct (Rle_dec 0 (-0.1 / 1)) as [Hle | _]; [lra |].
  replace (- (-0.1 / 1)) with 0.1 by lra.
  rewrite <- (Int_part_spec 0.1 0) by (simpl; lra). simpl. lra.
Qed.

End ParameterRanges.

(** ** Replaying recorded frames *)

Section Replay.

Import Spectrum Pipeline Scenarios.

(** One cycle's director and coherence state are functions of the director
    before it, the frame and the two clock readings: the sink memory and the
    random number do not enter. *)
Lemma updateCycle_coherence (sampleRate : R) (p1 p2 : t) (e1 e2 : Environment)
      (frame : list dB) :
  director p1 = director p2 ->
  clocks e1 = clocks e2 ->
  director (updateCycle sampleRate p1 (e1, frame))
  = director (updateCycle sampleRate p2 (e2, frame))
  /\ coherenceState (updateCycle sampleRate p1 (e1, frame))
     = coherenceState (updateCycle sampleRate p2 (e2, frame)).
Proof.
  intros Hd Hc. unfold clocks in Hc. injection Hc as Hc1 Hc2.
  unfold updateCycle. rewrite Hd, Hc1, Hc2.
  destruct (Analysis.getCurrentAnalysis sampleRate (clockDetectBeat e2) frame (director p2))
    as [d audioData].
  destruct (Integration.updateVIB34DParameters (currentParams p1) _) as [cur1 calls1].
  destruct (Integration.updateVIB34DParameters (currentParams p2) _) as [cur2 calls2].
  split; reflexivity.
Qed.

Lemma coherenceTrace_deterministic (sampleRate : R) (frames : list (list dB))
      (envs1 envs2 : list Environment) (p1 p2 : t) :
  director p1 = director p2 ->
  map clocks envs1 = map clocks envs2 ->
  coherenceTrace sampleRate p1 (combine envs1 frames)
  = coherenceTrace sampleRate p2 (combine envs2 frames).
Proof.
  revert frames envs2 p1 p2.
  induction envs1 as [| e1 rest1 IH]; intros frames envs2 p1 p2 Hd Hc;
    destruct envs2 as [| e2 rest2]; try discriminate.
  - reflexivity.
  - destruct frames as [| frame frames]; [reflexivity |].
    cbn [map] in Hc.
    assert (Hhead : clocks e1 = clocks e2) by congruence.
    assert (Hrest : map clocks rest1 = map clocks rest2) by congruence.
    clear Hc. rename Hhead into Hc.
    cbn [combine coherenceTrace].
    destruct (updateCycle_coherence sampleRate p1 p2 e1 e2 frame Hd Hc) as [Hd' Hs].
    rewrite Hs. f_equal. apply IH; assumption.
Qed.

(** C4 (as the code has it): a replay is determined by the frames together
    with the values the clock returns while they are analysed.  Two fresh
    pipelines fed the same frames and the same clock readings produce the
    same coherence states, whatever random numbers they draw. *)
Theorem C4_replay_deterministic_given_clock (sampleRate : R) (frames : list (list dB))
        (envs1 envs2 : list Environment) :
  map clocks envs1 = map clocks envs2 ->
  replay sampleRate envs1 frames = replay sampleRate envs2 frames.
Proof.
  intros H. unfold replay. apply coherenceTrace_deterministic; [reflexivity | exact H].
Qed.

Lemma C4_replay_deterministic_given_clock_witness :
  let envs1 := [{| clockDetectBeat := 16; clockBeatInfo := 17; random := 0.1 |}] in
  let envs2 := [{| clockDetectBeat := 16; clockBeatInfo := 17; random := 0.9 |}] in
  map clocks envs1 = map clocks envs2
  /\ replay 44100 envs1 [silentFrame] = replay 44100 envs2 [silentFrame].
Proof.
  cbn zeta. split; [reflexivity |].
  apply C4_replay_deterministic_given_clock. reflexivity.
Defined.

Lemma replay_single (sampleRate : R) (env : Environment) (frame : list dB) :
  replay sampleRate [env] [frame]
  = [coherenceState (updateCycle sampleRate fresh (env, frame))].
Proof. reflexivity. Qed.

(** The beat phase a fresh pipeline computes on its first frame. *)
Lemma first_cycle_phase (sampleRate : R) (env : Environment) (frame : list dB) :
  Integration.beatPhase (coherenceState (updateCycle sampleRate fresh (env, frame)))
  = (clockBeatInfo env - 0) / (60000 / 120) * PI * 2.
Proof.
  unfold updateCycle, Analysis.getCurrentAnalysis, Director.detectBeat.
  cbn [fresh director Director.fresh Director.energyHistory JS.push_capped app length
       Nat.ltb Nat.leb].
  destruct (Integration.updateVIB34DParameters _ _) as [cur calls].
  reflexivity.
Qed.

(** C4, as stated: the same recorded frame replayed through two fresh
    pipelines, once with the clock at 500 ms and once at 1000 ms, gives
    coherence states that differ (beat phases 2 pi and 4 pi). *)
Lemma C4_replay_depends_on_clock :
  let early := {| clockDetectBeat := 500; clockBeatInfo := 500; random := 0 |} in
  let late := {| clockDetectBeat := 1000; clockBeatInfo := 1000; random := 0 |} in
  replay 44100 [early] [silentFrame] <> replay 44100 [late] [silentFrame].
Proof.
  cbn zeta. rewrite !replay_single. intros H.
  apply (f_equal (fun trace => Integration.beatPhase (hd Integration.initialCoherence trace)))
    in H.
  cbv beta in H. cbn [hd] in H.
  rewrite !first_cycle_phase in H. cbn [clockBeatInfo] in H.
  pose proof PI_RGT_0. lra.
Qed.

End Replay.

(** * Further properties of the code *)

(** ** Bounded buffers, comparisons and sums of squares *)

Lemma push_capped_length {A : Type} (cap : nat) (xs : list A) (x : A) :
  (length xs <= cap)%nat ->
  length (JS.push_capped cap xs x) = Nat.min cap (S (length xs)).
Proof.
  intros H. unfold JS.push_capped.
  destruct (Nat.ltb_spec cap (length (xs ++ [x]))) as [Hfull | Hroom];
    rewrite length_app in *; cbn [length] in *.
  - destruct xs as [| a xs']; cbn [app tl length] in *.
    + lia.
    + rewrite length_app. cbn [length]. lia.
  - lia.
Qed.

Lemma div_nonneg (a b : R) : 0 <= a -> 0 <= b -> 0 <= a / b.
Proof.
  intros Ha Hb. destruct (Req_dec_T b 0) as [-> | Hne].
  - unfold Rdiv. rewrite Rinv_0. lra.
  - apply Rmult_le_pos; [exact Ha |]. apply Rlt_le, Rinv_0_lt_compat. lra.
Qed.

Lemma squares_sum_nonneg {A : Type} (value : A -> R) (mean : R) (xs : list A) (acc : R) :
  0 <= acc -> 0 <= fold_left (fun sum x => sum + (value x - mean) ^ 2) xs acc.
Proof.
  revert acc. induction xs as [| x xs IH]; intros acc H; cbn [fold_left].
  - exact H.
  - apply IH. pose proof (pow2_ge_0 (value x - mean)). lra.
Qed.

Lemma leb_true (a b : R) : a <= b -> Num.leb a b = true.
Proof. intros H. unfold Num.leb. destruct (Rle_dec a b); [reflexivity | contradiction]. Qed.

Lemma leb_false (a b : R) : b < a -> Num.leb a b = false.
Proof. intros H. unfold Num.leb. destruct (Rle_dec a b); [lra | reflexivity]. Qed.

Lemma leb_spec (a b : R) : Num.leb a b = true <-> a <= b.
Proof.
  unfold Num.leb. destruct (Rle_dec a b); split; intros; try assumption;
    try reflexivity; try discriminate; contradiction.
Qed.

Lemma geb_spec (a b : R) : Num.geb a b = true <-> b <= a.
Proof.
  unfold Num.geb. destruct (Rle_dec b a); split; intros; try assumption;
    try reflexivity; try discriminate; contradiction.
Qed.

(** ** Beat tracker: history buffers and warm-up *)

Section HistoryBuffers.
Import Director.

Lemma detectBeat_energyHistory (now : R) (data : list Spectrum.dB) (d : t) :
  energyHistory (fst (detectBeat now data d))
  = JS.push_capped 50 (energyHistory d)
                   {| time := now; energy := calculateTotalEnergy data |}.
Proof.
  unfold detectBeat.
  destruct (10 <? _)%nat; [| reflexivity].
  destruct (_ && _); reflexivity.
Qed.

Lemma calculateTempo_energyHistory (d : t) :
  energyHistory (fst (calculateTempo d)) = energyHistory d.
Proof. unfold calculateTempo. destruct (_ <? 4)%nat; reflexivity. Qed.

Lemma run_buffers (frames : list (R * list Spectrum.dB)) (d : t) :
  (length (energyHistory d) <= 50)%nat ->
  (length (beatHistory d) <= 20)%nat ->
  length (energyHistory (fst (run d frames)))
  = Nat.min 50 (length (energyHistory d) + length frames)
  /\ (length (beatHistory (fst (run d frames))) <= 20)%nat.
Proof.
  revert d. induction frames as [| [now data] rest IH]; intros d He Hb.
  - cbn [run fst length]. split; [lia | exact Hb].
  - rewrite run_state_cons.
    pose proof (detectBeat_energyHistory now data d) as Hpush.
    pose proof (push_capped_length 50 (energyHistory d)
                  {| time := now; energy := calculateTotalEnergy data |} He) as Hlen.
    destruct (detectBeat_cases now data d) as [_ Hcases].
    pose proof (calculateTempo_energyHistory (fst (detectBeat now data d))) as Hte.
    destruct (calculateTempo_beat_state (fst (detectBeat now data d))) as [_ Htb].
    assert (Hb' : (length (beatHistory (fst (calculateTempo (fst (detectBeat now data d)))))
                   <= 20)%nat).
    { rewrite Htb.
      destruct Hcases as [[_ [_ [_ Hh]]] | [_ [_ Hh]]]; rewrite Hh; [| exact Hb].
      rewrite push_capped_length by exact Hb. lia. }
    assert (He' : length (energyHistory (fst (calculateTempo (fst (detectBeat now data d)))))
                  = Nat.min 50 (S (length (energyHistory d)))).
    { rewrite Hte, Hpush. exact Hlen. }
    assert (Hle : (length (energyHistory (fst (calculateTempo (fst (detectBeat now data d)))))
                   <= 50)%nat) by lia.
    destruct (IH _ Hle Hb') as [IHe IHb].
    split; [| exact IHb].
    rewrite IHe, He'. cbn [length]. lia.
Qed.

(** X3: on every run from a fresh tracker the energy history holds
    [min(50, n)] samples after [n] frames, and the beat history never
    holds more than 20 beats. *)
Theorem history_buffers_bounded (frames : list (R * list Spectrum.dB)) :
  length (energyHistory (fst (run fresh frames))) = Nat.min 50 (length frames)
  /\ (length (beatHistory (fst (run fresh frames))) <= 20)%nat.
Proof.
  destruct (run_buffers frames fresh) as [He Hb]; cbn [fresh energyHistory beatHistory length];
    try lia.
  split; [exact He | exact Hb].
Qed.

End HistoryBuffers.

Section WarmUp.
Import Director.

Lemma run_trace_cons (d : t) (now : R) (data : list Spectrum.dB)
      (rest : list (R * list Spectrum.dB)) :
  snd (run d ((now, data) :: rest))
  = (now, snd (detectBeat now data d))
      :: snd (run (fst (calculateTempo (fst (detectBeat now data d)))) rest).
Proof.
  cbn [run]. unfold analyseRhythm.
  destruct (detectBeat now data d) as [d1 b]; cbn [fst snd].
  destruct (calculateTempo d1) as [d2 tempo]; cbn [fst snd].
  destruct (run d2 rest); reflexivity.
Qed.

Lemma detectBeat_warming_up (now : R) (data : list Spectrum.dB) (d : t) :
  (length (energyHistory d) < 10)%nat ->
  detected (snd (detectBeat now data d)) = false.
Proof.
  intros H. unfold detectBeat.
  pose proof (push_capped_length 50 (energyHistory d)
                {| time := now; energy := calculateTotalEnergy data |} ltac:(lia)) as Hlen.
  destruct (Nat.ltb_spec 10 (length (JS.push_capped 50 (energyHistory d)
                {| time := now; energy := calculateTotalEnergy data |}))) as [Hlt | _].
  - lia.
  - reflexivity.
Qed.

Lemma run_warming_up (frames : list (R * list Spectrum.dB)) (d : t) :
  Forall (fun o => detected (snd o) = false)
         (firstn (10 - length (energyHistory d)) (snd (run d frames))).
Proof.
  revert d. induction frames as [| [now data] rest IH]; intros d.
  - cbn [run snd]. rewrite firstn_nil. constructor.
  - rewrite run_trace_cons.
    destruct (Nat.lt_ge_cases (length (energyHistory d)) 10) as [Hlt | Hge].
    + replace (10 - length (energyHistory d))%nat
        with (S (10 - S (length (energyHistory d))))%nat by lia.
      rewrite firstn_cons. constructor.
      * cbn [snd]. apply detectBeat_warming_up. exact Hlt.
      * specialize (IH (fst (calculateTempo (fst (detectBeat now data d))))).
        rewrite calculateTempo_energyHistory, detectBeat_energyHistory in IH.
        rewrite push_capped_length in IH by lia.
        replace (Nat.min 50 (S (length (energyHistory d))))
          with (S (length (energyHistory d))) in IH by lia.
        exact IH.
    + replace (10 - length (energyHistory d))%nat with 0%nat by lia.
      constructor.
Qed.

(** X4: a fresh tracker needs more than ten energy samples before it
    compares a frame with the recent average, so none of the first ten
    frames of a run is reported as a beat, however loud it is. *)
Theorem no_beat_in_first_ten_frames (frames : list (R * list Spectrum.dB)) :
  Forall (fun o => detected (snd o) = false) (firstn 10 (snd (run fresh frames))).
Proof. exact (run_warming_up frames fresh). Qed.

End WarmUp.

(** ** Pitch detection *)

Section Autocorrelation.
Import Pitch.

(** Sums over index lists, as the loops accumulate them. *)
Lemma index_sum_acc (f : nat -> R) (l : list nat) (a : R) :
  fold_left (fun acc i => acc + f i) l a
  = a + fold_left (fun acc i => acc + f i) l 0.
Proof.
  revert a. induction l as [| i l IH]; intros a; cbn [fold_left].
  - lra.
  - rewrite (IH (a + f i)), (IH (0 + f i)). lra.
Qed.

Lemma index_sum_le (f g : nat -> R) (l : list nat) :
  (forall i, f i <= g i) ->
  fold_left (fun acc i => acc + f i) l 0 <= fold_left (fun acc i => acc + g i) l 0.
Proof.
  intros H. induction l as [| i l IH]; cbn [fold_left].
  - lra.
  - rewrite (index_sum_acc f l (0 + f i)), (index_sum_acc g l (0 + g i)).
    specialize (H i). lra.
Qed.

Lemma index_sum_nonneg (f : nat -> R) (l : list nat) :
  (forall i, 0 <= f i) -> 0 <= fold_left (fun acc i => acc + f i) l 0.
Proof.
  intros H. induction l as [| i l IH]; cbn [fold_left].
  - lra.
  - rewrite (index_sum_acc f l (0 + f i)). specialize (H i). lra.
Qed.

Lemma index_sum_app (f : nat -> R) (l1 l2 : list nat) :
  fold_left (fun acc i => acc + f i) (l1 ++ l2) 0
  = fold_left (fun acc i => acc + f i) l1 0 + fold_left (fun acc i => acc + f i) l2 0.
Proof. rewrite fold_left_app. apply index_sum_acc. Qed.

Lemma index_sum_half (f g : nat -> R) (l : list nat) :
  fold_left (fun acc i => acc + (f i + g i) / 2) l 0
  = (fold_left (fun acc i => acc + f i) l 0 + fold_left (fun acc i => acc + g i) l 0) / 2.
Proof.
  induction l as [| i l IH]; cbn [fold_left].
  - lra.
  - rewrite (index_sum_acc _ l (0 + (f i + g i) / 2)), (index_sum_acc f l (0 + f i)),
      (index_sum_acc g l (0 + g i)), IH. lra.
Qed.

Lemma index_sum_shift (f : nat -> R) (k m : nat) :
  fold_left (fun acc i => acc + f (i + k)%nat) (seq 0 m) 0
  = fold_left (fun acc i => acc + f i) (seq k m) 0.
Proof.
  induction m as [| m IH].
  - reflexivity.
  - rewrite !seq_S, !index_sum_app, IH. cbn [fold_left].
    replace (0 + m)%nat with m by lia. replace (k + m)%nat with (m + k)%nat by lia.
    reflexivity.
Qed.

Lemma index_sum_prefix (f : nat -> R) (m n : nat) :
  (forall i, 0 <= f i) -> (m <= n)%nat ->
  fold_left (fun acc i => acc + f i) (seq 0 m) 0
  <= fold_left (fun acc i => acc + f i) (seq 0 n) 0.
Proof.
  intros Hf Hmn. replace n with (m + (n - m))%nat by lia.
  rewrite seq_app, index_sum_app.
  pose proof (index_sum_nonneg f (seq (0 + m) (n - m)) Hf). lra.
Qed.

Lemma index_sum_window (f : nat -> R) (k m n : nat) :
  (forall i, 0 <= f i) -> (k + m <= n)%nat ->
  fold_left (fun acc i => acc + f i) (seq k m) 0
  <= fold_left (fun acc i => acc + f i) (seq 0 n) 0.
Proof.
  intros Hf Hkm.
  apply Rle_trans with (fold_left (fun acc i => acc + f i) (seq 0 (k + m)) 0).
  - rewrite seq_app, index_sum_app. cbn [Nat.add].
    pose proof (index_sum_nonneg f (seq 0 k) Hf). lra.
  - apply index_sum_prefix; assumption.
Qed.

(** No offset correlates better than offset 0, whose correlation is the
    sum of the squares of the samples. *)
Lemma correlation_le_zero_offset (buffer : list R) (offset : nat) :
  correlation buffer offset <= correlation buffer 0.
Proof.
  set (sq := fun i => nth i buffer 0 * nth (i + 0) buffer 0).
  assert (Hsq : forall i, 0 <= sq i).
  { intros i. unfold sq. rewrite Nat.add_0_r. nra. }
  change (correlation buffer 0)
    with (fold_left (fun acc i => acc + sq i) (seq 0 (length buffer - 0)) 0).
  rewrite Nat.sub_0_r. unfold correlation.
  apply Rle_trans
    with (fold_left (fun acc i => acc + (sq i + sq (i + offset)%nat) / 2)
                    (seq 0 (length buffer - offset)) 0).
  - apply index_sum_le. intros i. unfold sq. rewrite !Nat.add_0_r.
    pose proof (pow2_ge_0 (nth i buffer 0 - nth (i + offset) buffer 0)). nra.
  - rewrite (index_sum_half sq (fun i => sq (i + offset)%nat)).
    rewrite (index_sum_shift sq offset).
    pose proof (index_sum_prefix sq (length buffer - offset) (length buffer) Hsq
                  ltac:(lia)).
    destruct (Nat.le_gt_cases offset (length buffer)) as [Hin | Hout].
    + pose proof (index_sum_window sq offset (length buffer - offset) (length buffer)
                    Hsq ltac:(lia)).
      lra.
    + replace (length buffer - offset)%nat with 0%nat in * by lia.
      cbn [seq fold_left] in *. lra.
Qed.

(** While the best correlation is at least the one at offset 0, the loop
    keeps its best offset. *)
Lemma consider_keeps_best (buffer : list R) (visited : list nat) (best : nat * R) :
  correlation buffer 0 <= snd best ->
  fold_left (consider buffer) visited best = best.
Proof.
  revert best. induction visited as [| offset rest IH]; intros best H; cbn [fold_left].
  - reflexivity.
  - unfold consider at 2.
    rewrite gtb_false
      by (pose proof (correlation_le_zero_offset buffer offset); lra).
    apply IH. exact H.
Qed.

(** X5: over the reals [autocorrelate] returns offset 0 for every buffer.
    The loop starts at offset 0, whose correlation is the sum of the
    squares, and replaces the best offset only on a strictly greater
    correlation, which no other offset reaches.  [detectPitch] divides
    the sample rate by this result. *)
Theorem autocorrelate_returns_zero (buffer : list R) : autocorrelate buffer = 0%nat.
Proof.
  unfold autocorrelate, offsets.
  destruct (Nat.div2 (S (length buffer))) as [| n]; [reflexivity |].
  cbn [seq fold_left]. unfold consider at 2. cbn [snd].
  destruct (JS.gtb (correlation buffer 0) 0) eqn:Hpos.
  - rewrite consider_keeps_best by (cbn [snd]; lra). reflexivity.
  - rewrite consider_keeps_best; [reflexivity |].
    cbn [snd]. destruct (Rle_or_lt (correlation buffer 0) 0) as [Hle | Hlt];
      [exact Hle |].
    rewrite gtb_true in Hpos by exact Hlt. discriminate.
Qed.

End Autocorrelation.

(** ** Silence: the centroid defaults and the pitch that is not finite *)

Section Silence.

Import Spectrum Scenarios.






End Silence.

(** ** Complexity score *)

Section Complexity.
Import Director Analysis.

Lemma rhythm_complexity_unit (d : t) : 0 <= analyzeRhythmComplexity d <= 1.
Proof.
  unfold analyzeRhythmComplexity. destruct (_ <? 4)%nat; [lra |].
  match goal with |- 0 <= Rmin 1.0 (?v / 10000) <= 1 => assert (Hv : 0 <= v) end.
  { apply div_nonneg; [| apply pos_INR].
    apply (squares_sum_nonneg (fun x => x)). lra. }
  unfold Rmin. destruct (Rle_dec _ _); lra.
Qed.

Lemma energy_variance_nonneg (d : t) : 0 <= calculateEnergyVariance d.
Proof.
  unfold calculateEnergyVariance. destruct (_ <? 10)%nat; [lra |].
  apply div_nonneg; [| apply pos_INR].
  apply (squares_sum_nonneg (fun x => x)). lra.
Qed.

Lemma active_bands_at_most_seven (sampleRate : R) (data : list Spectrum.dB) :
  0 <= INR (length (filter (fun e => JS.gtb e 0.1)
                           (analyzeFrequencyBands sampleRate data))) <= 7.
Proof.
  split; [apply pos_INR |].
  replace 7 with (INR 7) by (simpl; lra). apply le_INR.
  etransitivity; [apply filter_length_le |].
  unfold analyzeFrequencyBands. rewrite length_map. cbn [length]. lia.
Qed.

Lemma audio_complexity_bounds (sampleRate : R) (data : list Spectrum.dB) (d : t) :
  0.1 <= calculateAudioComplexity sampleRate data d <= 1.
Proof.
  unfold calculateAudioComplexity.
  pose proof (active_bands_at_most_seven sampleRate data) as Hs.
  pose proof (rhythm_complexity_unit d) as Hr.
  pose proof (energy_variance_nonneg d) as He.
  set (s := INR (length _)) in *.
  set (r := analyzeRhythmComplexity d) in *.
  set (v := calculateEnergyVariance d) in *.
  assert (Hd : 0 <= Rmin 1.0 (v / 0.1) <= 1).
  { unfold Rmin. destruct (Rle_dec _ _); lra. }
  set (dyn := Rmin 1.0 (v / 0.1)) in *.
  unfold Rmax, Rmin. repeat destruct (Rle_dec _ _); lra.
Qed.

(** X6: the complexity score lies between 0.1 and 1 for every frame and
    every tracker state (the upper clamp at 2.0 is never reached, since
    each of the three averaged terms is at most 1), and the rhythm
    complexity lies between 0 and 1. *)
Theorem complexity_score_between_tenth_and_one
        (sampleRate : R) (data : list Spectrum.dB) (d : t) :
  0.1 <= calculateAudioComplexity sampleRate data d <= 1
  /\ 0 <= analyzeRhythmComplexity d <= 1.
Proof. split; [apply audio_complexity_bounds | apply rhythm_complexity_unit]. Qed.

End Complexity.

(** ** Clamped parameters on every run of the integration loop *)

Section PipelineRanges.
Import Integration Pipeline.

Lemma forwarded_entries (newParams : list (Param * R)) (cur : Params)
      (calls : list SinkCall) (call : SinkCall) :
  In call (snd (fold_left forwardOne newParams (cur, calls))) ->
  In call calls \/ In call newParams.
Proof.
  revert cur calls. induction newParams as [| [p v] rest IH]; intros cur calls H.
  - left. exact H.
  - cbn [fold_left] in H. unfold forwardOne at 2 in H.
    destruct (JS.strict_neq (cur p) v).
    + apply IH in H. destruct H as [H | H].
      * apply in_app_or in H. destruct H as [H | [H | []]].
        -- left. exact H.
        -- right. left. exact H.
      * right. right. exact H.
    + apply IH in H. destruct H as [H | H]; [left | right; right]; exact H.
Qed.

Lemma coherent_clamped_in_range (c : CoherenceState) (audioData : Analysis.AudioData)
      (p : Param) (v : R) :
  0.1 <= Analysis.complexityScore audioData <= 1 ->
  In (p, v) (calculateCoherentParameters c audioData) ->
  Invariants.clamped p = true -> inRange p v.
Proof.
  intros Hcs Hin Hp. unfold calculateCoherentParameters in Hin. cbn [In] in Hin.
  assert (Hor : JS.or_default (Analysis.complexityScore audioData) 0.5
                = Analysis.complexityScore audioData).
  { apply or_default_nonzero. lra. }
  repeat (destruct Hin as [Hin | Hin]; [inversion Hin; subst; clear Hin |]);
    try contradiction; try discriminate; cbn [inRange].
  - unfold Rmax, Rmin. repeat destruct (Rle_dec _ _); lra.
  - rewrite Hor. unfold Rmin. destruct (Rle_dec _ _); lra.
  - unfold Rmax, Rmin. repeat destruct (Rle_dec _ _); lra.
  - rewrite Hor.
    set (x := Rmin 8 (Analysis.complexityScore audioData * 8)).
    assert (Hx : 0 <= x <= 8).
    { unfold x, Rmin. destruct (Rle_dec _ _); lra. }
    pose proof (floor_bounds x) as [Hl _]. pose proof (floor_nonneg x (proj1 Hx)).
    split; [lra |]. exists (Int_part x). reflexivity.
Qed.

Lemma analysis_complexity (sampleRate now : R) (data : list Spectrum.dB) (d : Director.t) :
  0.1 <= Analysis.complexityScore (snd (Analysis.getCurrentAnalysis sampleRate now data d))
      <= 1.
Proof.
  unfold Analysis.getCurrentAnalysis.
  destruct (Director.detectBeat now data d) as [d' b]. cbn [snd Analysis.complexityScore].
  apply audio_complexity_bounds.
Qed.

Lemma updateCycle_calls (sampleRate : R) (p : t) (input : Environment * list Spectrum.dB)
      (call : SinkCall) :
  In call (sinkCalls (updateCycle sampleRate p input)) ->
  In call (sinkCalls p)
  \/ (Invariants.clamped (fst call) = true -> inRange (fst call) (snd call)).
Proof.
  destruct input as [env data]. unfold updateCycle.
  pose proof (analysis_complexity sampleRate (clockDetectBeat env) data (director p))
    as Hcs.
  destruct (Analysis.getCurrentAnalysis sampleRate (clockDetectBeat env) data (director p))
    as [d audioData]. cbn [snd] in Hcs.
  set (c := updateCoherenceState audioData (Director.getBeatInfo (clockBeatInfo env) d)).
  pose proof (forwarded_entries (calculateCoherentParameters c audioData)
                                (currentParams p) [] call) as Hentries.
  unfold updateVIB34DParameters.
  destruct (fold_left forwardOne (calculateCoherentParameters c audioData)
                      (currentParams p, [])) as [cur calls].
  cbn [sinkCalls snd] in *. intros Hin.
  apply in_app_or in Hin. destruct Hin as [Hin | Hin]; [left; exact Hin | right].
  destruct (Hentries Hin) as [[] | Hnew].
  destruct call as [q v]. cbn [fst snd]. intros Hq.
  exact (coherent_clamped_in_range c audioData q v Hcs Hnew Hq).
Qed.

(** X7: on every run of the integration loop from a fresh pipeline, every
    value forwarded to the sink for gridDensity, speed, chaos or geometry
    is within the documented range of its parameter: the complexity score
    the director hands over is never negative. *)
Theorem pipeline_forwards_clamped_parameters_in_range
        (sampleRate : R) (inputs : list (Environment * list Spectrum.dB)) :
  Forall (fun call => inRange (fst call) (snd call))
         (filter (fun call => Invariants.clamped (fst call))
                 (sinkCalls (Invariants.cycles sampleRate inputs))).
Proof.
  unfold Invariants.cycles.
  assert (H : forall p,
             Forall (fun call => inRange (fst call) (snd call))
                    (filter (fun call => Invariants.clamped (fst call)) (sinkCalls p)) ->
             Forall (fun call => inRange (fst call) (snd call))
                    (filter (fun call => Invariants.clamped (fst call))
                            (sinkCalls (fold_left (updateCycle sampleRate) inputs p)))).
  { induction inputs as [| input rest IH]; intros p Hp; cbn [fold_left].
    - exact Hp.
    - apply IH. apply Forall_forall. intros call Hcall.
      apply filter_In in Hcall. destruct Hcall as [Hin Hq].
      destruct (updateCycle_calls sampleRate p input call Hin) as [Hold | Hnew].
      + rewrite Forall_forall in Hp. apply Hp. apply filter_In. split; assumption.
      + apply Hnew. exact Hq. }
  apply H. cbn [fresh sinkCalls filter]. constructor.
Qed.

End PipelineRanges.

(** ** Hue of the dominant band *)

Section DominantBand.
Import Hue.

Lemma dominant_settled (rest : list (BandName * R)) (best : R * BandName) :
  Forall (fun entry => snd entry <= fst best) rest ->
  fold_left (fun best entry =>
               if JS.gtb (snd entry) (fst best) then (snd entry, fst entry) else best)
            rest best = best.
Proof.
  induction rest as [| entry rest IH]; intros H; cbn [fold_left].
  - reflexivity.
  - inversion H as [| x xs Hx Hxs]; subst.
    rewrite gtb_false by exact Hx. apply IH. exact Hxs.
Qed.

Lemma hue_never_red (frequencyBands : list (BandName * R)) :
  In (mapFrequencyToHue frequencyBands) [30; 60; 120; 180; 240; 300].
Proof.
  unfold mapFrequencyToHue.
  destruct (snd (dominant frequencyBands)); cbn [hueMap];
    try rewrite or_default_zero; try (rewrite or_default_nonzero by lra);
    cbn [In]; tauto.
Qed.

(** X8: when the sub-bass band has the greatest energy, [mapFrequencyToHue]
    returns 120, the hue of the mid band, not the 0 its table lists for
    sub-bass: [hueMap[dominantBand] || 120] takes the 0 for a missing
    entry. *)
Theorem sub_bass_dominance_shown_as_mid (e : R) (rest : list (BandName * R)) :
  0 < e -> Forall (fun entry => snd entry <= e) rest ->
  snd (dominant ((subBass, e) :: rest)) = subBass
  /\ mapFrequencyToHue ((subBass, e) :: rest) = hueMap mid
  /\ mapFrequencyToHue ((subBass, e) :: rest) <> hueMap subBass.
Proof.
  intros He Hrest.
  assert (Hd : dominant ((subBass, e) :: rest) = (e, subBass)).
  { unfold dominant. cbn [fold_left fst snd]. rewrite gtb_true by exact He.
    apply dominant_settled. exact Hrest. }
  unfold mapFrequencyToHue. rewrite Hd. cbn [snd hueMap].
  rewrite or_default_zero. repeat split; lra.
Qed.

Lemma sub_bass_dominance_shown_as_mid_witness :
  mapFrequencyToHue [(subBass, 1); (bass, 0.5); (lowMid, 0); (mid, 0.25);
                     (highMid, 0); (presence, 0); (brilliance, 0)] = 120.
Proof.
  apply (sub_bass_dominance_shown_as_mid 1
           [(bass, 0.5); (lowMid, 0); (mid, 0.25); (highMid, 0); (presence, 0);
            (brilliance, 0)]).
  - lra.
  - repeat apply Forall_cons; try apply Forall_nil; cbn [snd]; lra.
Defined.

End DominantBand.

(** ** Score and roguelike progression *)

Section Score.
Import GameState.

Lemma hitRate_unit (g : t) :
  eventsCompleted g = (perfectHits g + goodHits g + misses g)%nat ->
  0 <= hitRate g <= 1.
Proof.
  intros H. unfold hitRate.
  destruct (Nat.ltb_spec 0 (eventsCompleted g)) as [Hpos | Hzero]; [| lra].
  assert (Hd : 0 < INR (eventsCompleted g)) by (apply lt_0_INR; exact Hpos).
  assert (Hn : 0 <= INR (perfectHits g + goodHits g) <= INR (eventsCompleted g)).
  { split; [apply pos_INR | apply le_INR; lia]. }
  split.
  - apply Rmult_le_pos; [lra |]. apply Rlt_le, Rinv_0_lt_compat. exact Hd.
  - apply Rmult_le_reg_r with (r := INR (eventsCompleted g)); [exact Hd |].
    unfold Rdiv. rewrite Rmult_assoc, Rinv_l by lra. lra.
Qed.

Lemma step_score_invariant (g : t) (op : Op) :
  Invariants.scoreInvariant g -> Invariants.scoreInvariant (step g op).
Proof.
  intros (He & Hc & Hm & Hr & Hp & Hu).
  destruct op as [now points h | now c | now]; unfold Invariants.scoreInvariant.
  - cbn [step updateScore eventsCompleted perfectHits goodHits misses combo maxCombo
         recentPerformance performanceMultiplier unlockLevel].
    repeat split; try lra; try (destruct h; lia).
    rewrite push_capped_length by exact Hr. lia.
  - pose proof (hitRate_unit g He) as Hh.
    cbn [step updateRoguelikeProgression eventsCompleted perfectHits goodHits misses
         combo maxCombo recentPerformance performanceMultiplier unlockLevel].
    repeat split; try assumption; try lra.
    destruct (_ && _); [| exact Hu].
    apply Rle_trans with (unlockLevel g); [exact Hu | apply Rmax_l].
  - cbn [step startNewRun eventsCompleted perfectHits goodHits misses combo maxCombo
         recentPerformance performanceMultiplier unlockLevel length].
    repeat split; try assumption; try lia; lra.
Qed.

(** X9: on every sequence of hits, progression updates and new runs, the
    completed events are the perfect hits, good hits and misses together,
    the combo is at most the hits of the run and at most [maxCombo], the
    performance history holds at most 50 entries, the performance
    multiplier stays in [0.5, 2] and the unlock level never drops below
    1. *)
Theorem score_counters_stay_consistent (start : R) (ops : list Op) :
  let g := run (initial start) ops in
  eventsCompleted g = (perfectHits g + goodHits g + misses g)%nat
  /\ (combo g <= perfectHits g + goodHits g)%nat
  /\ (combo g <= maxCombo g)%nat
  /\ (length (recentPerformance g) <= 50)%nat
  /\ 0.5 <= performanceMultiplier g <= 2
  /\ 1 <= unlockLevel g.
Proof.
  assert (H : forall g, Invariants.scoreInvariant g -> Invariants.scoreInvariant (run g ops)).
  { unfold run. induction ops as [| op rest IH]; intros g Hg; cbn [fold_left].
    - exact Hg.
    - apply IH. apply step_score_invariant. exact Hg. }
  apply H. unfold Invariants.scoreInvariant, initial. cbn. repeat split; try lia; lra.
Qed.

End Score.

(** ** Latency compensator: measurements, synchronisation, emergency mode *)

Section MeasurementWindow.
Import Latency.

Lemma step_measurements (l : t) (op : Op) :
  (length (recentMeasurements l) <= 100)%nat ->
  (length (recentMeasurements (step l op)) <= 100)%nat.
Proof.
  intros H. destruct op; cbn [step]; try exact H.
  - unfold updateAdaptiveCompensation. destruct (_ <? 10)%nat; exact H.
  - cbn [recordTimingMeasurement recentMeasurements].
    change (windowSize * 2)%nat with 100%nat.
    rewrite push_capped_length by exact H. lia.
Qed.

(** Whatever happens to a compensator, it keeps at most
    [2 * windowSize = 100] timing measurements. *)
Theorem measurement_window_bounded (ops : list Op) :
  (length (recentMeasurements (steps fresh ops)) <= 100)%nat.
Proof.
  assert (H : forall l, (length (recentMeasurements l) <= 100)%nat ->
                        (length (recentMeasurements (steps l ops)) <= 100)%nat).
  { unfold steps. induction ops as [| op rest IH]; intros l Hl; cbn [fold_left].
    - exact Hl.
    - apply IH. apply step_measurements. exact Hl. }
  apply H. cbn [fresh recentMeasurements length]. lia.
Qed.

End MeasurementWindow.

Section Monitoring.
Import Latency LatencyMonitor.

(** X11: [synchronizeAudioToVisual] applies the adaptive offset twice,
    once in [getCompensatedTimestamp] and once more in
    [scheduleCompensatedEvent].  With an offset that is not positive (as
    calibration and the emergency mode set it) the visual callback is
    scheduled after [max(0, timestamp - now + 2 * offset)]. *)
Theorem synchronize_compensates_twice (timestamp now : R) (visualCallback : nat) (l : t) :
  adaptiveOffset l <= 0 ->
  timers (synchronizeAudioToVisual timestamp now visualCallback l)
  = timers l
    ++ [(visualCallback, Rmax 0 (timestamp - now + 2 * adaptiveOffset l))].
Proof.
  intros Hoff. unfold synchronizeAudioToVisual, scheduleCompensatedEvent,
    compensatedDelay, getCompensatedTimestamp. cbn [timers].
  do 3 f_equal. unfold Rmax. repeat destruct (Rle_dec _ _); lra.
Qed.

Lemma synchronize_compensates_twice_witness :
  timers (synchronizeAudioToVisual 1150 1000 7 (enableEmergencyMode fresh))
  = [(7%nat, Rmax 0 (1150 - 1000 + 2 * -100))].
Proof.
  apply (synchronize_compensates_twice 1150 1000 7 (enableEmergencyMode fresh)).
  cbn. lra.
Defined.

(** X12: the emergency mode clears [enabled], which
    [updateAdaptiveCompensation] never reads: an adaptation step after
    [enableEmergencyMode] moves the offset away from -100 by exactly the
    amount it would have moved it without the emergency mode. *)
Theorem emergency_mode_keeps_adapting (l : t) :
  let l' := updateAdaptiveCompensation (enableEmergencyMode l) in
  enabled l' = false
  /\ adaptiveOffset l' - -100
     = adaptiveOffset (updateAdaptiveCompensation l) - adaptiveOffset l.
Proof.
  cbn zeta. unfold updateAdaptiveCompensation, enableEmergencyMode.
  cbn [recentMeasurements adaptiveOffset enabled].
  destruct (_ <? 10)%nat; cbn [enabled adaptiveOffset]; [split; [reflexivity | lra] |].
  split; [reflexivity |].
  destruct (JS.gtb _ 5); lra.
Qed.

End Monitoring.

(** ** Event generator: adaptive difficulty and band dominance *)

Section AdaptiveDifficulty.
Import LevelGenerator EventQueue.

Lemma recent_performance_unit (recentHits : list bool) :
  0 <= calculateRecentPerformance recentHits <= 1.
Proof.
  unfold calculateRecentPerformance. destruct recentHits as [| hit rest]; [lra |].
  set (hits := hit :: rest).
  assert (Hpos : 0 < INR (length hits)) by (apply lt_0_INR; cbn; lia).
  assert (Hle : INR (length (filter (fun success => success) hits)) <= INR (length hits)).
  { apply le_INR. apply filter_length_le. }
  pose proof (pos_INR (length (filter (fun success => success) hits))) as Hnn.
  split.
  - apply div_nonneg; lra.
  - apply Rmult_le_reg_r with (r := INR (length hits)); [exact Hpos |].
    unfold Rdiv. rewrite Rmult_assoc, Rinv_l by lra. lra.
Qed.

Lemma adaptDifficulty_band (recentPerformance d : R) :
  0.5 <= d <= 3 -> 0.5 <= adaptDifficulty recentPerformance d <= 3.
Proof.
  intros H. unfold adaptDifficulty.
  destruct (JS.gtb _ _); [| destruct (JS.ltb _ _)];
    unfold Rmax, Rmin; try destruct (Rle_dec _ _); lra.
Qed.

(** X13: starting from the initial multiplier 1.0, the adaptive difficulty
    stays within [0.5, 3] after any series of performance adjustments, so
    the spawn threshold of a band stays between half and three times its
    base threshold. *)
Theorem adaptive_difficulty_stays_in_band (hitLists : list (list bool)) (b : BandName) :
  let d := adaptOver hitLists 1.0 in
  0.5 <= d <= 3
  /\ baseThresholds b * 0.5 <= getThresholdForBand d b <= baseThresholds b * 3.
Proof.
  cbn zeta.
  assert (H : forall d, 0.5 <= d <= 3 -> 0.5 <= adaptOver hitLists d <= 3).
  { unfold adaptOver. induction hitLists as [| hits rest IH]; intros d Hd; cbn [fold_left].
    - exact Hd.
    - apply IH. apply adaptDifficulty_band. exact Hd. }
  specialize (H 1.0 ltac:(lra)).
  split; [exact H |].
  unfold getThresholdForBand. pose proof (baseThresholds_pos b). nra.
Qed.

(** X14: [calculateBandDominance] does not depend on the band or on the
    other bands: it is 0.2 for every energy other than 0, and 0 for the
    energy 0. *)
Theorem band_dominance_is_constant (b : BandName) (energy : R) :
  calculateBandDominance b energy = (if Req_dec_T energy 0 then 0 else 0.2).
Proof.
  unfold calculateBandDominance. cbn [fold_left].
  destruct (Req_dec_T energy 0) as [-> | Hne].
  - replace (0 + 0 + 0 + 0 + 0 + 0) with 0 by lra. rewrite or_default_zero. lra.
  - rewrite or_default_nonzero by lra. replace 0.2 with (1 / 5) by lra. field. lra.
Qed.

End AdaptiveDifficulty.

(** ** Event generator: the spawn queue *)

Section SpawnQueue.
Import EventQueue.

Variable Event : Type.
Variable spawnTime : Event -> R.

Lemma place_permutation (e : Event) (sorted : list Event) :
  Permutation (e :: sorted) (place Event spawnTime e sorted).
Proof.
  induction sorted as [| x rest IH]; cbn [place].
  - apply Permutation_refl.
  - destruct (Num.leb (spawnTime e) (spawnTime x)).
    + apply Permutation_refl.
    + apply perm_trans with (x :: e :: rest); [apply perm_swap |].
      apply perm_skip. exact IH.
Qed.

Lemma place_sorted (e : Event) (sorted : list Event) :
  StronglySorted (Invariants.bySpawnTime spawnTime) sorted ->
  StronglySorted (Invariants.bySpawnTime spawnTime) (place Event spawnTime e sorted).
Proof.
  intros H. induction H as [| x rest Hrest IH Hx]; cbn [place].
  - constructor; constructor.
  - destruct (Num.leb (spawnTime e) (spawnTime x)) eqn:Hcmp.
    + apply leb_spec in Hcmp. constructor.
      * constructor; assumption.
      * constructor; [exact Hcmp |].
        apply Forall_impl with (P := (Invariants.bySpawnTime spawnTime) x); [| exact Hx].
        intros y Hy. unfold Invariants.bySpawnTime in *. lra.
    + assert (Hlt : spawnTime x < spawnTime e).
      { destruct (Rle_or_lt (spawnTime e) (spawnTime x)) as [Hle | Hlt]; [| exact Hlt].
        rewrite leb_true in Hcmp by exact Hle. discriminate. }
      constructor; [exact IH |].
      apply Forall_forall. intros y Hy.
      apply (Permutation_in _ (Permutation_sym (place_permutation e rest))) in Hy.
      destruct Hy as [<- | Hy].
      * unfold Invariants.bySpawnTime. lra.
      * rewrite Forall_forall in Hx. apply Hx. exact Hy.
Qed.

Lemma sort_sorted (queue : list Event) :
  StronglySorted (Invariants.bySpawnTime spawnTime) (sortBySpawnTime Event spawnTime queue)
  /\ Permutation queue (sortBySpawnTime Event spawnTime queue).
Proof.
  induction queue as [| e rest [IHs IHp]]; cbn [sortBySpawnTime fold_right].
  - split; constructor.
  - split.
    + apply place_sorted. exact IHs.
    + apply perm_trans with (e :: sortBySpawnTime Event spawnTime rest).
      * apply perm_skip. exact IHp.
      * apply place_permutation.
Qed.

Lemma step_sorted (st : list Event * list (R * Event)) (op : Op Event) :
  StronglySorted (Invariants.bySpawnTime spawnTime) (fst st) ->
  Forall (fun out => spawnTime (snd out) <= fst out) (snd st) ->
  StronglySorted (Invariants.bySpawnTime spawnTime) (fst (step Event spawnTime st op))
  /\ Forall (fun out => spawnTime (snd out) <= fst out)
            (snd (step Event spawnTime st op)).
Proof.
  intros Hs Ho. destruct st as [queue out]. cbn [fst snd] in *.
  destruct op as [events | now]; cbn [step fst snd].
  - split; [| exact Ho]. apply sort_sorted.
  - unfold getNextEvent. destruct queue as [| e rest]; cbn [fst snd].
    + split; assumption.
    + destruct (Num.leb (spawnTime e) now) eqn:Hdue; cbn [fst snd].
      * apply leb_spec in Hdue. split.
        -- inversion Hs; assumption.
        -- apply Forall_app. split; [exact Ho |]. constructor; [exact Hdue | constructor].
      * split; assumption.
Qed.

Lemma run_sorted (ops : list (Op Event)) :
  StronglySorted (Invariants.bySpawnTime spawnTime) (fst (run Event spawnTime ops))
  /\ Forall (fun out => spawnTime (snd out) <= fst out) (snd (run Event spawnTime ops)).
Proof.
  unfold run.
  assert (H : forall st,
             StronglySorted (Invariants.bySpawnTime spawnTime) (fst st) ->
             Forall (fun out => spawnTime (snd out) <= fst out) (snd st) ->
             StronglySorted (Invariants.bySpawnTime spawnTime)
                            (fst (fold_left (step Event spawnTime) ops st))
             /\ Forall (fun out => spawnTime (snd out) <= fst out)
                       (snd (fold_left (step Event spawnTime) ops st))).
  { induction ops as [| op rest IH]; intros st Hs Ho; cbn [fold_left].
    - split; assumption.
    - destruct (step_sorted st op Hs Ho) as [Hs' Ho']. apply IH; assumption. }
  apply H; constructor.
Qed.

(** X15: on every sequence of [queueEvents] and [getNextEvent] calls from
    an empty queue, every event was handed out at or after its spawn
    time; [getNextEvent] hands out the head of the queue, which no queued
    event precedes, when it is due, and when it returns nothing no queued
    event is due; [queueEvents] reorders the queue and the new events
    without losing or adding any. *)
Theorem queue_hands_out_earliest_due_event (ops : list (Op Event)) (now : R) :
  let queue := fst (run Event spawnTime ops) in
  Forall (fun out => spawnTime (snd out) <= fst out) (snd (run Event spawnTime ops))
  /\ match getNextEvent Event spawnTime now queue with
     | (Some e, rest) =>
         queue = e :: rest /\ spawnTime e <= now
         /\ Forall (fun x => spawnTime e <= spawnTime x) rest
     | (None, rest) => rest = queue /\ Forall (fun x => now < spawnTime x) queue
     end
  /\ (forall events,
        Permutation (queue ++ events) (queueEvents Event spawnTime events queue)).
Proof.
  cbn zeta. destruct (run_sorted ops) as [Hs Ho]. split; [exact Ho |].
  split; [| intros events; unfold queueEvents; apply sort_sorted].
  unfold getNextEvent.
  destruct (fst (run Event spawnTime ops)) as [| e rest]; [split; constructor |].
  inversion Hs as [| x xs Hrest Hhead]; subst.
  destruct (Num.leb (spawnTime e) now) eqn:Hdue.
  - apply leb_spec in Hdue. repeat split; assumption.
  - assert (Hlt : now < spawnTime e).
    { destruct (Rle_or_lt (spawnTime e) now) as [Hle | Hlt]; [| exact Hlt].
      rewrite leb_true in Hdue by exact Hle. discriminate. }
    split; [reflexivity |]. constructor; [exact Hlt |].
    apply Forall_impl with (P := (Invariants.bySpawnTime spawnTime) e); [| exact Hhead].
    intros y Hy. unfold Invariants.bySpawnTime in Hy. lra.
Qed.

End SpawnQueue.

(** ** Parameter adapter: rhythmic patterns and level scaling *)

Section RhythmAndLevel.
Import Integration Adapter.

Lemma pattern_entries_unit (complexity : R) :
  generateRhythmicPattern complexity <> []
  /\ Forall (fun x => 0 <= x <= 1) (generateRhythmicPattern complexity).
Proof.
  unfold generateRhythmicPattern.
  destruct (JS.ltb complexity 0.25); [| destruct (JS.ltb complexity 0.5);
    [| destruct (JS.ltb complexity 0.75)]];
    (split; [discriminate | repeat apply Forall_cons; try apply Forall_nil; lra]).
Qed.

Lemma patternAt_unit (complexity : R) (beatIndex : nat) :
  0 <= patternAt (generateRhythmicPattern complexity) beatIndex <= 1.
Proof.
  destruct (pattern_entries_unit complexity) as [Hne Hall].
  unfold patternAt. rewrite Forall_forall in Hall. apply Hall. apply nth_In.
  apply Nat.mod_upper_bound. destruct (generateRhythmicPattern complexity);
    [contradiction | discriminate].
Qed.

(** X16: for every complexity and every beat index, the pattern intensity
    is within [0, 1] and the three values [applyRhythmicPatternToVIB34D]
    forwards (chaos, morphFactor, intensity) are within their documented
    ranges. *)
Theorem rhythmic_pattern_stays_in_range (complexity : R) (beatIndex : nat) :
  let applied :=
    applyRhythmicPatternToVIB34D (generateRhythmicPattern complexity) beatIndex in
  Forall (fun call => inRange (fst call) (snd call)) (fst applied)
  /\ map fst (fst applied) = [chaos; morphFactor; intensity]
  /\ 0 <= snd applied <= 1.
Proof.
  cbn zeta. unfold applyRhythmicPatternToVIB34D. cbn [fst snd map].
  pose proof (patternAt_unit complexity beatIndex) as Hi.
  split; [| split; [reflexivity | exact Hi]].
  repeat apply Forall_cons; try apply Forall_nil; cbn [fst snd inRange]; lra.
Qed.

(** X17: for every level from 1 on and every performance, the five values
    [scaleParametersForLevel] forwards are within their documented
    ranges. *)
Theorem level_scaling_stays_in_range (level performance : R) :
  1 <= level ->
  Forall (fun call => inRange (fst call) (snd call))
         (scaleParametersForLevel level performance).
Proof.
  intros Hlevel. unfold scaleParametersForLevel.
  assert (Hc : 1 <= Rmin 2.0 (1 + level * 0.1) <= 2).
  { unfold Rmin. destruct (Rle_dec _ _); lra. }
  set (complexity := Rmin 2.0 (1 + level * 0.1)) in *.
  assert (Hb : 0 <= (if JS.gtb performance 0.8 then 0.3 else 0) <= 0.3).
  { destruct (JS.gtb performance 0.8); lra. }
  set (bonus := if JS.gtb performance 0.8 then 0.3 else 0) in *.
  repeat apply Forall_cons; try apply Forall_nil; cbn [fst snd inRange].
  - split; [split |].
    + apply Rmin_glb; [lra |]. apply floor_nonneg. lra.
    + apply Rmin_l.
    + unfold Rmin. destruct (Rle_dec _ _).
      * exists 8%Z. reflexivity.
      * exists (Int_part (level / 3)). reflexivity.
  - unfold Rmin. destruct (Rle_dec _ _); lra.
  - unfold Rmin. destruct (Rle_dec _ _); lra.
  - unfold Rmin. destruct (Rle_dec _ _); lra.
  - unfold Rmin. destruct (Rle_dec _ _); lra.
Qed.

Lemma level_scaling_stays_in_range_witness :
  Forall (fun call => inRange (fst call) (snd call)) (scaleParametersForLevel 1 0.5).
Proof. apply (level_scaling_stays_in_range 1 0.5). lra. Defined.

Lemma level_zero_chaos_negative (performance : R) :
  In (chaos, -0.02) (scaleParametersForLevel 0 performance).
Proof.
  unfold scaleParametersForLevel. cbn [In]. right. right. left. f_equal.
  unfold Rmin. destruct (Rle_dec _ _); lra.
Qed.

End RhythmAndLevel.

(** ** Parameter adapter: what the adapter remembers and what the sink holds *)

Section SinkMemory.
Import Integration Adapter.

Lemma sinkValue_app (held : Params) (calls made : list SinkCall) :
  Invariants.sinkValue held (calls ++ made)
  = Invariants.sinkValue (Invariants.sinkValue held calls) made.
Proof. unfold Invariants.sinkValue. apply fold_left_app. Qed.

Lemma update_tracks_sink (newParams : list (Param * R)) (cur : Params)
      (calls : list SinkCall) (held : Params) :
  (forall p, cur p = Invariants.sinkValue held calls p) ->
  forall p, fst (fold_left forwardOne newParams (cur, calls)) p
            = Invariants.sinkValue held (snd (fold_left forwardOne newParams (cur, calls))) p.
Proof.
  revert cur calls. induction newParams as [| [q v] rest IH]; intros cur calls H p.
  - cbn [fold_left fst snd]. apply H.
  - cbn [fold_left]. unfold forwardOne at 2 4.
    destruct (JS.strict_neq (cur q) v).
    + apply IH. intros r. rewrite sinkValue_app. unfold Invariants.sinkValue at 1.
      cbn [fold_left fst snd]. unfold set. destruct (Param_eq_dec r q); [reflexivity |].
      apply H.
    + apply IH. exact H.
Qed.

Lemma reset_tracks_sink (entries : list (Param * R)) (cur : Params)
      (calls : list SinkCall) (held : Params) :
  (forall p, cur p = Invariants.sinkValue held calls p) ->
  forall p,
    fst (fold_left forwardAlways entries (cur, calls)) p
    = Invariants.sinkValue held (snd (fold_left forwardAlways entries (cur, calls))) p.
Proof.
  revert cur calls. induction entries as [| [q v] rest IH]; intros cur calls H p.
  - cbn [fold_left fst snd]. apply H.
  - cbn [fold_left]. unfold forwardAlways at 2 4. cbn [fst snd].
    apply IH. intros r. rewrite sinkValue_app.
    unfold Invariants.sinkValue at 1. cbn [fold_left fst snd]. unfold set.
    destruct (Param_eq_dec r q); [reflexivity |]. apply H.
Qed.

Lemma reset_calls_prefix (entries : list (Param * R)) (cur : Params)
      (calls : list SinkCall) :
  fold_left forwardAlways entries (cur, calls)
  = (fst (fold_left forwardAlways entries (cur, [])),
     calls ++ snd (fold_left forwardAlways entries (cur, []))).
Proof.
  revert cur calls. induction entries as [| e rest IH]; intros cur calls.
  - cbn [fold_left fst snd]. rewrite app_nil_r. reflexivity.
  - cbn [fold_left]. unfold forwardAlways at 2 4 6. cbn [fst snd].
    rewrite (IH _ (calls ++ [e])), (IH _ ([] ++ [e])). cbn [fst snd].
    rewrite app_assoc. reflexivity.
Qed.

Lemma fold_calls_prefix (newParams : list (Param * R)) (cur : Params)
      (calls : list SinkCall) :
  snd (fold_left forwardOne newParams (cur, calls))
  = calls ++ snd (fold_left forwardOne newParams (cur, [])).
Proof.
  revert cur calls. induction newParams as [| [q v] rest IH]; intros cur calls.
  - cbn [fold_left snd]. rewrite app_nil_r. reflexivity.
  - cbn [fold_left]. unfold forwardOne at 2 4.
    destruct (JS.strict_neq (cur q) v).
    + rewrite (IH _ (calls ++ [(q, v)])), (IH _ ([] ++ [(q, v)])).
      rewrite app_assoc. reflexivity.
    + apply IH.
Qed.

Lemma fold_params_prefix (newParams : list (Param * R)) (cur : Params)
      (calls : list SinkCall) :
  fst (fold_left forwardOne newParams (cur, calls))
  = fst (fold_left forwardOne newParams (cur, [])).
Proof.
  revert cur calls. induction newParams as [| [q v] rest IH]; intros cur calls.
  - reflexivity.
  - cbn [fold_left]. unfold forwardOne at 2 4.
    destruct (JS.strict_neq (cur q) v).
    + rewrite (IH _ (calls ++ [(q, v)])), (IH _ ([] ++ [(q, v)])). reflexivity.
    + apply IH.
Qed.

Lemma step_tracks_sink (st : State) (op : Op) (held : Params) :
  tracked op = true ->
  (forall p, fst st p = Invariants.sinkValue held (snd st) p) ->
  forall p, fst (step st op) p = Invariants.sinkValue held (snd (step st op)) p.
Proof.
  intros Hop H. destruct st as [cur calls]. cbn [fst snd] in H.
  destruct op as [newParams | | complexity beatIndex | level performance];
    try discriminate; cbn [step].
  - unfold updateVIB34DParameters.
    pose proof (update_tracks_sink newParams cur calls held H) as Hu.
    intros p. specialize (Hu p).
    rewrite fold_params_prefix, fold_calls_prefix in Hu.
    destruct (fold_left forwardOne newParams (cur, [])) as [cur' made].
    exact Hu.
  - unfold resetToDefaults.
    pose proof (reset_tracks_sink defaults cur calls held H) as Hr.
    intros p. specialize (Hr p). rewrite reset_calls_prefix in Hr.
    cbn [fst snd] in Hr.
    destruct (fold_left forwardAlways defaults (cur, [])) as [cur' made]. exact Hr.
Qed.

(** X18: as long as the sink is written through [updateVIB34DParameters]
    and [resetToDefaults] only, the value the adapter remembers for a
    parameter is the value the sink last received for it (its initial
    value when it received none). *)
Theorem adapter_memory_matches_sink (ops : list Op) (p : Param) :
  forallb tracked ops = true ->
  fst (run start ops) p = Invariants.sinkValue initialParams (snd (run start ops)) p.
Proof.
  intros Hops. revert p.
  assert (H : forall st,
             (forall p, fst st p = Invariants.sinkValue initialParams (snd st) p) ->
             forall p, fst (run st ops) p
                       = Invariants.sinkValue initialParams (snd (run st ops)) p).
  { unfold run. induction ops as [| op rest IH]; intros st Hst; cbn [fold_left].
    - exact Hst.
    - cbn [forallb] in Hops. apply andb_prop in Hops. destruct Hops as [Hop Hrest].
      apply (IH Hrest). apply step_tracks_sink; assumption. }
  apply H. intros p. reflexivity.
Qed.

Lemma adapter_memory_matches_sink_witness :
  fst (run start [Update [(hue, 0.7); (chaos, 0.5)]; Reset]) hue
  = Invariants.sinkValue initialParams
      (snd (run start [Update [(hue, 0.7); (chaos, 0.5)]; Reset])) hue.
Proof.
  apply (adapter_memory_matches_sink [Update [(hue, 0.7); (chaos, 0.5)]; Reset] hue).
  reflexivity.
Defined.

(** X19: [applyRhythmicPatternToVIB34D] writes the sink without writing
    [currentParams].  After it, an update that asks for the chaos value
    the adapter still remembers is suppressed by the change detection, and
    the sink is left at the rhythm value while the adapter remembers
    another one. *)
Theorem rhythm_bypasses_change_detection
        (cur : Params) (calls : list SinkCall) (held : Params)
        (complexity : R) (beatIndex : nat) :
  let i := patternAt (generateRhythmicPattern complexity) beatIndex in
  i * 0.5 <> cur chaos ->
  let st := run (cur, calls) [Rhythm complexity beatIndex; Update [(chaos, cur chaos)]] in
  snd st = calls ++ [(chaos, i * 0.5); (morphFactor, 0.3 + i * 0.4);
                     (intensity, 0.5 + i * 0.3)]
  /\ fst st chaos = cur chaos
  /\ Invariants.sinkValue held (snd st) chaos = i * 0.5
  /\ Invariants.sinkValue held (snd st) chaos <> fst st chaos.
Proof.
  cbn zeta. intros Hne.
  unfold run. cbn [fold_left step applyRhythmicPatternToVIB34D fst].
  unfold updateVIB34DParameters. cbn [fold_left]. unfold forwardOne.
  rewrite strict_neq_refl. cbn [fst snd]. rewrite app_nil_r.
  assert (Hsink : Invariants.sinkValue held
                    (calls ++ [(chaos, patternAt (generateRhythmicPattern complexity)
                                                 beatIndex * 0.5);
                               (morphFactor, 0.3 + patternAt (generateRhythmicPattern
                                                                complexity) beatIndex * 0.4);
                               (intensity, 0.5 + patternAt (generateRhythmicPattern
                                                              complexity) beatIndex * 0.3)])
                    chaos
                  = patternAt (generateRhythmicPattern complexity) beatIndex * 0.5).
  { rewrite sinkValue_app. unfold Invariants.sinkValue at 1. cbn [fold_left fst snd].
    unfold set. cbn. reflexivity. }
  repeat split; try reflexivity; try exact Hsink.
  rewrite Hsink. exact Hne.
Qed.

Lemma rhythm_bypasses_change_detection_witness :
  Invariants.sinkValue initialParams
    (snd (run start [Rhythm 0.1 2; Update [(chaos, initialParams chaos)]])) chaos
  <> fst (run start [Rhythm 0.1 2; Update [(chaos, initialParams chaos)]]) chaos.
Proof.
  apply (rhythm_bypasses_change_detection initialParams [] initialParams 0.1 2).
  unfold generateRhythmicPattern. rewrite ltb_true by lra.
  unfold patternAt, simple.
  replace (2 mod length [1; 0; 0.6; 0]%R)%nat with 2%nat by reflexivity.
  cbn [nth initialParams]. lra.
Defined.

End SinkMemory.

(** ** Particle pool *)

Section Pool.
Import ParticlePool.
Local Open Scope nat_scope.

Lemma firstInactive_found (flags : list bool) (i : nat) :
  firstInactive flags = Some i -> nth_error flags i = Some false.
Proof.
  revert i. induction flags as [| f rest IH]; intros i H; cbn [firstInactive] in H.
  - discriminate.
  - destruct f.
    + destruct (firstInactive rest) as [j |]; [| discriminate].
      cbn [option_map] in H. injection H as <-. cbn [nth_error]. apply IH. reflexivity.
    + injection H as <-. reflexivity.
Qed.

Lemma firstInactive_none (flags : list bool) :
  firstInactive flags = None -> count_occ bool_dec flags true = length flags.
Proof.
  induction flags as [| f rest IH]; intros H; cbn [firstInactive] in H.
  - reflexivity.
  - destruct f; [| discriminate].
    destruct (firstInactive rest); [discriminate |].
    cbn [length]. rewrite count_occ_cons_eq by reflexivity. rewrite IH; reflexivity.
Qed.

Lemma count_at_most_length (flags : list bool) :
  count_occ bool_dec flags true <= length flags.
Proof. apply count_occ_bound. Qed.

Lemma setFlag_length (i : nat) (v : bool) (flags : list bool) :
  length (setFlag i v flags) = length flags.
Proof.
  revert i. induction flags as [| f rest IH]; intros i; [reflexivity |].
  destruct i; cbn [setFlag length]; [reflexivity | rewrite IH; reflexivity].
Qed.

Lemma setFlag_activate (i : nat) (flags : list bool) :
  nth_error flags i = Some false ->
  count_occ bool_dec (setFlag i true flags) true = S (count_occ bool_dec flags true).
Proof.
  revert i. induction flags as [| f rest IH]; intros i H.
  - destruct i; discriminate.
  - destruct i; cbn [nth_error setFlag] in *.
    + injection H as ->. rewrite count_occ_cons_eq by reflexivity.
      rewrite count_occ_cons_neq by discriminate. reflexivity.
    + destruct f.
      * rewrite !count_occ_cons_eq by reflexivity. rewrite IH by exact H. reflexivity.
      * rewrite !count_occ_cons_neq by discriminate. apply IH. exact H.
Qed.

Lemma setFlag_deactivate (i : nat) (flags : list bool) :
  nth_error flags i = Some true ->
  S (count_occ bool_dec (setFlag i false flags) true) = count_occ bool_dec flags true.
Proof.
  revert i. induction flags as [| f rest IH]; intros i H.
  - destruct i; discriminate.
  - destruct i; cbn [nth_error setFlag] in *.
    + injection H as ->. rewrite count_occ_cons_neq by discriminate.
      rewrite count_occ_cons_eq by reflexivity. reflexivity.
    + destruct f.
      * rewrite !count_occ_cons_eq by reflexivity. rewrite IH by exact H. reflexivity.
      * rewrite !count_occ_cons_neq by discriminate. apply IH. exact H.
Qed.

Lemma setFlag_undo (i : nat) (flags : list bool) :
  nth_error flags i = Some false -> setFlag i false (setFlag i true flags) = flags.
Proof.
  revert i. induction flags as [| f rest IH]; intros i H.
  - destruct i; discriminate.
  - destruct i; cbn [nth_error setFlag] in *.
    + injection H as ->. reflexivity.
    + rewrite IH by exact H. reflexivity.
Qed.

Lemma setFlag_read (i : nat) (v : bool) (flags : list bool) :
  i < length flags -> nth_error (setFlag i v flags) i = Some v.
Proof.
  revert i. induction flags as [| f rest IH]; intros i H; cbn [length] in H; [lia |].
  destruct i; cbn [setFlag nth_error]; [reflexivity | apply IH; lia].
Qed.

Lemma create_invariant (size : nat) : Invariants.poolInvariant size (create size).
Proof.
  unfold Invariants.poolInvariant, create, activeParticles. cbn [activeCount pool maxSize].
  rewrite repeat_length. repeat split; try lia.
  induction size as [| n IH]; cbn [repeat]; [reflexivity |].
  rewrite count_occ_cons_neq by discriminate. exact IH.
Qed.

Lemma step_pool_invariant (size : nat) (p : t) (op : Op) :
  Invariants.poolInvariant size p -> Invariants.poolInvariant size (step p op).
Proof.
  intros (Hc & Hl & Hm). destruct op as [| i |]; cbn [step].
  - unfold acquire. destruct (activeCount p <? Z.of_nat (maxSize p))%Z;
      [| repeat split; assumption].
    destruct (firstInactive (pool p)) as [i |] eqn:Hfree; [| repeat split; assumption].
    apply firstInactive_found in Hfree.
    unfold Invariants.poolInvariant, activeParticles. cbn [snd activeCount pool maxSize].
    rewrite setFlag_activate by exact Hfree. rewrite setFlag_length.
    unfold activeParticles in Hc. repeat split; lia.
  - unfold release. destruct (nth_error (pool p) i) as [[|] |] eqn:Hi;
      try (repeat split; assumption).
    pose proof (setFlag_deactivate i (pool p) Hi) as Hcount.
    unfold Invariants.poolInvariant, activeParticles. cbn [activeCount pool maxSize].
    rewrite setFlag_length. unfold activeParticles in Hc. repeat split; lia.
  - unfold Invariants.poolInvariant, halve, activeParticles. cbn [activeCount pool maxSize].
    pose proof (Nat.div2_decr (maxSize p) (maxSize p) ltac:(lia)).
    repeat split; try assumption. lia.
Qed.

Lemma run_pool_invariant (size : nat) (ops : list Op) :
  Invariants.poolInvariant size (run (create size) ops).
Proof.
  assert (H : forall p, Invariants.poolInvariant size p ->
                        Invariants.poolInvariant size (run p ops)).
  { unfold run. induction ops as [| op rest IH]; intros p Hp; cbn [fold_left].
    - exact Hp.
    - apply IH. apply step_pool_invariant. exact Hp. }
  apply H. apply create_invariant.
Qed.

(** X20: on every sequence of [acquire], [release] and pool halvings,
    [activeCount] is the number of particles whose [active] flag is set,
    the array keeps its size, and [acquire] hands out an inactive particle
    exactly when [activeCount] is below [maxSize]. *)
Theorem pool_count_matches_active_particles (size : nat) (ops : list Op) :
  let p := run (create size) ops in
  activeCount p = Z.of_nat (activeParticles p)
  /\ length (pool p) = size
  /\ (0 <= activeCount p <= Z.of_nat size)%Z
  /\ match fst (acquire p) with
     | Some i => nth_error (pool p) i = Some false
                 /\ (activeCount p < Z.of_nat (maxSize p))%Z
     | None => (Z.of_nat (maxSize p) <= activeCount p)%Z
     end.
Proof.
  cbn zeta. destruct (run_pool_invariant size ops) as (Hc & Hl & Hm).
  set (p := run (create size) ops) in *.
  pose proof (count_at_most_length (pool p)) as Hbound.
  unfold activeParticles in *.
  repeat split; try assumption; try lia.
  unfold acquire.
  destruct (Z.ltb_spec (activeCount p) (Z.of_nat (maxSize p))) as [Hroom | Hfull];
    [| exact Hfull].
  destruct (firstInactive (pool p)) as [i |] eqn:Hfree; cbn [fst].
  - split; [apply firstInactive_found; exact Hfree | exact Hroom].
  - apply firstInactive_none in Hfree. lia.
Qed.

(** X21: in every reachable pool, releasing the particle [acquire] has just
    handed out restores the pool, a second release of it changes nothing,
    and a failed [acquire] leaves the pool as it was. *)
Theorem release_undoes_acquire (size : nat) (ops : list Op) :
  let p := run (create size) ops in
  match acquire p with
  | (Some i, p') => release i p' = p /\ release i (release i p') = release i p'
  | (None, p') => p' = p
  end.
Proof.
  cbn zeta. destruct (run_pool_invariant size ops) as (Hc & Hl & Hm).
  set (p := run (create size) ops) in *.
  unfold acquire.
  destruct (activeCount p <? Z.of_nat (maxSize p))%Z; [| reflexivity].
  destruct (firstInactive (pool p)) as [i |] eqn:Hfree; [| reflexivity].
  apply firstInactive_found in Hfree.
  assert (Hi : i < length (pool p)).
  { apply nth_error_Some. rewrite Hfree. discriminate. }
  assert (Hback : release i {| maxSize := maxSize p; pool := setFlag i true (pool p);
                               activeCount := (activeCount p + 1)%Z |} = p).
  { unfold release. cbn [pool maxSize activeCount].
    rewrite setFlag_read by exact Hi. rewrite setFlag_undo by exact Hfree.
    replace (activeCount p + 1 - 1)%Z with (activeCount p) by lia.
    destruct p; reflexivity. }
  split; [exact Hback |].
  rewrite Hback. unfold release. rewrite Hfree. reflexivity.
Qed.

End Pool.

(** ** Quadrant telegraph of the particle system *)

Section Countdown.
Import QuadrantTelegraph.

(** The state of a telegraph [frames] updates after its activation. *)
Lemma countdown_state (frameInterval duration startIntensity : R) (frames : nat) :
  0 < frameInterval -> 0 < duration ->
  let r := updates frameInterval frames (activateTelegraph duration startIntensity) in
  (INR frames * frameInterval < duration ->
   active (fst r) = true
   /\ timeRemaining (fst r) = duration - INR frames * frameInterval
   /\ snd r = [])
  /\ (duration <= INR frames * frameInterval ->
      active (fst r) = false /\ length (snd r) = 1%nat).
Proof.
  intros Hf Hd. induction frames as [| n IH].
  - cbn [updates activateTelegraph fst snd active timeRemaining INR]. split.
    + intros _. repeat split. lra.
    + intros H. lra.
  - cbn zeta in *. cbn [updates].
    destruct (updates frameInterval n (activateTelegraph duration startIntensity))
      as [s bursts]. cbn [fst snd] in IH.
    rewrite S_INR.
    destruct (Rlt_or_le (INR n * frameInterval) duration) as [Hrun | Hdone].
    + destruct IH as [IH _]. destruct (IH Hrun) as (Ha & Ht & Hb). subst bursts.
      unfold updateTelegraphState. rewrite Ha, Ht.
      destruct (Rle_or_lt (duration - INR n * frameInterval - frameInterval) 0)
        as [Hend | Hmore].
      * rewrite leb_true by exact Hend. cbn [fst snd active app length]. split.
        -- intros H. lra.
        -- intros _. split; reflexivity.
      * rewrite leb_false by exact Hmore. cbn [fst snd active timeRemaining app]. split.
        -- intros _. repeat split. lra.
        -- intros H. lra.
    + destruct IH as [_ IH]. destruct (IH Hdone) as (Ha & Hb).
      unfold updateTelegraphState. rewrite Ha. cbn [fst snd]. rewrite app_nil_r. split.
      * intros H. nra.
      * intros _. split; assumption.
Qed.




(** X23: while a quadrant telegraph is active its intensity is computed
    against a fixed 3000 ms, not against its own duration: it is
    [min(1, 2 * (1 - remaining / 3000))], at most 1, and negative exactly
    while more than 3000 ms remain. *)
Theorem telegraph_intensity_assumes_three_seconds
        (frameInterval duration startIntensity : R) (n : nat) :
  0 < frameInterval -> INR (S n) * frameInterval < duration ->
  let s := fst (updates frameInterval (S n) (activateTelegraph duration startIntensity)) in
  let remaining := duration - INR (S n) * frameInterval in
  intensity s = Rmin 1.0 ((1 - remaining / 3000) * 2)
  /\ intensity s <= 1
  /\ (intensity s < 0 <-> 3000 < remaining).
Proof.
  intros Hf Hrun. cbn zeta.
  assert (Hd : 0 < duration).
  { pose proof (pos_INR (S n)). nra. }
  destruct (countdown_state frameInterval duration startIntensity n Hf Hd) as [Hn _].
  rewrite S_INR in *.
  assert (Hprev : INR n * frameInterval < duration) by nra.
  destruct (Hn Hprev) as (Ha & Ht & _).
  cbn [updates].
  destruct (updates frameInterval n (activateTelegraph duration startIntensity))
    as [s bursts]. cbn [fst] in Ha, Ht.
  unfold updateTelegraphState. rewrite Ha, Ht.
  rewrite leb_false by lra. cbn [fst intensity].
  replace (duration - INR n * frameInterval - frameInterval)
    with (duration - (INR n + 1) * frameInterval) by lra.
  set (remaining := duration - (INR n + 1) * frameInterval).
  split; [reflexivity |]. split.
  - unfold Rmin. destruct (Rle_dec _ _); lra.
  - unfold Rmin. destruct (Rle_dec _ _); split; intros H; lra.
Qed.

Lemma telegraph_intensity_assumes_three_seconds_witness :
  intensity (fst (updates (1000 / 60) 1 (activateTelegraph 6000 1.0))) < 0.
Proof.
  destruct (telegraph_intensity_assumes_three_seconds (1000 / 60) 6000 1.0 0
              ltac:(lra) ltac:(cbn [INR]; lra)) as (_ & _ & Hneg).
  apply Hneg. cbn [INR]. lra.
Defined.

End Countdown.

(** ** Visual telegraph system *)

Section Telegraphs.
Import VisualTelegraph.

(** X24: [calculateColor] returns the base colour of the telegraph for
    every clock value and every urgency, so a critical telegraph never
    flashes to white: the factor handed to [interpolateColor] is at most
    0.5, and [interpolateColor] switches to the second colour only above
    0.5. *)
Theorem critical_flash_never_shows (clock : R) (k : Kind) (u : Urgency) :
  calculateColor clock k u = baseColorOf k.
Proof.
  unfold calculateColor. destruct u; try reflexivity.
  unfold interpolateColor. rewrite gtb_false; [reflexivity |].
  pose proof (SIN_bound (clock * 0.03)) as [_ Hle]. lra.
Qed.

Lemma geometry_size_positive (g : option LevelGenerator.Geometry) :
  35 <= getGeometrySize g <= 60.
Proof.
  unfold getGeometrySize. destruct g as [[] |];
    try rewrite or_default_zero; try (rewrite or_default_nonzero by lra); lra.
Qed.

Lemma intensity_of_active (clock p : R) (u : Urgency) :
  0 <= p <= 1 -> 0 < calculateIntensity clock p u <= 1.
Proof.
  intros Hp. unfold calculateIntensity.
  pose proof (SIN_bound (clock * 0.02)) as [Hlo Hhi].
  destruct u; unfold Rmin; try destruct (Rle_dec _ _); lra.
Qed.

(** X25: a geometry-spawn telegraph updated between its creation and its
    end time stays in the list with the time left, a progress in [0, 1)
    equal to the elapsed share of its duration, an intensity in (0, 1]
    and a size between half and all of its base size. *)
Theorem geometry_telegraph_while_active
        (start now timeUntilSpawn : R) (g : option LevelGenerator.Geometry) (k : Kind)
        (clocks : nat -> R * R) :
  0 < timeUntilSpawn -> start <= now < start + timeUntilSpawn ->
  exists t,
    update now clocks [telegraphGeometrySpawn start g k timeUntilSpawn] = ([t], [])
    /\ timeRemaining t = start + timeUntilSpawn - now
    /\ progress t = (now - start) / timeUntilSpawn
    /\ 0 <= progress t < 1
    /\ 0 < intensity t <= 1
    /\ getGeometrySize g / 2 <= size t < getGeometrySize g
    /\ urgency t = urgencyOf (timeRemaining t)
    /\ color t = baseColorOf k.
Proof.
  intros Hd [Hafter Hbefore].
  unfold update. cbn [updateFrom telegraphGeometrySpawn endTime].
  rewrite leb_false by lra.
  eexists. split; [reflexivity |].
  unfold updateTelegraph.
  cbn [timeRemaining progress intensity size urgency color duration baseSize kind
       endTime telegraphGeometrySpawn].
  set (remaining := start + timeUntilSpawn - now).
  assert (Hp : 1 - remaining / timeUntilSpawn = (now - start) / timeUntilSpawn).
  { unfold remaining. field. lra. }
  assert (Hunit : 0 <= (now - start) / timeUntilSpawn < 1).
  { split.
    - apply Rmult_le_pos; [lra |]. apply Rlt_le, Rinv_0_lt_compat. exact Hd.
    - apply Rmult_lt_reg_r with (r := timeUntilSpawn); [exact Hd |].
      unfold Rdiv. rewrite Rmult_assoc, Rinv_l by lra. lra. }
  rewrite Hp. pose proof (geometry_size_positive g) as Hg.
  repeat split; try lra.
  - apply intensity_of_active. lra.
  - apply intensity_of_active. lra.
  - unfold calculateSize. nra.
  - unfold calculateSize. nra.
  - unfold calculateColor. destruct (urgencyOf remaining); try reflexivity.
    unfold interpolateColor. rewrite gtb_false; [reflexivity |].
    pose proof (SIN_bound (snd (clocks 0%nat) * 0.03)) as [_ Hle]. lra.
Qed.

Lemma geometry_telegraph_while_active_witness :
  exists t,
    update 2500 (fun _ => (2500, 2500))
           [telegraphGeometrySpawn 0 (Some LevelGenerator.tesseract) interact 3000]
    = ([t], [])
    /\ timeRemaining t = 0 + 3000 - 2500
    /\ progress t = (2500 - 0) / 3000
    /\ 0 <= progress t < 1
    /\ 0 < intensity t <= 1
    /\ getGeometrySize (Some LevelGenerator.tesseract) / 2 <= size t
       < getGeometrySize (Some LevelGenerator.tesseract)
    /\ urgency t = urgencyOf (timeRemaining t)
    /\ color t = baseColorOf interact.
Proof.
  apply (geometry_telegraph_while_active 0 2500 3000 (Some LevelGenerator.tesseract)
           interact (fun _ => (2500, 2500))); lra.
Defined.

End Telegraphs.

(** ** Haptic feedback *)

Section ComboPattern.
Import Haptic.

Lemma combo_pulses (pulses : nat) :
  length (concat (repeat [30; 20] pulses)) = (2 * pulses)%nat
  /\ JS.sum (concat (repeat [30; 20] pulses)) = 50 * INR pulses
  /\ Forall (fun d => d = 30 \/ d = 20) (concat (repeat [30; 20] pulses)).
Proof.
  induction pulses as [| n (Hl & Hs & Hf)].
  - cbn. repeat split; [unfold JS.sum; cbn; lra | constructor].
  - cbn [repeat concat app]. rewrite S_INR. repeat split.
    + cbn [length]. rewrite Hl. lia.
    + unfold JS.sum in *. cbn [fold_left]. rewrite sum_acc. unfold JS.sum. rewrite Hs. lra.
    + constructor; [left; reflexivity |]. constructor; [right; reflexivity | exact Hf].
Qed.

(** The combo vibration pattern has [2 * min(comboLevel, 10) + 1]
    entries, at most 21, ends with the 150 ms pulse and lasts
    [50 * min(comboLevel, 10) + 150] ms, at most 650 ms. *)
Theorem combo_pattern_shape (comboLevel : nat) :
  let pattern := generateComboHapticPattern comboLevel in
  length pattern = (2 * Nat.min comboLevel 10 + 1)%nat
  /\ (length pattern <= 21)%nat
  /\ last pattern 0 = 150
  /\ JS.sum pattern = 50 * INR (Nat.min comboLevel 10) + 150
  /\ JS.sum pattern <= 650.
Proof.
  cbn zeta. unfold generateComboHapticPattern.
  destruct (combo_pulses (Nat.min comboLevel 10)) as (Hl & Hs & _).
  assert (Hsum : JS.sum (concat (repeat [30; 20] (Nat.min comboLevel 10)) ++ [150])
                 = 50 * INR (Nat.min comboLevel 10) + 150).
  { unfold JS.sum in *. rewrite fold_left_app. cbn [fold_left]. rewrite Hs. reflexivity. }
  assert (Hten : INR (Nat.min comboLevel 10) <= 10).
  { replace 10 with (INR 10) by (simpl; lra). apply le_INR. lia. }
  rewrite length_app, Hl, last_last, Hsum. cbn [length].
  repeat split; try lia; lra.
Qed.

End ComboPattern.

Section HapticRate.
Import Haptic.

(** What every run from the constructed state keeps: no canvas, and a
    [lastHapticTime] of 0. *)
Lemma handle_without_canvas (h : t) (op : Op) :
  canvas h = None -> lastHapticTime h = 0 ->
  canvas (fst (handle h op)) = None
  /\ lastHapticTime (fst (handle h op)) = 0
  /\ hapticSupported (fst (handle h op)) = hapticSupported h
  /\ vibrations (fst (handle h op))
     = vibrations h
       ++ match op with
          | Beat now strength =>
              if JS.gtb now 100 then
                if hapticSupported h
                then [{| startedAt := now; startedBy := beatHandler;
                         pattern := map (fun duration =>
                                           JS.floor (duration * Rmin 1.0 strength))
                                        [50] |}]
                else []
              else []
          | Frequency _ _ => []
          end
  /\ snd (handle h op)
     = match op with
       | Beat now _ => if JS.gtb now 100 then threwTypeError else returned
       | Frequency _ _ => threwTypeError
       end.
Proof.
  intros Hc Hl. destruct op as [now strength | now b]; cbn [handle].
  - unfold onBeatDetected. rewrite Hc, Hl.
    replace (now - 0) with now by lra.
    cbn [triggerVisualBeatResponse quadrantCenters getQuadrantCenter].
    destruct (JS.gtb now 100);
      cbn [fst snd canvas lastHapticTime hapticSupported vibrations].
    + unfold vibrate, triggerHaptic.
      destruct (hapticSupported h); cbn [hapticPatterns];
        repeat split; try assumption; try reflexivity.
      rewrite app_nil_r. reflexivity.
    + rewrite app_nil_r. repeat split; assumption.
  - unfold updateFrequencyBasedFeedback. rewrite Hc. cbn [getQuadrantCenter fst snd].
    rewrite app_nil_r. repeat split; assumption.
Qed.

Lemma run_snoc (h : t) (ops : list Op) (op : Op) :
  run h (ops ++ [op]) = step (run h ops) op.
Proof. unfold run. rewrite fold_left_app. reflexivity. Qed.

Lemma run_without_canvas (supported : bool) (ops : list Op) :
  let r := run (fresh supported) ops in
  canvas (fst r) = None
  /\ lastHapticTime (fst r) = 0
  /\ hapticSupported (fst r) = supported
  /\ vibrations (fst r)
     = flat_map (fun op =>
                   match op with
                   | Beat now strength =>
                       if JS.gtb now 100 then
                         if supported
                         then [{| startedAt := now; startedBy := beatHandler;
                                  pattern := map (fun duration =>
                                                    JS.floor (duration * Rmin 1.0 strength))
                                                 [50] |}]
                         else []
                       else []
                   | Frequency _ _ => []
                   end) ops
  /\ snd r
     = map (fun op =>
              match op with
              | Beat now _ => if JS.gtb now 100 then threwTypeError else returned
              | Frequency _ _ => threwTypeError
              end) ops.
Proof.
  cbn zeta. induction ops as [| op ops IH] using rev_ind.
  - repeat split; reflexivity.
  - destruct IH as (Hc & Hl & Hs & Hv & Hr).
    rewrite run_snoc. unfold step. cbn [fst snd].
    destruct (handle_without_canvas (fst (run (fresh supported) ops)) op Hc Hl)
      as (Hc' & Hl' & Hs' & Hv' & Hr').
    rewrite Hc', Hl', Hs', Hv', Hr', Hs, Hv, Hr, flat_map_app, map_app.
    cbn [flat_map map]. rewrite app_nil_r. repeat split; reflexivity.
Qed.

(** X27: as the class is constructed the limiter on beat vibrations never
    engages.  Past its guard [onBeatDetected] vibrates, then throws a
    [TypeError] in [getQuadrantCenter] (there is no canvas) before
    [lastHapticTime] is written.  So on every sequence of calls
    [lastHapticTime] stays 0, every beat later than 100 ms on the clock
    starts a vibration, however close to the one before, and throws; a
    beat at or before 100 ms returns without a vibration. *)
Theorem beat_haptics_are_never_limited (supported : bool) (ops : list Op) :
  let r := run (fresh supported) ops in
  lastHapticTime (fst r) = 0
  /\ beatVibrations (fst r)
     = (if supported
        then flat_map (fun op =>
                         match op with
                         | Beat now _ => if JS.gtb now 100 then [now] else []
                         | Frequency _ _ => []
                         end) ops
        else [])
  /\ Forall2 (fun op completion =>
                match op with
                | Beat now _ =>
                    completion = if JS.gtb now 100 then threwTypeError else returned
                | Frequency _ _ => True
                end) ops (snd r).
Proof.
  cbn zeta.
  destruct (run_without_canvas supported ops) as (_ & Hl & _ & Hv & Hr).
  cbn zeta in Hv, Hr.
  split; [exact Hl |]. split.
  - unfold beatVibrations. rewrite Hv. clear.
    induction ops as [| op ops IH].
    + destruct supported; reflexivity.
    + cbn [flat_map]. rewrite filter_app, map_app, IH.
      destruct op as [now strength | now b]; cbn [app].
      * destruct (JS.gtb now 100); destruct supported; reflexivity.
      * destruct supported; reflexivity.
  - rewrite Hr. clear. induction ops as [| op ops IH]; cbn [map]; constructor.
    + destruct op; [reflexivity | exact I].
    + exact IH.
Qed.

(** X28: as the class is constructed [updateFrequencyBasedFeedback] never
    starts a vibration.  [emphasizeQuadrant] throws a [TypeError] in
    [getQuadrantCenter] before the haptic block is reached: on every
    sequence of calls each frequency call throws, every vibration started
    comes from the beat handler, and a further frequency call leaves the
    state as it is. *)
Theorem frequency_haptics_never_start (supported : bool) (ops : list Op) :
  let r := run (fresh supported) ops in
  Forall (fun v => startedBy v = beatHandler) (vibrations (fst r))
  /\ Forall2 (fun op completion =>
                match op with
                | Frequency _ _ => completion = threwTypeError
                | Beat _ _ => True
                end) ops (snd r)
  /\ (forall (now : R) (b : FrequencyBand),
         updateFrequencyBasedFeedback now b (fst r) = (fst r, threwTypeError)).
Proof.
  cbn zeta.
  destruct (run_without_canvas supported ops) as (Hc & _ & _ & Hv & Hr).
  cbn zeta in Hv, Hr.
  split; [| split].
  - rewrite Hv. clear. apply Forall_forall. intros v Hin.
    apply in_flat_map in Hin. destruct Hin as [op [_ Hin]].
    destruct op as [now strength | now b]; [| destruct Hin].
    destruct (JS.gtb now 100); [| destruct Hin].
    destruct supported; [| destruct Hin].
    destruct Hin as [Hv | []]. subst v. reflexivity.
  - rewrite Hr. clear. induction ops as [| op ops IH]; cbn [map]; constructor.
    + destruct op; [exact I | reflexivity].
    + exact IH.
  - intros now b. unfold updateFrequencyBasedFeedback. rewrite Hc. reflexivity.
Qed.

(** Two beats one millisecond apart both vibrate. *)
Lemma beats_one_millisecond_apart :
  beatVibrations (fst (run (fresh true) [Beat 1000 1; Beat 1001 1])) = [1000; 1001].
Proof.
  unfold run. cbn [fold_left step handle fst snd].
  unfold onBeatDetected at 2. cbn [fresh lastHapticTime canvas hapticSupported].
  rewrite gtb_true by lra.
  cbn [triggerVisualBeatResponse quadrantCenters getQuadrantCenter fst].
  unfold onBeatDetected. cbn [lastHapticTime canvas hapticSupported].
  rewrite gtb_true by lra.
  cbn [triggerVisualBeatResponse quadrantCenters getQuadrantCenter fst].
  reflexivity.
Qed.

End HapticRate.

Section ScheduledFeedback.
Import Haptic.

Variable Scheduled : Type.
Variable triggerTime : Scheduled -> R.

(** X29: [processScheduledFeedback] executes exactly the events whose
    trigger time has come, last queued first, and keeps the others in
    their order. *)
Theorem scheduled_feedback_runs_when_due (now : R) (syncBuffer : list Scheduled) :
  let r := processScheduledFeedback Scheduled triggerTime now syncBuffer in
  fst r = filter (fun event => negb (Num.geb now (triggerTime event))) syncBuffer
  /\ snd r = rev (filter (fun event => Num.geb now (triggerTime event)) syncBuffer)
  /\ Forall (fun event => now < triggerTime event) (fst r)
  /\ Forall (fun event => triggerTime event <= now) (snd r).
Proof.
  cbn zeta. induction syncBuffer as [| event rest (Hk & He & Hfk & Hfe)].
  - cbn. repeat split; constructor.
  - cbn [processScheduledFeedback filter].
    destruct (processScheduledFeedback Scheduled triggerTime now rest) as [kept executed].
    cbn [fst snd] in *.
    destruct (Num.geb now (triggerTime event)) eqn:Hdue; cbn [negb fst snd].
    + apply geb_spec in Hdue. repeat split.
      * exact Hk.
      * cbn [rev]. rewrite He. reflexivity.
      * exact Hfk.
      * apply Forall_app. split; [exact Hfe |]. constructor; [exact Hdue | constructor].
    + assert (Hlater : now < triggerTime event).
      { destruct (Rle_or_lt (triggerTime event) now) as [Hle | Hlt]; [| exact Hlt].
        apply geb_spec in Hle. rewrite Hle in Hdue. discriminate. }
      repeat split.
      * rewrite Hk. reflexivity.
      * exact He.
      * constructor; assumption.
      * exact Hfe.
Qed.

End ScheduledFeedback.

(** ** Level progression *)

Section Levels.
Import Progression.

Lemma step_progression (p : t) (op : Op) :
  Invariants.progressionInvariant p -> Invariants.progressionInvariant (step p op).
Proof.
  intros (Hl & Hp & Hs & Hr). destruct op as [accuracy energy combo | | newLevel |];
    unfold Invariants.progressionInvariant;
    cbn [step onPlayerHit advanceLevel setLevel reset initial fst level perfectStreak
         streakCount moves recentPerformance length].
  - rewrite push_capped_length by exact Hr.
    destruct (JS.gtb accuracy 0.9); [| destruct (JS.gtb accuracy 0.7)];
      repeat split; try lia; lra.
  - repeat split; try lia; lra.
  - repeat split; try lia. apply Rmax_l.
  - repeat split; try lia; lra.
Qed.

Lemma run_progression (ops : list Op) : Invariants.progressionInvariant (run ops).
Proof.
  unfold run.
  assert (H : forall p, Invariants.progressionInvariant p ->
                        Invariants.progressionInvariant (fold_left step ops p)).
  { induction ops as [| op rest IH]; intros p Hp; cbn [fold_left].
    - exact Hp.
    - apply IH. apply step_progression. exact Hp. }
  apply H. unfold Invariants.progressionInvariant, initial. cbn. repeat split; try lia; lra.
Qed.

Lemma floor_integer (k : Z) : Int_part (IZR k) = k.
Proof.
  pose proof (base_Int_part (IZR k)) as [Hle Hgt].
  assert (H1 : (Int_part (IZR k) <= k)%Z) by (apply le_IZR; exact Hle).
  assert (H2 : (k < Int_part (IZR k) + 1)%Z).
  { apply lt_IZR. rewrite plus_IZR. lra. }
  lia.
Qed.

(** X30: on every sequence of hits, level advances, [setLevel] calls and
    resets, the level is at least 1, the perfect streak is at most the
    streak, which is at most the moves, the accuracy history holds at
    most 20 entries, between one and five geometry types are unlocked (a
    prefix of the list) and [maxActiveGeometries] is between 2 and 8. *)
Theorem progression_counters_and_unlocks (ops : list Op) :
  let p := run ops in
  1 <= level p
  /\ (perfectStreak p <= streakCount p <= moves p)%nat
  /\ (length (recentPerformance p) <= 20)%nat
  /\ (exists n, (1 <= n <= 5)%nat
                /\ fst (updateGeometryUnlocks p) = firstn n allGeometries)
  /\ 2 <= snd (updateGeometryUnlocks p) <= 8.
Proof.
  cbn zeta. destruct (run_progression ops) as (Hl & Hp & Hs & Hr).
  set (p := run ops) in *.
  repeat split; try assumption.
  - unfold updateGeometryUnlocks. cbn [fst].
    assert (Hk : (1 <= Int_part (1 + level p / 5))%Z).
    { pose proof (base_Int_part (1 + level p / 5)) as [_ Hgt].
      apply Z.lt_succ_r. apply lt_IZR. rewrite succ_IZR. lra. }
    unfold JS.floor. replace (INR (length allGeometries)) with (IZR 5) by (cbn; lra).
    unfold Rmin. destruct (Rle_dec (IZR 5) (IZR (Int_part (1 + level p / 5)))) as [Hfive | Hless].
    + exists 5%nat. split; [lia |]. rewrite floor_integer. reflexivity.
    + exists (Z.to_nat (Int_part (1 + level p / 5))). rewrite floor_integer.
      split; [| reflexivity].
      assert (Int_part (1 + level p / 5) < 5)%Z by (apply lt_IZR; lra). lia.
  - unfold updateGeometryUnlocks. cbn [snd].
    pose proof (floor_nonneg (level p / 3) ltac:(lra)).
    apply Rmin_glb; lra.
  - unfold updateGeometryUnlocks. cbn [snd]. apply Rmin_l.
Qed.

End Levels.

(** ** Coherent visual system: temporal sync and 4D rotations *)

Section TemporalSync.
Import Coherent.

Lemma floor_of_unit (x : R) : 0 <= x < 1 -> JS.floor x = 0.
Proof.
  intros [Hlo Hhi]. unfold JS.floor.
  pose proof (base_Int_part x) as [Hle Hgt].
  assert (H1 : (Int_part x < 1)%Z) by (apply lt_IZR; lra).
  assert (H2 : (-1 < Int_part x)%Z) by (apply lt_IZR; lra).
  replace (Int_part x) with 0%Z by lia. reflexivity.
Qed.

Lemma rem_one_fraction (x : R) : 0 <= x -> JS.rem x 1 = x - JS.floor x.
Proof.
  intros Hx. unfold JS.rem, JS.trunc.
  replace (x / 1) with x by (field; lra).
  destruct (Rle_dec 0 x); [lra | contradiction].
Qed.

(** X10: for a beat info read at or after the last beat, with a positive
    tempo, the beat phase lies in [0, 1) and the measure phase is a
    quarter of it: [(beatPhase / 4) % 1] never leaves [0, 0.25), so the
    measure phase does not tell the beats of a measure apart. *)
Theorem measure_phase_stays_in_first_quarter (beatInfo : Director.BeatInfo) :
  0 <= Director.infoTimeSinceLastBeat beatInfo -> 0 < Director.bpm beatInfo ->
  0 <= beatPhase beatInfo < 1
  /\ measurePhase beatInfo = beatPhase beatInfo / 4
  /\ 0 <= measurePhase beatInfo < 0.25.
Proof.
  intros Ht Hbpm.
  assert (Hx : 0 <= Director.infoTimeSinceLastBeat beatInfo
                    / (60000 / Director.bpm beatInfo)).
  { apply Rmult_le_pos; [exact Ht |]. apply Rlt_le, Rinv_0_lt_compat.
    apply Rdiv_lt_0_compat; lra. }
  assert (Hb : 0 <= beatPhase beatInfo < 1).
  { unfold beatPhase. rewrite rem_one_fraction by exact Hx.
    pose proof (floor_bounds (Director.infoTimeSinceLastBeat beatInfo
                              / (60000 / Director.bpm beatInfo))). lra. }
  assert (Hm : measurePhase beatInfo = beatPhase beatInfo / 4).
  { unfold measurePhase. rewrite rem_one_fraction by lra.
    rewrite floor_of_unit by lra. lra. }
  split; [exact Hb |]. split; [exact Hm |]. rewrite Hm. lra.
Qed.

Lemma measure_phase_stays_in_first_quarter_witness :
  0 <= beatPhase {| Director.bpm := 120; Director.infoLastBeatTime := 0;
                    Director.infoTimeSinceLastBeat := 1750;
                    Director.infoBeatHistory := [] |} < 1
  /\ measurePhase {| Director.bpm := 120; Director.infoLastBeatTime := 0;
                     Director.infoTimeSinceLastBeat := 1750;
                     Director.infoBeatHistory := [] |}
     = beatPhase {| Director.bpm := 120; Director.infoLastBeatTime := 0;
                    Director.infoTimeSinceLastBeat := 1750;
                    Director.infoBeatHistory := [] |} / 4
  /\ 0 <= measurePhase {| Director.bpm := 120; Director.infoLastBeatTime := 0;
                          Director.infoTimeSinceLastBeat := 1750;
                          Director.infoBeatHistory := [] |} < 0.25.
Proof.
  apply (measure_phase_stays_in_first_quarter
           {| Director.bpm := 120; Director.infoLastBeatTime := 0;
              Director.infoTimeSinceLastBeat := 1750;
              Director.infoBeatHistory := [] |}); cbn; lra.
Defined.

End TemporalSync.

Section Rotations.
Import Coherent.

(** X26: for every plane and angle [createRotationMatrix4D] returns a
    4 x 4 matrix that preserves the length of every 4D vector it is
    applied to. *)
Theorem rotations_preserve_length (plane : Plane) (angle x y z w : R) :
  length (createRotationMatrix4D plane angle) = 4%nat
  /\ Forall (fun row => length row = 4%nat) (createRotationMatrix4D plane angle)
  /\ Invariants.squaredNorm
       (Invariants.transform (createRotationMatrix4D plane angle) [x; y; z; w])
     = Invariants.squaredNorm [x; y; z; w].
Proof.
  pose proof (sin2_cos2 angle) as Hunit. unfold Rsqr in Hunit.
  destruct plane; cbn [createRotationMatrix4D length];
    (split; [reflexivity |]);
    (split; [repeat apply Forall_cons; try apply Forall_nil; reflexivity |]);
    unfold Invariants.squaredNorm, Invariants.transform, Invariants.dot;
    cbn [map combine fold_left fst snd]; nra.
Qed.

End Rotations.
